(** * Forex-Watch: the rate acquisition and caching core

    A shallow embedding of the backend's exchange-rate subsystem:
    - [services/rates/rateStore.ts]            (module [RateStore]),
    - [services/rates/exchangeRateApiClient.ts] (module [ExchangeRateApi]),
    - [services/rates/freecurrencyApiClient.ts] (module [Freecurrency]),
    - [services/rates/mockRateProvider.ts]      (module [Mock]),
    - [services/rates/index.ts]                 ([buildProvider]),
    - [jobs/rateFetcher.ts]                     (module [Fetcher]).

    Asynchronous functions are modelled in direct style: every [await] in
    the modelled code is sequential, so a promise is the outcome of running
    its body.  Logging is not modelled. *)

From Stdlib Require Import ZArith QArith Bool List.
From stdpp Require Import base option list strings gmap.

Set Warnings "-register-all".

Local Open Scope string_scope.
Local Open Scope list_scope.
Local Open Scope Z_scope.

(** ** Shared domain types ([packages/shared]) *)

Inductive Currency :=
  | USD | EUR | GBP | JPY | AUD | CAD | CHF | CNY | SEK | NZD
  | MXN | SGD | HKD | NOK | TRY | ZAR | BRL | INR | KRW | PLN.

#[global] Instance Currency_eq_dec : EqDecision Currency.
Proof. solve_decision. Defined.

(** The string a currency is at run time. *)
Definition code (c : Currency) : string :=
  match c with
  | USD => "USD" | EUR => "EUR" | GBP => "GBP" | JPY => "JPY" | AUD => "AUD"
  | CAD => "CAD" | CHF => "CHF" | CNY => "CNY" | SEK => "SEK" | NZD => "NZD"
  | MXN => "MXN" | SGD => "SGD" | HKD => "HKD" | NOK => "NOK" | TRY => "TRY"
  | ZAR => "ZAR" | BRL => "BRL" | INR => "INR" | KRW => "KRW" | PLN => "PLN"
  end.

Inductive ProviderName :=
  | mock | exchangerate_api | currencylayer | freecurrencyapi.

#[global] Instance ProviderName_eq_dec : EqDecision ProviderName.
Proof. solve_decision. Defined.

(** A JavaScript [Date]: a time value in milliseconds, or the invalid date
    (whose [getTime()] is NaN). *)
Inductive JsDate :=
  | ValidDate (ms : Z)
  | InvalidDate.

(** [ExchangeRate].  The [rate] is a JavaScript number that the code only
    ever copies and tests with [typeof]; it is modelled by the rational the
    JSON literal denotes. *)
Record ExchangeRate := mkRate {
  base : Currency;
  quote : Currency;
  rate : Q;
  timestamp : JsDate;
  provider : ProviderName;
}.

(** ** Errors ([utils/errors.ts]) *)

(** What a [throw] carries: an [AppError] with its [statusCode] and [code]
    (message and details are not modelled), or a [TypeError] raised by the
    JavaScript runtime itself. *)
Inductive JsError :=
  | AppError (statusCode : Z) (errCode : string)
  | TypeError.

Inductive Result (A : Type) :=
  | Ok (a : A)
  | Err (e : JsError).
Arguments Ok {A} a.
Arguments Err {A} e.

(** ** The host: network, clock and JavaScript built-ins *)

(** A parsed JSON value; [JObj] lists the own properties of the parsed
    object (each key once). *)
Inductive json :=
  | JNull
  | JBool (b : bool)
  | JNum (q : Q)
  | JStr (s : string)
  | JArr (items : list json)
  | JObj (fields : list (string * json)).

(** A [fetch] response: its status and what [response.json()] gives
    ([None] when it rejects). *)
Record Response := mkResponse {
  status : Z;
  body : option json;
}.

(** [response.ok] *)
Definition ok (r : Response) : bool :=
  (200 <=? status r) && (status r <=? 299).

(** How one [fetch(url, { signal })] ends: with a response, aborted by the
    timeout's [AbortController], or rejected for another reason. *)
Inductive FetchOutcome :=
  | Responded (r : Response)
  | Aborted
  | Failed.

(** Everything the code reads from outside itself.  [net i] is the outcome
    of the [i]-th [fetch] of the run and [clock i] the [i]-th reading of the
    system clock, so nothing is assumed about servers or about time.
    [newDate v] is [new Date(v)], [newDateUnix v] is [new Date(v * 1000)]
    and [hourIn tz ms] is what [Intl.DateTimeFormat] followed by [parseInt]
    gives for the instant [ms] in time zone [tz]. *)
Record Host := mkHost {
  net : nat -> FetchOutcome;
  clock : nat -> Z;
  newDate : json -> JsDate;
  newDateUnix : json -> JsDate;
  hourIn : string -> Z -> Z;
}.

(** How many [fetch] calls and clock readings have been made so far. *)
Record Ticks := mkTicks {
  calls : nat;
  reads : nat;
}.

(** Code that may throw, reads the host and advances the counters. *)
Definition M (A : Type) : Type := Host -> Ticks -> Result A * Ticks.

Definition ret {A} (a : A) : M A := fun _ t => (Ok a, t).
Definition throw {A} (e : JsError) : M A := fun _ t => (Err e, t).
Definition bind {A B} (m : M A) (k : A -> M B) : M B :=
  fun h t =>
    match m h t with
    | (Ok a, t') => k a h t'
    | (Err e, t') => (Err e, t')
    end.
Definition tryCatch {A} (m : M A) (handler : JsError -> M A) : M A :=
  fun h t =>
    match m h t with
    | (Ok a, t') => (Ok a, t')
    | (Err e, t') => handler e h t'
    end.
Definition liftR {A} (r : Result A) : M A := fun _ t => (r, t).

Notation "x <- m ;; k" := (bind m (fun x => k))
  (at level 100, m at next level, right associativity).

(** [Date.now()], and the time value of [new Date()]. *)
Definition now : M Z :=
  fun h t => (Ok (clock h (reads t)), mkTicks (calls t) (S (reads t))).

(** [new Date()] *)
Definition today : M JsDate := n <- now ;; ret (ValidDate n).

(** [new Date(v)] and [new Date(v * 1000)] for a parsed JSON value [v]. *)
Definition dateOf (v : json) : M JsDate := fun h t => (Ok (newDate h v), t).
Definition dateOfUnix (v : json) : M JsDate := fun h t => (Ok (newDateUnix h v), t).

(** The counters after one more [fetch]. *)
Definition called (t : Ticks) : Ticks := mkTicks (S (calls t)) (reads t).

(** [fetch]: the next outcome of the network. *)
Definition fetch : M FetchOutcome :=
  fun h t => (Ok (net h (calls t)), called t).

(** [for (const x of xs) { results.push(await f(x)) }]: stops at the first
    throw. *)
Fixpoint forEach {A B} (f : A -> M B) (xs : list A) : M (list B) :=
  match xs with
  | [] => ret []
  | x :: rest => y <- f x ;; ys <- forEach f rest ;; ret (y :: ys)
  end.

(** [Promise.all(xs.map(f))] for an [f] without an [await] in it: every
    call runs to its end, in order, whether or not an earlier one threw;
    the result rejects with the first rejection. *)
Fixpoint settleAll {A B} (f : A -> M B) (xs : list A) (h : Host) (t : Ticks)
  : list (Result B) * Ticks :=
  match xs with
  | [] => ([], t)
  | x :: rest =>
      let '(r, t1) := f x h t in
      let '(rs, t2) := settleAll f rest h t1 in
      (r :: rs, t2)
  end.

Fixpoint firstRejection {B} (rs : list (Result B)) : Result (list B) :=
  match rs with
  | [] => Ok []
  | Err e :: _ => Err e
  | Ok b :: rest =>
      match firstRejection rest with
      | Ok bs => Ok (b :: bs)
      | Err e => Err e
      end
  end.

Definition promiseAllMap {A B} (f : A -> M B) (xs : list A) : M (list B) :=
  fun h t => let '(rs, t') := settleAll f xs h t in (firstRejection rs, t').

(** *** JavaScript operators on parsed JSON *)

Fixpoint assoc (k : string) (fields : list (string * json)) : option json :=
  match fields with
  | [] => None
  | (k', v) :: rest => if bool_decide (k' = k) then Some v else assoc k rest
  end.

(** [v.k] or [v[k]] for a key that no prototype defines: [undefined]
    ([None]) unless [v] is an object owning [k]; a [TypeError] on [null]. *)
Definition prop (k : string) (v : json) : Result (option json) :=
  match v with
  | JNull => Err TypeError
  | JObj fields => Ok (assoc k fields)
  | _ => Ok None
  end.

(** [k in v]: a [TypeError] unless [v] is an object or an array. *)
Definition hasProp (k : string) (v : json) : Result bool :=
  match v with
  | JObj fields => Ok (bool_decide (is_Some (assoc k fields)))
  | JArr _ => Ok false
  | _ => Err TypeError
  end.

(** Truthiness of a possibly [undefined] value. *)
Definition truthy (v : option json) : bool :=
  match v with
  | None | Some JNull => false
  | Some (JBool b) => b
  | Some (JNum q) => negb (Qeq_bool q 0)
  | Some (JStr s) => negb (bool_decide (s = ""))
  | Some (JArr _) | Some (JObj _) => true
  end.

(** [v === s] for a string literal [s]. *)
Definition strictEqStr (v : option json) (s : string) : bool :=
  match v with
  | Some (JStr s') => bool_decide (s' = s)
  | _ => false
  end.

(** ** Configuration ([config.rates]) *)

Record RatesConfig := mkConfig {
  cfg_provider : ProviderName;
  cfg_apiKey : option string;
  cfg_retryCount : option Z;
  pairs : list (Currency * Currency);
  startHour : Z;
  endHour : Z;
  timezone : string;
  cacheTtlMs : Z;
}.

(** [const retryCount = providerConfig.retryCount ?? 1] *)
Definition retryCount (cfg : RatesConfig) : Z :=
  match cfg_retryCount cfg with Some n => n | None => 1 end.

(** ** The rate store ([services/rates/rateStore.ts]) *)

Module RateStore.

(** [type StoredRate = ExchangeRate & { stale: boolean }] *)
Record StoredRate := mkStored {
  entry : ExchangeRate;
  stale : bool;
}.

(** The module-level [Map<string, StoredRate>]. *)
Abbreviation Store := (gmap string StoredRate).

Definition key (b q : Currency) : string :=
  code b +:+ "-" +:+ code q.

(** [saveRates]: one [store.set] per rate, in order. *)
Fixpoint saveRates (rates : list ExchangeRate) (st : bool) (s : Store) : Store :=
  match rates with
  | [] => s
  | r :: rest =>
      saveRates rest st (<[key (base r) (quote r) := mkStored r st]> s)
  end.

(** [Date.now() - entry.timestamp.getTime() > cacheTtlMs]; a comparison
    with NaN is false. *)
Definition isExpired (now : Z) (ts : JsDate) (cacheTtlMs : Z) : bool :=
  match ts with
  | ValidDate t => now - t >? cacheTtlMs
  | InvalidDate => false
  end.

(** [getRate]: the clock is read only when the pair has an entry. *)
Definition getRate (b q : Currency) (cacheTtlMs : Z) (s : Store)
  : M (option StoredRate) :=
  match s !! key b q with
  | None => ret None
  | Some e =>
      n <- now ;;
      ret (Some (mkStored (entry e)
                   (stale e || isExpired n (timestamp (entry e)) cacheTtlMs)))
  end.

(** A history of [saveRates] calls, oldest first, replayed on the empty
    store the module starts with. *)
Definition replay (hist : list (list ExchangeRate * bool)) : Store :=
  fold_left (fun s '(rs, st) => saveRates rs st s) hist ∅.

(** Specification side: every rate ever saved, oldest first, with the
    flag of its call, and the last of them for a pair. *)
Definition savedLog (hist : list (list ExchangeRate * bool)) : list StoredRate :=
  concat (map (fun '(rs, st) => map (fun r => mkStored r st) rs) hist).

Fixpoint lastFor (b q : Currency) (log : list StoredRate) : option StoredRate :=
  match log with
  | [] => None
  | e :: rest =>
      match lastFor b q rest with
      | Some e' => Some e'
      | None =>
          if bool_decide (base (entry e) = b ∧ quote (entry e) = q)
          then Some e else None
      end
  end.

(** *** [getAllRates]

    [Array.from(store.values())] lists the values in the order in which
    the [Map] iterates, the order in which its keys were first set.  The
    store is taken with that order next to its content: a [set] on a new
    key appends the key, a [set] on a key that is there leaves it in
    place, and nothing is ever deleted. *)
Record OrderedStore := mkOrdered {
  order : list string;
  content : Store;
}.

Definition emptyStore : OrderedStore := mkOrdered [] ∅.

Fixpoint keysAfter (keys : list string) (rates : list ExchangeRate) : list string :=
  match rates with
  | [] => keys
  | r :: rest =>
      keysAfter (if bool_decide (key (base r) (quote r) ∈ keys) then keys
                 else keys ++ [key (base r) (quote r)]) rest
  end.

(** [saveRates] on the store with its order. *)
Definition saveRatesOrdered (rates : list ExchangeRate) (st : bool) (os : OrderedStore)
  : OrderedStore :=
  mkOrdered (keysAfter (order os) rates) (saveRates rates st (content os)).

Definition replayOrdered (hist : list (list ExchangeRate * bool)) : OrderedStore :=
  fold_left (fun os '(rs, st) => saveRatesOrdered rs st os) hist emptyStore.

(** [store.values()] *)
Definition values (os : OrderedStore) : list StoredRate :=
  omap (fun k => content os !! k) (order os).

(** The callback of [getAllRates]: a copy of the entry, flagged by a clock
    reading of its own. *)
Definition agedCopy (cacheTtlMs : Z) (e : StoredRate) : M StoredRate :=
  n <- now ;;
  ret (mkStored (entry e) (stale e || isExpired n (timestamp (entry e)) cacheTtlMs)).

Definition getAllRates (cacheTtlMs : Z) (os : OrderedStore) : M (list StoredRate) :=
  forEach (agedCopy cacheTtlMs) (values os).

(** What [getRate] and [getAllRates] make of an entry at the clock
    reading [n]. *)
Definition aged (cacheTtlMs : Z) (n : Z) (e : StoredRate) : StoredRate :=
  mkStored (entry e) (stale e || isExpired n (timestamp (entry e)) cacheTtlMs).

(** The order lists each key of the content once. *)
Definition coherent (os : OrderedStore) : Prop :=
  NoDup (order os) ∧ forall k, k ∈ order os <-> is_Some (content os !! k).

(** Every entry sits under the key of its own pair. *)
Definition wellKeyed (s : Store) : Prop :=
  forall k e, s !! k = Some e -> k = key (base (entry e)) (quote (entry e)).

End RateStore.


(** ** Provider interface ([services/rates/types.ts]) *)

(** [getLatestRates] is optional. *)
Record RateProvider := mkProvider {
  getLatestRate : Currency -> Currency -> M ExchangeRate;
  getLatestRates : option (Currency -> list Currency -> M (list ExchangeRate));
}.

(** One turn of the retry loops: [return] a value or fall through to
    [attempt += 1]. *)
Inductive Turn (A : Type) :=
  | Return (a : A)
  | Continue.
Arguments Return {A} a.
Arguments Continue {A}.

(** [ensureApiKey]: [!providerConfig.apiKey] holds for a missing and for
    an empty key. *)
Definition ensureApiKey (cfg : RatesConfig) : M string :=
  match cfg_apiKey cfg with
  | Some k =>
      if bool_decide (k = "")
      then throw (AppError 500 "RATE_PROVIDER_CONFIG_ERROR")
      else ret k
  | None => throw (AppError 500 "RATE_PROVIDER_CONFIG_ERROR")
  end.

(** [fetchWithTimeout], the same in both clients.  The URL is not
    modelled: it only selects what the far end answers, which [net]
    leaves arbitrary. *)
Definition fetchWithTimeout : M Response :=
  o <- fetch ;;
  match o with
  | Responded r => ret r
  | Aborted => throw (AppError 504 "RATE_PROVIDER_TIMEOUT")
  | Failed => throw (AppError 503 "RATE_PROVIDER_REQUEST_FAILED")
  end.

(** The [try { body = await response.json() } catch { ... }] that opens
    both [parseResponse] functions. *)
Definition readBody (response : Response) : M json :=
  match body response with
  | Some b => ret b
  | None =>
      if negb (ok response)
      then throw (AppError (if status response >=? 500 then 503 else status response)
                    "RATE_PROVIDER_ERROR")
      else throw (AppError 502 "RATE_PROVIDER_INVALID_JSON")
  end.

(** [response.status >= 500 ? 503 : response.status === 404 ? 404 : 502] *)
Definition statusCodeFor (response : Response) : Z :=
  if status response >=? 500 then 503
  else if status response =? 404 then 404 else 502.

(** The retry loop, [while (attempt <= retryCount) { try { ... } catch
    { ... } attempt += 1 }] followed by the final [throw]: the same text in
    [requestLatestRate] and in [requestLatestRates] but for the call to the
    client's own [parseResponse], here [parse].  [turns] is the number of
    turns the loop condition still allows, [Z.to_nat (retryCount + 1 -
    attempt)]; at [0] the loop is left and the final [throw] is reached.
    The [try] encloses [return await parseResponse(...)], so what
    [parseResponse] throws reaches the [catch] of the loop as well. *)
Fixpoint retryLoop {A} (cfg : RatesConfig) (parse : Response -> M A)
    (turns : nat) (attempt : Z) : M A :=
  match turns with
  | O => throw (AppError 503 "RATE_PROVIDER_RETRIES_EXHAUSTED")
  | S turns' =>
      turn <- tryCatch
                (response <- fetchWithTimeout ;;
                 if ok response || (status response <? 500) || (attempt =? retryCount cfg)
                 then (r <- parse response ;; ret (Return r))
                 else ret Continue)
                (fun error =>
                   if attempt =? retryCount cfg then throw error else ret Continue) ;;
      match turn with
      | Return r => ret r
      | Continue => retryLoop cfg parse turns' (attempt + 1)
      end
  end.

(** ** ExchangeRate-API client ([services/rates/exchangeRateApiClient.ts]) *)

Module ExchangeRateApi.

Definition parseResponse (response : Response) (b q : Currency) : M ExchangeRate :=
  body <- readBody response ;;
  success <- (if ok response
              then (result <- liftR (prop "result" body) ;;
                    ret (strictEqStr result "success"))
              else ret false) ;;
  if (success : bool) then
    conversion_rate <- liftR (prop "conversion_rate" body) ;;
    match conversion_rate with
    | Some (JNum r) =>
        unix <- liftR (prop "time_last_update_unix" body) ;;
        ts <- match unix with
              | Some v => if truthy unix then dateOfUnix v else today
              | None => today
              end ;;
        ret (mkRate b q r ts exchangerate_api)
    | _ => throw (AppError 502 "RATE_PROVIDER_INVALID_RATE")
    end
  else
    _ <- liftR (prop "result" body) ;;
    throw (AppError (statusCodeFor response) "RATE_PROVIDER_ERROR").

Definition requestLatestRate (cfg : RatesConfig) (b q : Currency) : M ExchangeRate :=
  if bool_decide (b = q)
  then throw (AppError 400 "RATE_VALIDATION_ERROR")
  else
    _ <- ensureApiKey cfg ;;
    retryLoop cfg (fun response => parseResponse response b q)
      (Z.to_nat (retryCount cfg + 1)) 0.

Definition createExchangeRateApiClient (cfg : RatesConfig) : RateProvider :=
  {| getLatestRate := requestLatestRate cfg;
     getLatestRates := None |}.

End ExchangeRateApi.

(** ** Freecurrencyapi client ([services/rates/freecurrencyApiClient.ts]) *)

Module Freecurrency.

(** [parseTimestamp(body.meta)]: [meta] may be [undefined]. *)
Definition parseTimestamp (meta : option json) : M JsDate :=
  last_updated_at <- match meta with
                     | None | Some JNull => ret None
                     | Some m => liftR (prop "last_updated_at" m)
                     end ;;
  match last_updated_at with
  | Some v =>
      if truthy last_updated_at
      then
        parsed <- dateOf v ;;
        match parsed with
        | ValidDate _ => ret parsed
        | InvalidDate => today
        end
      else today
  | None => today
  end.

(** The [for (const quote of quotes)] loop of [parseResponse]. *)
Fixpoint collectRates (body : json) (ts : JsDate) (b : Currency) (quotes : list Currency)
  : M (list ExchangeRate) :=
  match quotes with
  | [] => ret []
  | q :: rest =>
      data <- liftR (prop "data" body) ;;
      r <- match data with
           | Some d => liftR (prop (code q) d)
           | None => throw TypeError
           end ;;
      match r with
      | Some (JNum x) =>
          rs <- collectRates body ts b rest ;;
          ret (mkRate b q x ts freecurrencyapi :: rs)
      | _ => throw (AppError 502 "RATE_PROVIDER_INVALID_RATE")
      end
  end.

Definition parseResponse (response : Response) (b : Currency) (quotes : list Currency)
  : M (list ExchangeRate) :=
  body <- readBody response ;;
  success <- (if ok response then liftR (hasProp "data" body) else ret false) ;;
  if (success : bool) then
    meta <- liftR (prop "meta" body) ;;
    ts <- parseTimestamp meta ;;
    collectRates body ts b quotes
  else
    _ <- liftR (hasProp "message" body) ;;
    throw (AppError (statusCodeFor response) "RATE_PROVIDER_ERROR").

(** [quotes.some(quote => quote === base)] comes first; [buildUrl] then
    calls [ensureApiKey]. *)
Definition requestLatestRates (cfg : RatesConfig) (b : Currency) (quotes : list Currency)
  : M (list ExchangeRate) :=
  if existsb (fun q => bool_decide (q = b)) quotes
  then throw (AppError 400 "RATE_VALIDATION_ERROR")
  else
    _ <- ensureApiKey cfg ;;
    retryLoop cfg (fun response => parseResponse response b quotes)
      (Z.to_nat (retryCount cfg + 1)) 0.

(** [const [single] = await requestLatestRates(base, [quote])].  A
    result for one quote has one element (see [collectRates_pairs]); the
    empty case cannot arise and is given a [TypeError]. *)
Definition createFreecurrencyApiClient (cfg : RatesConfig) : RateProvider :=
  {| getLatestRate := fun b q =>
       rs <- requestLatestRates cfg b [q] ;;
       match rs with
       | single :: _ => ret single
       | [] => throw TypeError
       end;
     getLatestRates := Some (requestLatestRates cfg) |}.

End Freecurrency.

(** ** Mock provider ([services/rates/mockRateProvider.ts]) *)

Module Mock.

Definition mockGetLatestRate (b q : Currency) : M ExchangeRate :=
  if bool_decide (b = q)
  then throw (AppError 400 "RATE_VALIDATION_ERROR")
  else
    ts <- today ;;
    ret (mkRate b q 1%Q ts mock).

(** What [getLatestRate(b, q)] returns when it is the call that makes
    the [i]-th clock reading after [t]. *)
Definition mockRateAt (b : Currency) (h : Host) (t : Ticks) (i : nat) (q : Currency)
  : ExchangeRate :=
  mkRate b q 1 (ValidDate (clock h (reads t + i)%nat)) mock.

(** [Promise.all(quotes.map(quote => this.getLatestRate(base, quote)))] *)
Definition mockGetLatestRates (b : Currency) (quotes : list Currency)
  : M (list ExchangeRate) :=
  promiseAllMap (mockGetLatestRate b) quotes.

Definition createMockRateProvider : RateProvider :=
  {| getLatestRate := mockGetLatestRate;
     getLatestRates := Some mockGetLatestRates |}.

End Mock.

(** ** Provider selector ([services/rates/index.ts]) *)

(** [buildProvider] runs once, when the module is loaded; for a provider
    that is not implemented the load itself throws. *)
Definition buildProvider (cfg : RatesConfig) : Result RateProvider :=
  match cfg_provider cfg with
  | freecurrencyapi => Ok (Freecurrency.createFreecurrencyApiClient cfg)
  | exchangerate_api => Ok (ExchangeRateApi.createExchangeRateApiClient cfg)
  | mock => Ok Mock.createMockRateProvider
  | currencylayer => Err (AppError 500 "RATE_PROVIDER_NOT_IMPLEMENTED")
  end.

(** ** The rate fetcher ([jobs/rateFetcher.ts]) *)

Module Fetcher.
Import RateStore.

(** What a fetch cycle can change: the host counters and the store. *)
Record World := mkWorld {
  ticks : Ticks;
  store : Store;
}.

(** [grouped.get(pair.base)!.push(pair.quote)], creating the group at the
    end of the [Map] when the base is new. *)
Fixpoint pushQuote (b q : Currency) (grouped : list (Currency * list Currency))
  : list (Currency * list Currency) :=
  match grouped with
  | [] => [(b, [q])]
  | (b', qs) :: rest =>
      if bool_decide (b' = b) then (b', qs ++ [q]) :: rest
      else (b', qs) :: pushQuote b q rest
  end.

(** [groupByBase]: a [Map] iterates in insertion order. *)
Definition groupByBase (ps : list (Currency * Currency))
  : list (Currency * list Currency) :=
  fold_left (fun grouped '(b, q) => pushQuote b q grouped) ps [].

(** The hour that [Intl.DateTimeFormat] gives in the zone.  The
    configured zone is taken to be one the host knows: for any other the
    constructor throws a [RangeError], before any request and before any
    write to the store. *)
Definition getHourInTimezone (tz : string) : M Z :=
  n <- now ;; fun h t => (Ok (hourIn h tz n), t).

Definition withinActiveWindow (cfg : RatesConfig) : M bool :=
  currentHour <- getHourInTimezone (timezone cfg) ;;
  ret ((currentHour >=? startHour cfg) && (currentHour <? endHour cfg)).

(** The provider calls in the [try] block of [fetchForBase]: the batched
    operation when the provider has one, else one call per quote. *)
Definition fetchRates (p : RateProvider) (b : Currency) (quotes : list Currency)
  : M (list ExchangeRate) :=
  match getLatestRates p with
  | Some batch => batch b quotes
  | None => forEach (getLatestRate p b) quotes
  end.

(** The object the [catch] block builds from a cached entry:
    [{ base, quote, rate: cached.rate, timestamp: cached.timestamp,
       provider: cached.provider }]. *)
Definition staleCopy (b q : Currency) (cached : StoredRate) : ExchangeRate :=
  mkRate b q (rate (entry cached)) (timestamp (entry cached)) (provider (entry cached)).

(** The entry that [saveRates([...], true)] then stores for it. *)
Definition flagged (b q : Currency) (cached : StoredRate) : StoredRate :=
  mkStored (staleCopy b q cached) true.

(** The [catch] block of [fetchForBase]. *)
Fixpoint markStale (cfg : RatesConfig) (b : Currency) (quotes : list Currency)
    (h : Host) (w : World) : World :=
  match quotes with
  | [] => w
  | q :: rest =>
      let '(cached, t') := getRate b q (cacheTtlMs cfg) (store w) h (ticks w) in
      let s' :=
        match cached with
        | Ok (Some c) => saveRates [staleCopy b q c] true (store w)
        | _ => store w
        end in
      markStale cfg b rest h (mkWorld t' s')
  end.

Definition fetchForBase (p : RateProvider) (cfg : RatesConfig) (b : Currency)
    (quotes : list Currency) (h : Host) (w : World) : World :=
  match fetchRates p b quotes h (ticks w) with
  | (Ok rates, t') => mkWorld t' (saveRates rates false (store w))
  | (Err _, t') => markStale cfg b quotes h (mkWorld t' (store w))
  end.

(** The [for (const [base, quotes] of grouped.entries())] loop. *)
Definition fetchAll (p : RateProvider) (cfg : RatesConfig)
    (grouped : list (Currency * list Currency)) (h : Host) (w : World) : World :=
  fold_left (fun w '(b, quotes) => fetchForBase p cfg b quotes h w) grouped w.

(** [runFetch], for the [rateProvider] chosen at start-up. *)
Definition runFetch (p : RateProvider) (cfg : RatesConfig) (h : Host) (w : World)
  : World :=
  match withinActiveWindow cfg h (ticks w) with
  | (Ok true, t') => fetchAll p cfg (groupByBase (pairs cfg)) h (mkWorld t' (store w))
  | (_, t') => mkWorld t' (store w)
  end.

(** A provider whose successful answers are all for the base asked
    for, as the three of [buildProvider] are. *)
Definition respectsBase (p : RateProvider) : Prop :=
  forall b quotes h t rs t',
    fetchRates p b quotes h t = (Ok rs, t') -> Forall (fun r => base r = b) rs.

(** A provider whose successful answers hold one rate per quote asked
    for, in order and for the base asked for, as the three of
    [buildProvider] do. *)
Definition answersEachQuote (p : RateProvider) : Prop :=
  forall b quotes h t rs t',
    fetchRates p b quotes h t = (Ok rs, t') ->
    Forall2 (fun q r => base r = b ∧ quote r = q) quotes rs.

(** The quotes configured for a base, in the order of the configuration. *)
Definition quotesOf (b : Currency) (ps : list (Currency * Currency)) : list Currency :=
  map snd (filter (fun p => fst p = b) ps).

End Fetcher.

(** ** Rate endpoint ([controllers/rateController.ts],
    [middleware/errorHandler.ts]) *)

Module Endpoint.
Import RateStore.

(** A value of [req.query]: absent, a string, or an array or nested
    object. *)
Inductive QueryValue :=
  | QMissing
  | QString (s : string)
  | QOther.

(** The values of [CurrencySchema], in its order. *)
Definition currencies : list Currency :=
  [USD; EUR; GBP; JPY; AUD; CAD; CHF; CNY; SEK; NZD;
   MXN; SGD; HKD; NOK; TRY; ZAR; BRL; INR; KRW; PLN].

(** The currency a string is, if it is one of the enumerated codes. *)
Definition currencyOf (s : string) : option Currency :=
  find (fun c => bool_decide (code c = s)) currencies.

(** [CurrencySchema.safeParse]: succeeds on a string of the enum. *)
Definition safeParse (v : QueryValue) : option Currency :=
  match v with
  | QString s => currencyOf s
  | _ => None
  end.

(** [getLatestRateHandler]: the [data] of the JSON it responds with, or
    what it throws. *)
Definition getLatestRateHandler (cfg : RatesConfig) (baseRaw quoteRaw : QueryValue)
    (s : Store) : M StoredRate :=
  match safeParse baseRaw, safeParse quoteRaw with
  | Some b, Some q =>
      if bool_decide (b = q)
      then throw (AppError 400 "RATE_VALIDATION_ERROR")
      else
        latest <- getRate b q (cacheTtlMs cfg) s ;;
        match latest with
        | Some l => ret l
        | None => throw (AppError 404 "RATE_NOT_AVAILABLE")
        end
  | _, _ => throw (AppError 400 "RATE_VALIDATION_ERROR")
  end.

(** The status [errorHandler] responds with: the [statusCode] of an
    operational error, which every [AppError] thrown in the modelled code
    is, and 500 for anything else. *)
Definition errorStatus (err : JsError) : Z :=
  match err with
  | AppError statusCode _ => statusCode
  | TypeError => 500
  end.

End Endpoint.

(** ** Configured pairs ([config/index.ts]) *)

Module Config.
Import Stdlib.Strings.Ascii.

(** [s.split(sep)] for a separator of one character. *)
Fixpoint split (sep : Ascii.ascii) (s : string) : list string :=
  match s with
  | EmptyString => [EmptyString]
  | String c rest =>
      if Ascii.eqb c sep then EmptyString :: split sep rest
      else match split sep rest with
           | first :: more => String c first :: more
           | [] => [String c EmptyString]
           end
  end.

(** The white space [trim] removes, among the ASCII characters: tab, line
    feed, vertical tab, form feed, carriage return and space.  The
    configuration string is taken to be ASCII. *)
Definition isWhite (c : Ascii.ascii) : bool :=
  let n := Ascii.nat_of_ascii c in
  ((9 <=? n)%nat && (n <=? 13)%nat) || (n =? 32)%nat.

Fixpoint trimStart (s : string) : string :=
  match s with
  | EmptyString => EmptyString
  | String c rest => if isWhite c then trimStart rest else s
  end.

Fixpoint trimEnd (s : string) : string :=
  match s with
  | EmptyString => EmptyString
  | String c rest =>
      match trimEnd rest with
      | EmptyString => if isWhite c then EmptyString else String c EmptyString
      | kept => String c kept
      end
  end.

Definition trim (s : string) : string := trimEnd (trimStart s).

(** [SUPPORTED_CURRENCIES.includes(val)], with the currency found. *)
Definition isCurrency (val : string) : option Currency :=
  find (fun c => bool_decide (code c = val)) Endpoint.currencies.

(** The chain of [parseRatePairs] after the test for an empty string. *)
Definition pairsOf (raw : string) : list (Currency * Currency) :=
  flat_map
    (fun parts =>
       match parts with
       | [b; q] =>
           match isCurrency b, isCurrency q with
           | Some b', Some q' => [(b', q')]
           | _, _ => []
           end
       | _ => []
       end)
    (filter (fun parts => length parts = 2%nat)
       (map (fun pair => map trim (split ":"%char pair))
          (filter (fun pair => pair ≠ EmptyString)
             (map trim (split ","%char raw))))).

Definition parseRatePairs (raw : string) : list (Currency * Currency) :=
  if bool_decide (raw = EmptyString) then [] else pairsOf raw.

(** The configuration string for a list of pairs: [BASE:QUOTE] tokens
    joined by commas. *)
Definition formatPairs (ps : list (Currency * Currency)) : string :=
  String.concat "," (map (fun '(b, q) => code b +:+ ":" +:+ code q) ps).

End Config.

(** ** Scenarios

    The settings and canned responses of the repository's client tests
    ([tests/services/*ApiClient.test.ts]), for evaluating the model. *)

Module Scenario.

(** [baseEnv]: key ['test-key'], [RATE_PROVIDER_RETRY_COUNT: '1']. *)
Definition testConfig (p : ProviderName) : RatesConfig :=
  {| cfg_provider := p;
     cfg_apiKey := Some "test-key";
     cfg_retryCount := Some 1;
     pairs := [(USD, JPY); (USD, EUR)];
     startHour := 0;
     endHour := 24;
     timezone := "UTC";
     cacheTtlMs := 60000 |}.

(** [mockFetchSequence]: the given outcomes in order (a rejection once
    they are used up), on a clock that advances by a millisecond per
    reading at an hour of 12. *)
Definition scripted (outcomes : list FetchOutcome) : Host :=
  {| net := fun i => nth i outcomes Failed;
     clock := fun i => 1700000000000 + Z.of_nat i;
     newDate := fun _ => InvalidDate;
     newDateUnix := fun _ => InvalidDate;
     hourIn := fun _ _ => 12 |}.

Definition start : Ticks := mkTicks 0 0.

Definition success (r : Q) : Response :=
  mkResponse 200
    (Some (JObj [("result", JStr "success"); ("base_code", JStr "USD");
                 ("target_code", JStr "EUR"); ("conversion_rate", JNum r)])).

Definition notFound : Response :=
  mkResponse 404
    (Some (JObj [("result", JStr "error"); ("error-type", JStr "unsupported-code")])).

Definition serverError : Response :=
  mkResponse 500
    (Some (JObj [("result", JStr "error"); ("error-type", JStr "server-error")])).

Definition data (jpy eur : Q) : Response :=
  mkResponse 200
    (Some (JObj [("data", JObj [("JPY", JNum jpy); ("EUR", JNum eur)])])).

(** The first request times out, the second is answered. *)
Definition timeoutThenSuccess : Host :=
  scripted [Aborted; Responded (success (11 # 10))].

(** [mockFetchTimeout]: every request times out. *)
Definition alwaysTimeout : Host := scripted [Aborted; Aborted].

(** ['retries on 5xx then succeeds'] *)
Definition serverErrorThenSuccess : Host :=
  scripted [Responded serverError; Responded (success (11 # 10))].

Definition serverErrorThenData : Host :=
  scripted [Responded serverError; Responded (data (301 # 2) (92 # 100))].

(** A 404 followed, were the request repeated, by a good answer. *)
Definition notFoundThenSuccess : Host :=
  scripted [Responded notFound; Responded (success (11 # 10))].

Definition messageNotFound : Response :=
  mkResponse 404 (Some (JObj [("message", JStr "not found")])).

Definition messageNotFoundThenData : Host :=
  scripted [Responded messageNotFound; Responded (data (301 # 2) (92 # 100))].

(** A good answer whose rate is zero, or negative. *)
Definition zeroRate : Host := scripted [Responded (success 0)].
Definition negativeRate : Host := scripted [Responded (data (301 # 2) (-3 # 2))].

(** The network is down: every request is rejected. *)
Definition networkDown : Host := scripted [].

(** The first request is answered, then the network is down. *)
Definition successThenDown : Host := scripted [Responded (success (301 # 2))].

(** A store holding an earlier rate for USD-JPY and none for USD-EUR. *)
Definition earlier : ExchangeRate :=
  mkRate USD JPY (301 # 2) (ValidDate 1699999000000) exchangerate_api.

Definition warm : Fetcher.World :=
  Fetcher.mkWorld start (RateStore.saveRates [earlier] false ∅).

(** Active from 14:00 to 22:00, on a host where it is 12:00. *)
Definition afternoonConfig : RatesConfig :=
  {| cfg_provider := exchangerate_api;
     cfg_apiKey := Some "test-key";
     cfg_retryCount := Some 1;
     pairs := [(USD, JPY); (USD, EUR)];
     startHour := 14;
     endHour := 22;
     timezone := "UTC";
     cacheTtlMs := 60000 |}.

(** A retry count below zero. *)
Definition negativeBudget : RatesConfig :=
  {| cfg_provider := exchangerate_api;
     cfg_apiKey := Some "test-key";
     cfg_retryCount := Some (-1);
     pairs := [(USD, JPY); (USD, EUR)];
     startHour := 0;
     endHour := 24;
     timezone := "UTC";
     cacheTtlMs := 60000 |}.

(** The provider answers 500 twice, the second time without a JSON body. *)
Definition serverErrors : Host :=
  scripted [Responded serverError; Responded (mkResponse 503 None)].

(** A request that is rejected, then one that times out. *)
Definition downThenTimeout : Host := scripted [Failed; Aborted].

(** No API key is configured. *)
Definition keylessConfig : RatesConfig :=
  {| cfg_provider := freecurrencyapi;
     cfg_apiKey := None;
     cfg_retryCount := Some 1;
     pairs := [(USD, JPY); (USD, EUR)];
     startHour := 0;
     endHour := 24;
     timezone := "UTC";
     cacheTtlMs := 60000 |}.

(** The pairs of [RATE_PAIRS = 'USD:USD,USD:JPY'], with the client of
    the tests. *)
Definition selfPairConfig : RatesConfig :=
  {| cfg_provider := exchangerate_api;
     cfg_apiKey := Some "test-key";
     cfg_retryCount := Some 1;
     pairs := Config.parseRatePairs "USD:USD,USD:JPY";
     startHour := 0;
     endHour := 24;
     timezone := "UTC";
     cacheTtlMs := 60000 |}.

(** A window that ends before it starts. *)
Definition overnightConfig : RatesConfig :=
  {| cfg_provider := mock;
     cfg_apiKey := None;
     cfg_retryCount := Some 1;
     pairs := [(USD, JPY); (USD, EUR)];
     startHour := 22;
     endHour := 6;
     timezone := "UTC";
     cacheTtlMs := 60000 |}.

End Scenario.

(** The host in which the [k]-th [fetch] outcome never happened: the later
    outcomes each come one call earlier. *)
Definition withoutOutcome (k : nat) (h : Host) : Host :=
  {| net := fun i => if (i <? k)%nat then net h i else net h (S i);
     clock := clock h;
     newDate := newDate h;
     newDateUnix := newDateUnix h;
     hourIn := hourIn h |}.

(** The failures a client call is written to surface, by [code] and
    status: the [AppError]s thrown in the client modules (a
    [RATE_PROVIDER_ERROR] carries 503, 404 or 502, or the response's own
    non-2xx status below 500 when its body is not JSON), and the
    [TypeError] of reading a property of a body that is [null] or not an
    object. *)
Definition clientFailure (e : JsError) : Prop :=
  match e with
  | TypeError => True
  | AppError s c =>
      (c = "RATE_VALIDATION_ERROR" ∧ s = 400)
      ∨ (c = "RATE_PROVIDER_CONFIG_ERROR" ∧ s = 500)
      ∨ (c = "RATE_PROVIDER_TIMEOUT" ∧ s = 504)
      ∨ (c = "RATE_PROVIDER_REQUEST_FAILED" ∧ s = 503)
      ∨ (c = "RATE_PROVIDER_INVALID_JSON" ∧ s = 502)
      ∨ (c = "RATE_PROVIDER_INVALID_RATE" ∧ s = 502)
      ∨ (c = "RATE_PROVIDER_ERROR"
         ∧ (s = 503 ∨ s = 404 ∨ s = 502 ∨ (¬ (200 <= s <= 299) ∧ s < 500)))
  end.

(** * Properties *)

(** ** The rate store *)

Section StoreFacts.
Import RateStore.

Lemma code_inj (c c' : Currency) : code c = code c' -> c = c'.
Proof. destruct c, c'; simpl; intros H; first [reflexivity | discriminate H]. Qed.

Lemma key_inj (b q b' q' : Currency) : key b q = key b' q' -> b = b' ∧ q = q'.
Proof.
  unfold key.
  destruct b, b'; simpl; intros H;
    first [discriminate H
          | injection H as H; apply code_inj in H; split; [reflexivity | exact H]].
Qed.

Lemma key_eq_iff (b q b' q' : Currency) :
  key b' q' = key b q <-> b' = b ∧ q' = q.
Proof.
  split; [apply key_inj | intros [-> ->]; reflexivity].
Qed.

Lemma lastFor_app (b q : Currency) (l1 l2 : list StoredRate) :
  lastFor b q (l1 ++ l2) =
    match lastFor b q l2 with
    | Some e => Some e
    | None => lastFor b q l1
    end.
Proof.
  induction l1 as [|e l1 IH]; simpl.
  - destruct (lastFor b q l2); reflexivity.
  - rewrite IH. destruct (lastFor b q l2); reflexivity.
Qed.

Lemma lastFor_Some (b q : Currency) (l : list StoredRate) (e : StoredRate) :
  lastFor b q l = Some e -> e ∈ l ∧ base (entry e) = b ∧ quote (entry e) = q.
Proof.
  induction l as [|x l IH]; simpl; [discriminate|].
  destruct (lastFor b q l) as [e'|].
  - intros [= <-]. destruct (IH eq_refl) as (Hin & Hb & Hq).
    split; [right; exact Hin | auto].
  - case_bool_decide as Hx; [|discriminate].
    intros [= <-]. split; [left | exact Hx].
Qed.

Lemma lastFor_None (b q : Currency) (l : list StoredRate) :
  lastFor b q l = None <->
  Forall (fun e => ¬ (base (entry e) = b ∧ quote (entry e) = q)) l.
Proof.
  induction l as [|x l IH]; simpl.
  - split; [constructor | reflexivity].
  - destruct (lastFor b q l) as [e'|].
    + split; [discriminate|]. intros HF. inversion HF as [|? ? _ HF']; subst.
      apply IH in HF'. discriminate HF'.
    + case_bool_decide as Hx.
      * split; [discriminate|]. intros HF. inversion HF; subst. contradiction.
      * split; [|reflexivity]. intros _. constructor; [exact Hx | apply IH; reflexivity].
Qed.

(** What one [saveRates] call leaves under the key of a pair. *)
Lemma saveRates_lookup (rs : list ExchangeRate) (st : bool) (s : Store) (b q : Currency) :
  saveRates rs st s !! key b q =
    match lastFor b q (map (fun r => mkStored r st) rs) with
    | Some e => Some e
    | None => s !! key b q
    end.
Proof.
  revert s. induction rs as [|r rs IH]; intros s; simpl; [reflexivity|].
  rewrite IH. destruct (lastFor b q _) as [e|]; [reflexivity|].
  case_bool_decide as Hr; simpl in Hr.
  - destruct Hr as [-> ->]. apply lookup_insert_eq.
  - apply lookup_insert_ne. intros Hk. apply Hr, key_inj, Hk.
Qed.

(** A key that is not the key of a pair is never written. *)
Lemma saveRates_lookup_other (rs : list ExchangeRate) (st : bool) (s : Store) (k : string) :
  Forall (fun r => key (base r) (quote r) ≠ k) rs ->
  saveRates rs st s !! k = s !! k.
Proof.
  revert s. induction rs as [|r rs IH]; intros s HF; simpl; [reflexivity|].
  inversion HF as [|? ? Hr HF']; subst.
  rewrite IH by exact HF'. apply lookup_insert_ne, Hr.
Qed.

Lemma replay_from_lookup (hist : list (list ExchangeRate * bool)) (s : Store) (b q : Currency) :
  fold_left (fun s '(rs, st) => saveRates rs st s) hist s !! key b q =
    match lastFor b q (savedLog hist) with
    | Some e => Some e
    | None => s !! key b q
    end.
Proof.
  revert s. induction hist as [|[rs st] hist IH]; intros s; [reflexivity|].
  cbn [fold_left]. rewrite IH. unfold savedLog. cbn [map concat].
  rewrite lastFor_app. fold (savedLog hist).
  destruct (lastFor b q (savedLog hist)); [reflexivity|].
  apply saveRates_lookup.
Qed.

Lemma replay_lookup (hist : list (list ExchangeRate * bool)) (b q : Currency) :
  replay hist !! key b q = lastFor b q (savedLog hist).
Proof.
  unfold replay. rewrite replay_from_lookup.
  destruct (lastFor b q (savedLog hist)); [reflexivity | apply lookup_empty].
Qed.

(** C1. [getRate] answers [null] exactly when no rate was ever saved for
    the pair; otherwise it answers with the rate saved last for the pair,
    its [stale] field being the flag it was saved with OR-ed with the age
    test [now - timestamp > ttl] made on the clock at the time of the
    read.  In particular a rate saved with [stale = true] is reported
    stale whatever its timestamp and whatever the clock and the TTL. *)
Theorem getRate_reports_last_saved
    (hist : list (list ExchangeRate * bool)) (b q : Currency) (ttl : Z)
    (h : Host) (t : Ticks) :
  getRate b q ttl (replay hist) h t =
    match lastFor b q (savedLog hist) with
    | None => (Ok None, t)
    | Some e =>
        (Ok (Some (mkStored (entry e)
                     (stale e || isExpired (clock h (reads t)) (timestamp (entry e)) ttl))),
         mkTicks (calls t) (S (reads t)))
    end
  ∧ (lastFor b q (savedLog hist) = None <->
     Forall (fun e => ¬ (base (entry e) = b ∧ quote (entry e) = q)) (savedLog hist))
  ∧ (forall n ms, isExpired n (ValidDate ms) ttl = (n - ms >? ttl))
  ∧ (forall (before after : list ExchangeRate) (r : ExchangeRate),
       exists e,
         fst (getRate (base r) (quote r) ttl
                (saveRates (before ++ r :: after) true (replay hist)) h t)
           = Ok (Some e)
         ∧ stale e = true
         ∧ base (entry e) = base r ∧ quote (entry e) = quote r).
Proof.
  split; [|split; [|split]].
  - unfold getRate. rewrite replay_lookup.
    destruct (lastFor b q (savedLog hist)); reflexivity.
  - apply lastFor_None.
  - reflexivity.
  - intros before after r. unfold getRate. rewrite saveRates_lookup.
    destruct (lastFor (base r) (quote r) _) as [e|] eqn:He.
    + apply lastFor_Some in He as (Hin & Hb & Hq).
      apply list_elem_of_fmap in Hin as (r' & -> & _).
      eexists. cbn. split; [reflexivity|]. cbn. auto.
    + apply lastFor_None in He. rewrite map_app, Forall_app in He.
      destruct He as [_ He]. inversion He as [|? ? Hr _]; subst.
      exfalso. apply Hr. cbn. auto.
Qed.

End StoreFacts.

(** ** The provider clients *)

Section ClientFacts.

Lemma ok_false_of_5xx (r : Response) : 500 <= status r -> ok r = false.
Proof. unfold ok. intros H. apply andb_false_iff. right. lia. Qed.

(** One turn of the loop when the request is aborted by the timeout. *)
Lemma retryLoop_aborted {A} cfg (parse : Response -> M A) n a h t :
  net h (calls t) = Aborted ->
  retryLoop cfg parse (S n) a h t =
    if a =? retryCount cfg
    then (Err (AppError 504 "RATE_PROVIDER_TIMEOUT"), called t)
    else retryLoop cfg parse n (a + 1) h (called t).
Proof.
  intros Hnet. cbn [retryLoop].
  unfold bind, tryCatch, fetchWithTimeout, fetch, bind, throw, ret.
  rewrite Hnet. destruct (a =? retryCount cfg); reflexivity.
Qed.

(** One turn of the loop when the request is answered. *)
Lemma retryLoop_responded {A} cfg (parse : Response -> M A) n a h t r :
  net h (calls t) = Responded r ->
  retryLoop cfg parse (S n) a h t =
    if ok r || (status r <? 500) || (a =? retryCount cfg)
    then match parse r h (called t) with
         | (Ok v, t') => (Ok v, t')
         | (Err e, t') =>
             if a =? retryCount cfg then (Err e, t')
             else retryLoop cfg parse n (a + 1) h t'
         end
    else retryLoop cfg parse n (a + 1) h (called t).
Proof.
  intros Hnet. cbn [retryLoop].
  unfold bind, tryCatch, fetchWithTimeout, fetch, bind, throw, ret.
  rewrite Hnet.
  destruct (ok r || (status r <? 500) || (a =? retryCount cfg)); [|reflexivity].
  destruct (parse r h _) as [[v|e] t']; [reflexivity|].
  destruct (a =? retryCount cfg); reflexivity.
Qed.

(** Every turn makes exactly one [fetch]; a call whose every attempt is
    aborted by the timeout makes all of them and ends with the last
    timeout. *)
Lemma retryLoop_all_aborted {A} cfg (parse : Response -> M A) n :
  forall a h t,
    a + Z.of_nat n = retryCount cfg ->
    (forall i, (i <= n)%nat -> net h (calls t + i)%nat = Aborted) ->
    retryLoop cfg parse (S n) a h t =
      (Err (AppError 504 "RATE_PROVIDER_TIMEOUT"),
       mkTicks (calls t + S n) (reads t)).
Proof.
  induction n as [|n IH]; intros a h t Ha Hnet.
  - rewrite retryLoop_aborted.
    + destruct (Z.eqb_spec a (retryCount cfg)); [|lia].
      unfold called. do 2 f_equal. lia.
    + specialize (Hnet 0%nat). rewrite Nat.add_0_r in Hnet. apply Hnet. lia.
  - rewrite retryLoop_aborted.
    + destruct (Z.eqb_spec a (retryCount cfg)); [lia|].
      rewrite IH.
      * unfold called. cbn [calls reads]. do 2 f_equal. lia.
      * lia.
      * intros i Hi. unfold called. cbn [calls]. replace (S (calls t) + i)%nat with (calls t + S i)%nat by lia.
        apply Hnet. lia.
    + specialize (Hnet 0%nat). rewrite Nat.add_0_r in Hnet. apply Hnet. lia.
Qed.

(** What the loop returns came out of [parse]. *)
Lemma retryLoop_Ok_inv {A} cfg (parse : Response -> M A) (P : A -> Prop) :
  (forall r h t v t', parse r h t = (Ok v, t') -> P v) ->
  forall n a h t v t', retryLoop cfg parse n a h t = (Ok v, t') -> P v.
Proof.
  intros Hparse. induction n as [|n IH]; intros a h t v t'.
  - discriminate.
  - destruct (net h (calls t)) as [r| |] eqn:Hnet.
    + rewrite (retryLoop_responded _ _ _ _ _ _ r Hnet).
      destruct (ok r || (status r <? 500) || (a =? retryCount cfg)); [|apply IH].
      destruct (parse r h _) as [[v0|e] t0] eqn:Hp.
      * intros [= <- <-]. eapply Hparse, Hp.
      * destruct (a =? retryCount cfg); [discriminate | apply IH].
    + rewrite (retryLoop_aborted _ _ _ _ _ _ Hnet).
      destruct (a =? retryCount cfg); [discriminate | apply IH].
    + cbn [retryLoop].
      unfold bind, tryCatch, fetchWithTimeout, fetch, bind, throw, ret.
      rewrite Hnet. destruct (a =? retryCount cfg); [discriminate | apply IH].
Qed.

(** A server error on the first attempt, answered well on the second:
    the loop returns what the second response parses to. *)
Lemma retryLoop_5xx_then_ok {A} cfg (parse : Response -> M A) h t r1 r2 v t' :
  1 <= retryCount cfg ->
  net h (calls t) = Responded r1 -> 500 <= status r1 ->
  net h (S (calls t)) = Responded r2 -> ok r2 = true ->
  parse r2 h (called (called t)) = (Ok v, t') ->
  retryLoop cfg parse (Z.to_nat (retryCount cfg + 1)) 0 h t = (Ok v, t').
Proof.
  intros Hrc Hn1 Hs1 Hn2 Hok2 Hp.
  destruct (Z.to_nat (retryCount cfg + 1)) as [|[|n]] eqn:Hn; [lia | lia |].
  rewrite (retryLoop_responded _ _ _ _ _ _ r1 Hn1).
  rewrite (ok_false_of_5xx _ Hs1).
  destruct (Z.ltb_spec (status r1) 500); [lia|].
  destruct (Z.eqb_spec 0 (retryCount cfg)); [lia|]. cbn [orb].
  rewrite (retryLoop_responded _ _ _ _ _ (called t) r2 Hn2).
  rewrite Hok2. cbn [orb]. rewrite Hp. reflexivity.
Qed.

(** A good answer on the first attempt is returned at once. *)
Lemma retryLoop_ok_first {A} cfg (parse : Response -> M A) h t r v t' :
  0 <= retryCount cfg ->
  net h (calls t) = Responded r -> ok r = true ->
  parse r h (called t) = (Ok v, t') ->
  retryLoop cfg parse (Z.to_nat (retryCount cfg + 1)) 0 h t = (Ok v, t').
Proof.
  intros Hrc Hn Hok Hp.
  destruct (Z.to_nat (retryCount cfg + 1)) as [|n] eqn:Hn'; [lia|].
  rewrite (retryLoop_responded _ _ _ _ _ _ r Hn), Hok. cbn [orb].
  rewrite Hp. reflexivity.
Qed.

Lemma ensureApiKey_present cfg k h t :
  cfg_apiKey cfg = Some k -> k ≠ "" -> ensureApiKey cfg h t = (Ok k, t).
Proof.
  intros Hk Hne. unfold ensureApiKey. rewrite Hk.
  case_bool_decide; [contradiction | reflexivity].
Qed.

(** Both [parseResponse] functions read the clock and the date
    constructors, never the network, and leave the count of calls
    alone. *)
Lemma ExchangeRateApi_parseResponse_frame r b q h h' t c' :
  clock h' = clock h -> newDateUnix h' = newDateUnix h ->
  ExchangeRateApi.parseResponse r b q h' (mkTicks c' (reads t)) =
    (fst (ExchangeRateApi.parseResponse r b q h t),
     mkTicks c' (reads (snd (ExchangeRateApi.parseResponse r b q h t)))).
Proof.
  intros Hc Hu.
  unfold ExchangeRateApi.parseResponse, readBody, bind, liftR, ret, throw,
    today, dateOfUnix, now, bind, ret.
  destruct t as [c rd]. cbn [reads calls].
  repeat (case_match; simplify_eq/=; rewrite ?Hc, ?Hu; try reflexivity).
Qed.

Lemma collectRates_pure body ts b qs h t h' t' :
  Freecurrency.collectRates body ts b qs h' t' =
    (fst (Freecurrency.collectRates body ts b qs h t), t').
Proof.
  revert h t h' t'. induction qs as [|q qs IH]; intros h t h' t'; [reflexivity|].
  cbn [Freecurrency.collectRates]. unfold bind, liftR, throw, ret.
  destruct (prop "data" body) as [[d|]|]; try reflexivity.
  destruct (prop (code q) d) as [[[]|]|]; try reflexivity.
  rewrite (IH h t h' t'). rewrite (IH h t h t) at 2.
  destruct (fst (Freecurrency.collectRates body ts b qs h t)); reflexivity.
Qed.

(** One rate per quote, in the order of the quotes, each for the pair
    asked for. *)
Lemma collectRates_pairs body ts b qs h t rs t' :
  Freecurrency.collectRates body ts b qs h t = (Ok rs, t') ->
  Forall2 (fun q r => base r = b ∧ quote r = q) qs rs.
Proof.
  revert rs t'. induction qs as [|q qs IH]; intros rs t'.
  - intros [= <- <-]. constructor.
  - cbn [Freecurrency.collectRates]. unfold bind, liftR, throw, ret.
    destruct (prop "data" body) as [[d|]|]; try discriminate.
    destruct (prop (code q) d) as [[[]|]|]; try discriminate.
    destruct (Freecurrency.collectRates body ts b qs h t) as [[rs0|e] t0];
      [|discriminate].
    intros [= <- <-]. constructor; [split; reflexivity | eapply IH; reflexivity].
Qed.

Lemma parseTimestamp_frame meta h h' t c' :
  clock h' = clock h -> newDate h' = newDate h ->
  Freecurrency.parseTimestamp meta h' (mkTicks c' (reads t)) =
    (fst (Freecurrency.parseTimestamp meta h t),
     mkTicks c' (reads (snd (Freecurrency.parseTimestamp meta h t)))).
Proof.
  intros Hc Hd.
  unfold Freecurrency.parseTimestamp, bind, liftR, ret, throw, today, dateOf,
    now, bind, ret.
  destruct t as [c rd]. cbn [reads calls].
  repeat (case_match; simplify_eq/=; rewrite ?Hc, ?Hd in *; simplify_eq/=;
          try reflexivity).
Qed.

Lemma Freecurrency_parseResponse_frame r b qs h h' t c' :
  clock h' = clock h -> newDate h' = newDate h ->
  Freecurrency.parseResponse r b qs h' (mkTicks c' (reads t)) =
    (fst (Freecurrency.parseResponse r b qs h t),
     mkTicks c' (reads (snd (Freecurrency.parseResponse r b qs h t)))).
Proof.
  intros Hc Hd.
  unfold Freecurrency.parseResponse, readBody, bind, liftR, ret, throw.
  destruct (body r) as [bd|]; [|destruct (negb (ok r)); reflexivity].
  destruct (ok r).
  - destruct (hasProp "data" bd) as [[]|]; try reflexivity.
    + destruct (prop "meta" bd) as [meta|]; [|reflexivity].
      rewrite (parseTimestamp_frame meta h h' t c' Hc Hd).
      destruct (Freecurrency.parseTimestamp meta h t) as [[ts|e] t1];
        [|reflexivity].
      cbn [fst snd].
      rewrite (collectRates_pure bd ts b qs h t1 h' _).
      rewrite (collectRates_pure bd ts b qs h t1 h t1) at 2 3.
      destruct (fst (Freecurrency.collectRates bd ts b qs h t1)); reflexivity.
    + destruct (hasProp "message" bd); reflexivity.
  - destruct (hasProp "message" bd); reflexivity.
Qed.

Lemma Freecurrency_parseResponse_pairs r b qs h t rs t' :
  Freecurrency.parseResponse r b qs h t = (Ok rs, t') ->
  Forall2 (fun q x => base x = b ∧ quote x = q) qs rs.
Proof.
  unfold Freecurrency.parseResponse, bind, liftR, throw, ret.
  destruct (readBody r h t) as [[bd|] t0]; [|discriminate].
  destruct (if ok r then _ else _) as [[[]|] t1]; try discriminate.
  - destruct (prop "meta" bd); [|discriminate].
    destruct (Freecurrency.parseTimestamp _ h t1) as [[ts|] t2]; [|discriminate].
    apply collectRates_pairs.
  - destruct (hasProp "message" bd); discriminate.
Qed.

Lemma ExchangeRateApi_parseResponse_pair r b q h t x t' :
  ExchangeRateApi.parseResponse r b q h t = (Ok x, t') ->
  base x = b ∧ quote x = q.
Proof.
  unfold ExchangeRateApi.parseResponse, readBody, bind, liftR, ret, throw,
    today, dateOfUnix, now, bind, ret.
  intros H. repeat (case_match; simplify_eq/=); auto.
Qed.

Lemma ExchangeRateApi_parse_calls r b q h t :
  calls (snd (ExchangeRateApi.parseResponse r b q h t)) = calls t.
Proof.
  destruct t as [c rd].
  pose proof (ExchangeRateApi_parseResponse_frame r b q h h (mkTicks c rd) c
                eq_refl eq_refl) as H.
  cbn [reads] in H. rewrite H at 1. reflexivity.
Qed.

Lemma Freecurrency_parse_calls r b qs h t :
  calls (snd (Freecurrency.parseResponse r b qs h t)) = calls t.
Proof.
  destruct t as [c rd].
  pose proof (Freecurrency_parseResponse_frame r b qs h h (mkTicks c rd) c
                eq_refl eq_refl) as H.
  cbn [reads] in H. rewrite H at 1. reflexivity.
Qed.

Lemma existsb_same_false (b : Currency) (quotes : list Currency) :
  Forall (fun q => q ≠ b) quotes ->
  existsb (fun q => bool_decide (q = b)) quotes = false.
Proof.
  induction 1 as [|q qs Hq _ IH]; [reflexivity|].
  cbn. rewrite IH. case_bool_decide; [contradiction | reflexivity].
Qed.

Lemma existsb_same_true (b : Currency) (quotes : list Currency) :
  b ∈ quotes -> existsb (fun q => bool_decide (q = b)) quotes = true.
Proof.
  intros Hin. apply existsb_exists. exists b. split.
  - apply list_elem_of_In, Hin.
  - apply bool_decide_eq_true. reflexivity.
Qed.

(** C5. In both clients, when the first attempt is answered with a 5xx
    status and the retry (the budget being at least one, as by default)
    with a 2xx response that parses, the call returns the parsed result
    of the second response after exactly two requests, and it is the
    result the call gives when the failed attempt never happened. *)
Theorem retry_after_server_error_is_invisible
    (cfg : RatesConfig) (k : string) (b q : Currency) (quotes : list Currency)
    (h : Host) (t : Ticks) (r1 r2 : Response) :
  cfg_apiKey cfg = Some k -> k ≠ "" ->
  1 <= retryCount cfg ->
  net h (calls t) = Responded r1 -> 500 <= status r1 ->
  net h (S (calls t)) = Responded r2 -> ok r2 = true ->
  (forall x t',
      b ≠ q ->
      ExchangeRateApi.parseResponse r2 b q h (called (called t)) = (Ok x, t') ->
      ExchangeRateApi.requestLatestRate cfg b q h t = (Ok x, t')
      ∧ calls t' = (calls t + 2)%nat
      ∧ ExchangeRateApi.requestLatestRate cfg b q (withoutOutcome (calls t) h) t
        = (Ok x, mkTicks (S (calls t)) (reads t')))
  ∧ (forall xs t',
      Forall (fun q => q ≠ b) quotes ->
      Freecurrency.parseResponse r2 b quotes h (called (called t)) = (Ok xs, t') ->
      Freecurrency.requestLatestRates cfg b quotes h t = (Ok xs, t')
      ∧ calls t' = (calls t + 2)%nat
      ∧ Freecurrency.requestLatestRates cfg b quotes (withoutOutcome (calls t) h) t
        = (Ok xs, mkTicks (S (calls t)) (reads t'))).
Proof.
  intros Hk Hne Hrc Hn1 Hs1 Hn2 Hok2.
  assert (Hn0 : net (withoutOutcome (calls t) h) (calls t) = Responded r2).
  { unfold withoutOutcome. cbn [net]. rewrite Nat.ltb_irrefl. exact Hn2. }
  split.
  - intros x t' Hbq Hp. split; [|split].
    + unfold ExchangeRateApi.requestLatestRate.
      case_bool_decide; [contradiction|].
      unfold bind at 1. rewrite (ensureApiKey_present _ _ _ _ Hk Hne).
      eapply retryLoop_5xx_then_ok; eauto.
    + pose proof (ExchangeRateApi_parse_calls r2 b q h (called (called t))) as Hc.
      rewrite Hp in Hc. cbn in Hc. lia.
    + unfold ExchangeRateApi.requestLatestRate.
      case_bool_decide; [contradiction|].
      unfold bind at 1. rewrite (ensureApiKey_present _ _ _ _ Hk Hne).
      eapply retryLoop_ok_first; [lia | exact Hn0 | exact Hok2 |].
      change (called t) with (mkTicks (S (calls t)) (reads (called (called t)))).
      rewrite (ExchangeRateApi_parseResponse_frame r2 b q h
                 (withoutOutcome (calls t) h) (called (called t)) _ eq_refl eq_refl).
      rewrite Hp. reflexivity.
  - intros xs t' Hqs Hp. split; [|split].
    + unfold Freecurrency.requestLatestRates.
      rewrite (existsb_same_false _ _ Hqs).
      unfold bind at 1. rewrite (ensureApiKey_present _ _ _ _ Hk Hne).
      eapply retryLoop_5xx_then_ok; eauto.
    + pose proof (Freecurrency_parse_calls r2 b quotes h (called (called t))) as Hc.
      rewrite Hp in Hc. cbn in Hc. lia.
    + unfold Freecurrency.requestLatestRates.
      rewrite (existsb_same_false _ _ Hqs).
      unfold bind at 1. rewrite (ensureApiKey_present _ _ _ _ Hk Hne).
      eapply retryLoop_ok_first; [lia | exact Hn0 | exact Hok2 |].
      change (called t) with (mkTicks (S (calls t)) (reads (called (called t)))).
      rewrite (Freecurrency_parseResponse_frame r2 b quotes h
                 (withoutOutcome (calls t) h) (called (called t)) _ eq_refl eq_refl).
      rewrite Hp. reflexivity.
Qed.

(** The loop never makes fewer calls than turns it starts: each turn it
    enters makes a [fetch]. *)
Lemma retryLoop_calls_mono {A} cfg (parse : Response -> M A) :
  (forall r h t, (calls t <= calls (snd (parse r h t)))%nat) ->
  forall n a h t, (calls t <= calls (snd (retryLoop cfg parse n a h t)))%nat.
Proof.
  intros Hparse. induction n as [|n IH]; intros a h t; [reflexivity|].
  destruct (net h (calls t)) as [r| |] eqn:Hnet.
  - rewrite (retryLoop_responded _ _ _ _ _ _ r Hnet).
    pose proof (Hparse r h (called t)) as Hp.
    destruct (ok r || (status r <? 500) || (a =? retryCount cfg)).
    + destruct (parse r h (called t)) as [[v|e] t0]; cbn in *; [lia|].
      destruct (a =? retryCount cfg); cbn; [lia|].
      specialize (IH (a + 1) h t0). lia.
    + specialize (IH (a + 1) h (called t)). cbn in IH. lia.
  - rewrite (retryLoop_aborted _ _ _ _ _ _ Hnet).
    destruct (a =? retryCount cfg); cbn; [lia|].
    specialize (IH (a + 1) h (called t)). cbn in IH. lia.
  - cbn [retryLoop].
    unfold bind, tryCatch, fetchWithTimeout, fetch, bind, throw, ret.
    rewrite Hnet. destruct (a =? retryCount cfg); cbn; [lia|].
    specialize (IH (a + 1) h (called t)). cbn in IH. lia.
Qed.

(** A turn that is entered makes its request. *)
Lemma retryLoop_calls_one {A} cfg (parse : Response -> M A) :
  (forall r h t, (calls t <= calls (snd (parse r h t)))%nat) ->
  forall n a h t, (S (calls t) <= calls (snd (retryLoop cfg parse (S n) a h t)))%nat.
Proof.
  intros Hparse n a h t.
  destruct (net h (calls t)) as [r| |] eqn:Hnet.
  - rewrite (retryLoop_responded _ _ _ _ _ _ r Hnet).
    pose proof (Hparse r h (called t)) as Hp.
    destruct (ok r || (status r <? 500) || (a =? retryCount cfg)).
    + destruct (parse r h (called t)) as [[v|e] t0]; cbn in *; [lia|].
      destruct (a =? retryCount cfg); cbn; [lia|].
      pose proof (retryLoop_calls_mono cfg parse Hparse n (a + 1) h t0). lia.
    + pose proof (retryLoop_calls_mono cfg parse Hparse n (a + 1) h (called t)) as Hm.
      cbn in Hm. lia.
  - rewrite (retryLoop_aborted _ _ _ _ _ _ Hnet).
    destruct (a =? retryCount cfg); cbn; [lia|].
    pose proof (retryLoop_calls_mono cfg parse Hparse n (a + 1) h (called t)) as Hm.
    cbn in Hm. lia.
  - cbn [retryLoop].
    unfold bind, tryCatch, fetchWithTimeout, fetch, bind, throw, ret.
    rewrite Hnet. destruct (a =? retryCount cfg); cbn; [lia|].
    pose proof (retryLoop_calls_mono cfg parse Hparse n (a + 1) h (called t)) as Hm.
    cbn in Hm. lia.
Qed.

(** An answer below 500 that [parse] rejects is followed, with retries
    left, by another request: the [catch] of the loop takes what [parse]
    throws for a failed request. *)
Lemma retryLoop_rejected_reissued {A} cfg (parse : Response -> M A) h t r :
  (forall r h t, (calls t <= calls (snd (parse r h t)))%nat) ->
  1 <= retryCount cfg ->
  net h (calls t) = Responded r -> status r < 500 ->
  (exists e, fst (parse r h (called t)) = Err e) ->
  (calls t + 2 <=
   calls (snd (retryLoop cfg parse (Z.to_nat (retryCount cfg + 1)) 0 h t)))%nat.
Proof.
  intros Hparse Hrc Hnet Hst [e He].
  destruct (Z.to_nat (retryCount cfg + 1)) as [|[|n]] eqn:Hn; [lia | lia |].
  rewrite (retryLoop_responded _ _ _ _ _ _ r Hnet).
  destruct (Z.ltb_spec (status r) 500); [|lia].
  rewrite orb_true_r. cbn [orb].
  pose proof (Hparse r h (called t)) as Hp.
  destruct (parse r h (called t)) as [[v|e'] t0]; cbn in He; [discriminate|].
  destruct (Z.eqb_spec 0 (retryCount cfg)); [lia|].
  pose proof (retryLoop_calls_one cfg parse Hparse n (0 + 1) h t0).
  cbn in Hp. lia.
Qed.

(** Neither [parseResponse] returns a rate for an answer that is not 2xx. *)
Lemma ExchangeRateApi_parse_not_ok r b q h t :
  ok r = false -> exists e, fst (ExchangeRateApi.parseResponse r b q h t) = Err e.
Proof.
  intros Hok.
  unfold ExchangeRateApi.parseResponse, readBody, bind, liftR, ret, throw.
  rewrite Hok. destruct (body r) as [bd|]; cbn; [|eexists; reflexivity].
  destruct (prop "result" bd); eexists; reflexivity.
Qed.

Lemma Freecurrency_parse_not_ok r b qs h t :
  ok r = false -> exists e, fst (Freecurrency.parseResponse r b qs h t) = Err e.
Proof.
  intros Hok.
  unfold Freecurrency.parseResponse, readBody, bind, liftR, ret, throw.
  rewrite Hok. destruct (body r) as [bd|]; cbn; [|eexists; reflexivity].
  destruct (hasProp "message" bd); eexists; reflexivity.
Qed.

(** A timeout with retries left is followed by another request. *)
Lemma retryLoop_timeout_reissued {A} cfg (parse : Response -> M A) h t :
  (forall r h t, (calls t <= calls (snd (parse r h t)))%nat) ->
  1 <= retryCount cfg ->
  net h (calls t) = Aborted ->
  (calls t + 2 <=
   calls (snd (retryLoop cfg parse (Z.to_nat (retryCount cfg + 1)) 0 h t)))%nat.
Proof.
  intros Hparse Hrc Hnet.
  destruct (Z.to_nat (retryCount cfg + 1)) as [|[|n]] eqn:Hn; [lia | lia |].
  rewrite (retryLoop_aborted _ _ _ _ _ _ Hnet).
  destruct (Z.eqb_spec 0 (retryCount cfg)); [lia|].
  pose proof (retryLoop_calls_one cfg parse Hparse n (0 + 1) h (called t)) as Hone.
  change (calls (called t)) with (S (calls t)) in Hone. lia.
Qed.

End ClientFacts.

(** *** Timeouts *)

(** C2 fails here.  A request that times out is issued again: with the
    default budget of one retry, a timeout followed by a good answer makes the call succeed
    after two requests. *)
Lemma timeout_then_success_is_retried :
  net Scenario.timeoutThenSuccess (calls Scenario.start) = Aborted
  ∧ ExchangeRateApi.requestLatestRate (Scenario.testConfig exchangerate_api) USD EUR
      Scenario.timeoutThenSuccess Scenario.start
    = (Ok (mkRate USD EUR (11 # 10) (ValidDate 1700000000000) exchangerate_api),
       mkTicks 2 1).
Proof. split; reflexivity. Qed.

(** C2, as the code has it.  A request that times out is retried like any
    other failed request.  The call fails with the timeout error (504)
    when the attempts all time out, after [retryCount + 1] requests; with
    no retry budget that is the one request.  When the first request times
    out and a retry is left, a second request is made. *)
Theorem timeout_fails_once_retries_are_spent
    (cfg : RatesConfig) (k : string) (b q : Currency) (quotes : list Currency)
    (h : Host) (t : Ticks) :
  cfg_apiKey cfg = Some k -> k ≠ "" ->
  0 <= retryCount cfg ->
  b ≠ q -> Forall (fun q => q ≠ b) quotes ->
  net h (calls t) = Aborted ->
  ((forall i, (i <= Z.to_nat (retryCount cfg))%nat -> net h (calls t + i)%nat = Aborted) ->
   ExchangeRateApi.requestLatestRate cfg b q h t
     = (Err (AppError 504 "RATE_PROVIDER_TIMEOUT"),
        mkTicks (calls t + S (Z.to_nat (retryCount cfg))) (reads t))
   ∧ Freecurrency.requestLatestRates cfg b quotes h t
     = (Err (AppError 504 "RATE_PROVIDER_TIMEOUT"),
        mkTicks (calls t + S (Z.to_nat (retryCount cfg))) (reads t)))
  ∧ (retryCount cfg = 0 ->
     ExchangeRateApi.requestLatestRate cfg b q h t
       = (Err (AppError 504 "RATE_PROVIDER_TIMEOUT"), called t)
     ∧ Freecurrency.requestLatestRates cfg b quotes h t
       = (Err (AppError 504 "RATE_PROVIDER_TIMEOUT"), called t))
  ∧ (1 <= retryCount cfg ->
     (calls t + 2 <= calls (snd (ExchangeRateApi.requestLatestRate cfg b q h t)))%nat
     ∧ (calls t + 2 <= calls (snd (Freecurrency.requestLatestRates cfg b quotes h t)))%nat).
Proof.
  intros Hk Hne Hrc Hbq Hqs Hnet.
  assert (Hex : ExchangeRateApi.requestLatestRate cfg b q h t =
                retryLoop cfg (fun response => ExchangeRateApi.parseResponse response b q)
                  (Z.to_nat (retryCount cfg + 1)) 0 h t).
  { unfold ExchangeRateApi.requestLatestRate. case_bool_decide; [contradiction|].
    unfold bind at 1. rewrite (ensureApiKey_present _ _ _ _ Hk Hne). reflexivity. }
  assert (Hfc : Freecurrency.requestLatestRates cfg b quotes h t =
                retryLoop cfg (fun response => Freecurrency.parseResponse response b quotes)
                  (Z.to_nat (retryCount cfg + 1)) 0 h t).
  { unfold Freecurrency.requestLatestRates. rewrite (existsb_same_false _ _ Hqs).
    unfold bind at 1. rewrite (ensureApiKey_present _ _ _ _ Hk Hne). reflexivity. }
  rewrite Hex, Hfc.
  replace (Z.to_nat (retryCount cfg + 1)) with (S (Z.to_nat (retryCount cfg))) by lia.
  split; [|split].
  - intros Hall. split; apply retryLoop_all_aborted; first [lia | exact Hall].
  - intros H0. rewrite H0. cbn [Z.to_nat].
    split; rewrite (retryLoop_aborted _ _ _ _ _ _ Hnet), H0; reflexivity.
  - intros H1.
    replace (S (Z.to_nat (retryCount cfg))) with (Z.to_nat (retryCount cfg + 1)) by lia.
    split; apply retryLoop_timeout_reissued; try assumption; intros r h0 t0.
    + rewrite ExchangeRateApi_parse_calls. reflexivity.
    + rewrite Freecurrency_parse_calls. reflexivity.
Qed.

Lemma timeout_fails_once_retries_are_spent_witness :
  ExchangeRateApi.requestLatestRate (Scenario.testConfig exchangerate_api) USD EUR
    Scenario.alwaysTimeout Scenario.start
    = (Err (AppError 504 "RATE_PROVIDER_TIMEOUT"), mkTicks 2 0)
  ∧ Freecurrency.requestLatestRates (Scenario.testConfig exchangerate_api) USD [JPY; EUR]
      Scenario.alwaysTimeout Scenario.start
    = (Err (AppError 504 "RATE_PROVIDER_TIMEOUT"), mkTicks 2 0).
Proof.
  refine (proj1 (timeout_fails_once_retries_are_spent
                   (Scenario.testConfig exchangerate_api) "test-key" USD EUR [JPY; EUR]
                   Scenario.alwaysTimeout Scenario.start
                   eq_refl _ _ _ _ eq_refl) _).
  - discriminate.
  - vm_compute. discriminate.
  - discriminate.
  - repeat constructor; discriminate.
  - intros [|[|i]] Hi; [reflexivity | reflexivity | vm_compute in Hi; lia].
Defined.

(** *** Retry after a server error *)

Lemma retry_after_server_error_is_invisible_witness :
  ExchangeRateApi.requestLatestRate (Scenario.testConfig exchangerate_api) USD EUR
    Scenario.serverErrorThenSuccess Scenario.start
    = (Ok (mkRate USD EUR (11 # 10) (ValidDate 1700000000000) exchangerate_api),
       mkTicks 2 1)
  ∧ Freecurrency.requestLatestRates (Scenario.testConfig freecurrencyapi) USD [JPY; EUR]
      Scenario.serverErrorThenData Scenario.start
    = (Ok [mkRate USD JPY (301 # 2) (ValidDate 1700000000000) freecurrencyapi;
           mkRate USD EUR (92 # 100) (ValidDate 1700000000000) freecurrencyapi],
       mkTicks 2 1).
Proof.
  split.
  - refine (proj1 (proj1 (retry_after_server_error_is_invisible
                     (Scenario.testConfig exchangerate_api) "test-key" USD EUR []
                     Scenario.serverErrorThenSuccess Scenario.start
                     Scenario.serverError (Scenario.success (11 # 10))
                     eq_refl _ _ eq_refl _ eq_refl eq_refl) _ _ _ eq_refl)).
    + discriminate.
    + vm_compute. discriminate.
    + vm_compute. discriminate.
    + discriminate.
  - refine (proj1 (proj2 (retry_after_server_error_is_invisible
                     (Scenario.testConfig freecurrencyapi) "test-key" USD EUR [JPY; EUR]
                     Scenario.serverErrorThenData Scenario.start
                     Scenario.serverError (Scenario.data (301 # 2) (92 # 100))
                     eq_refl _ _ eq_refl _ eq_refl eq_refl) _ _ _ eq_refl)).
    + discriminate.
    + vm_compute. discriminate.
    + vm_compute. discriminate.
    + repeat constructor; discriminate.
Defined.

(** *** Responses below 500 *)

(** C6, at the input where the code departs from it.  With the default
    budget of one retry a 404 answer is not final: [parseResponse] throws
    inside the [try] of the loop, the [catch] sees an attempt that is not
    the last and lets the loop go on, a second request is made and its
    answer decides the call.  Here the call succeeds after two requests. *)
Theorem not_found_is_retried :
  (net Scenario.notFoundThenSuccess 0 = Responded Scenario.notFound
   ∧ status Scenario.notFound = 404
   ∧ ExchangeRateApi.requestLatestRate (Scenario.testConfig exchangerate_api) USD EUR
       Scenario.notFoundThenSuccess Scenario.start
     = (Ok (mkRate USD EUR (11 # 10) (ValidDate 1700000000000) exchangerate_api),
        mkTicks 2 1))
  ∧ (net Scenario.messageNotFoundThenData 0 = Responded Scenario.messageNotFound
     ∧ status Scenario.messageNotFound = 404
     ∧ Freecurrency.requestLatestRates (Scenario.testConfig freecurrencyapi) USD [JPY; EUR]
         Scenario.messageNotFoundThenData Scenario.start
       = (Ok [mkRate USD JPY (301 # 2) (ValidDate 1700000000000) freecurrencyapi;
              mkRate USD EUR (92 # 100) (ValidDate 1700000000000) freecurrencyapi],
          mkTicks 2 1)).
Proof. repeat split; reflexivity. Qed.

(** The same for every host: with a retry left, a 404 on the first attempt
    is followed by a second request, in both clients. *)
Lemma not_found_with_budget_is_retried (cfg : RatesConfig) (k : string) (b q : Currency)
    (quotes : list Currency) (h : Host) (t : Ticks) (r : Response) :
  cfg_apiKey cfg = Some k -> k ≠ "" ->
  1 <= retryCount cfg ->
  b ≠ q -> Forall (fun q => q ≠ b) quotes ->
  net h (calls t) = Responded r -> status r = 404 ->
  (calls t + 2 <= calls (snd (ExchangeRateApi.requestLatestRate cfg b q h t)))%nat
  ∧ (calls t + 2 <= calls (snd (Freecurrency.requestLatestRates cfg b quotes h t)))%nat.
Proof.
  intros Hk Hne Hrc Hbq Hqs Hnet Hst.
  assert (Hok : ok r = false) by (unfold ok; rewrite Hst; reflexivity).
  split.
  - unfold ExchangeRateApi.requestLatestRate. case_bool_decide; [contradiction|].
    unfold bind at 1. rewrite (ensureApiKey_present _ _ _ _ Hk Hne).
    apply (retryLoop_rejected_reissued cfg _ h t r); try assumption; [|lia|].
    + intros r0 h0 t0. rewrite ExchangeRateApi_parse_calls. reflexivity.
    + apply ExchangeRateApi_parse_not_ok, Hok.
  - unfold Freecurrency.requestLatestRates. rewrite (existsb_same_false _ _ Hqs).
    unfold bind at 1. rewrite (ensureApiKey_present _ _ _ _ Hk Hne).
    apply (retryLoop_rejected_reissued cfg _ h t r); try assumption; [|lia|].
    + intros r0 h0 t0. rewrite Freecurrency_parse_calls. reflexivity.
    + apply Freecurrency_parse_not_ok, Hok.
Qed.

(** On the last attempt the 404 is passed on, as C6 has it: a 404
    answer with a JSON object for a body, or with a body that is not JSON,
    ends the call with [RATE_PROVIDER_ERROR] and status 404. *)
Lemma not_found_on_last_attempt (cfg : RatesConfig) (k : string) (b q : Currency)
    (h : Host) (t : Ticks) (r : Response) :
  cfg_apiKey cfg = Some k -> k ≠ "" ->
  retryCount cfg = 0 -> b ≠ q ->
  net h (calls t) = Responded r -> status r = 404 ->
  (body r = None ∨ exists fields, body r = Some (JObj fields)) ->
  ExchangeRateApi.requestLatestRate cfg b q h t
    = (Err (AppError 404 "RATE_PROVIDER_ERROR"), called t)
  ∧ Freecurrency.requestLatestRates cfg b [q] h t
    = (Err (AppError 404 "RATE_PROVIDER_ERROR"), called t).
Proof.
  intros Hk Hne Hrc Hbq Hnet Hst Hbody.
  assert (Hok : ok r = false) by (unfold ok; rewrite Hst; reflexivity).
  split.
  - unfold ExchangeRateApi.requestLatestRate.
    case_bool_decide; [contradiction|].
    unfold bind at 1. rewrite (ensureApiKey_present _ _ _ _ Hk Hne).
    rewrite Hrc. change (Z.to_nat (0 + 1)) with 1%nat.
    rewrite (retryLoop_responded _ _ _ _ _ _ r Hnet), Hrc, Hok, Hst.
    cbn [Z.ltb Z.eqb Z.compare Pos.compare Pos.compare_cont orb].
    unfold ExchangeRateApi.parseResponse, readBody, statusCodeFor,
      bind, liftR, throw, ret.
    rewrite Hok, Hst.
    destruct Hbody as [-> | [fields ->]]; reflexivity.
  - unfold Freecurrency.requestLatestRates. cbn [existsb].
    case_bool_decide; [congruence|]. cbn [orb].
    unfold bind at 1. rewrite (ensureApiKey_present _ _ _ _ Hk Hne).
    rewrite Hrc. change (Z.to_nat (0 + 1)) with 1%nat.
    rewrite (retryLoop_responded _ _ _ _ _ _ r Hnet), Hrc, Hok, Hst.
    cbn [Z.ltb Z.eqb Z.compare Pos.compare Pos.compare_cont orb].
    unfold Freecurrency.parseResponse, readBody, statusCodeFor,
      bind, liftR, throw, ret.
    rewrite Hok, Hst.
    destruct Hbody as [-> | [fields ->]]; reflexivity.
Qed.

(** *** What a parsed rate carries *)

(** C4, at the input where the code departs from it.  [parseResponse]
    only asks that the provider's rate be a number: a 200 answer with a
    rate of zero, or a negative one, is turned into an [ExchangeRate] with
    that rate. *)
Theorem nonpositive_rate_is_accepted :
  (ExchangeRateApi.requestLatestRate (Scenario.testConfig exchangerate_api) USD EUR
     Scenario.zeroRate Scenario.start
   = (Ok (mkRate USD EUR 0 (ValidDate 1700000000000) exchangerate_api), mkTicks 1 1)
   ∧ ¬ (0 < 0)%Q)
  ∧ (Freecurrency.requestLatestRates (Scenario.testConfig freecurrencyapi) USD [JPY; EUR]
       Scenario.negativeRate Scenario.start
     = (Ok [mkRate USD JPY (301 # 2) (ValidDate 1700000000000) freecurrencyapi;
            mkRate USD EUR (-3 # 2) (ValidDate 1700000000000) freecurrencyapi],
        mkTicks 1 1)
     ∧ ¬ (0 < -3 # 2)%Q).
Proof.
  split; (split; [reflexivity | intros H; discriminate H]).
Qed.

(** The other half of C4 holds: whatever either client returns is for the
    pair that was asked for, quote by quote and in order. *)
Lemma returned_rates_are_for_the_request (cfg : RatesConfig) (b q : Currency)
    (quotes : list Currency) (h : Host) (t : Ticks) :
  (forall x t', ExchangeRateApi.requestLatestRate cfg b q h t = (Ok x, t') ->
                base x = b ∧ quote x = q)
  ∧ (forall xs t', Freecurrency.requestLatestRates cfg b quotes h t = (Ok xs, t') ->
                   Forall2 (fun q x => base x = b ∧ quote x = q) quotes xs).
Proof.
  split.
  - intros x t'. unfold ExchangeRateApi.requestLatestRate.
    case_bool_decide; [discriminate|].
    unfold bind at 1. destruct (ensureApiKey cfg h t) as [[k|e] t0]; [|discriminate].
    apply (retryLoop_Ok_inv cfg _ (fun x => base x = b ∧ quote x = q)).
    intros r h0 t1 v t2. apply ExchangeRateApi_parseResponse_pair.
  - intros xs t'. unfold Freecurrency.requestLatestRates.
    destruct (existsb _ quotes); [discriminate|].
    unfold bind at 1. destruct (ensureApiKey cfg h t) as [[k|e] t0]; [|discriminate].
    apply (retryLoop_Ok_inv cfg _
             (fun xs => Forall2 (fun q x => base x = b ∧ quote x = q) quotes xs)).
    intros r h0 t1 v t2. apply Freecurrency_parseResponse_pairs.
Qed.

(** *** The mock provider *)

Section MockFacts.

Lemma mockGetLatestRate_other b q h t :
  q ≠ b ->
  Mock.mockGetLatestRate b q h t =
    (Ok (mkRate b q 1 (ValidDate (clock h (reads t))) mock),
     mkTicks (calls t) (S (reads t))).
Proof.
  intros Hq. unfold Mock.mockGetLatestRate.
  case_bool_decide; [congruence | reflexivity].
Qed.

Lemma mockGetLatestRate_same b h t :
  Mock.mockGetLatestRate b b h t = (Err (AppError 400 "RATE_VALIDATION_ERROR"), t).
Proof.
  unfold Mock.mockGetLatestRate. case_bool_decide; [reflexivity | congruence].
Qed.

Lemma imap_mockRateAt_next b h t quotes :
  imap (Mock.mockRateAt b h t ∘ S) quotes =
  imap (Mock.mockRateAt b h (mkTicks (calls t) (S (reads t)))) quotes.
Proof.
  apply imap_ext. intros i q _. unfold Mock.mockRateAt, compose. cbn [reads].
  do 3 f_equal. lia.
Qed.

(** Without a quote equal to the base, every call of the batch succeeds
    and reads the clock once. *)
Lemma mock_settleAll_ok b quotes h :
  Forall (fun q => q ≠ b) quotes ->
  forall t,
    settleAll (Mock.mockGetLatestRate b) quotes h t =
      (map Ok (imap (Mock.mockRateAt b h t) quotes),
       mkTicks (calls t) (reads t + length quotes)).
Proof.
  induction 1 as [|q quotes Hq _ IH]; intros t.
  - cbn. rewrite Nat.add_0_r. destruct t; reflexivity.
  - cbn [settleAll]. rewrite (mockGetLatestRate_other _ _ _ _ Hq), IH.
    cbn [imap map calls reads length]. rewrite imap_mockRateAt_next.
    replace (Mock.mockRateAt b h t 0 q)
      with (mkRate b q 1 (ValidDate (clock h (reads t))) mock)
      by (unfold Mock.mockRateAt; rewrite Nat.add_0_r; reflexivity).
    f_equal. f_equal. lia.
Qed.

Lemma mock_forEach_ok b quotes h :
  Forall (fun q => q ≠ b) quotes ->
  forall t,
    forEach (Mock.mockGetLatestRate b) quotes h t =
      (Ok (imap (Mock.mockRateAt b h t) quotes),
       mkTicks (calls t) (reads t + length quotes)).
Proof.
  induction 1 as [|q quotes Hq _ IH]; intros t.
  - cbn. rewrite Nat.add_0_r. destruct t; reflexivity.
  - cbn [forEach]. unfold bind at 1.
    rewrite (mockGetLatestRate_other _ _ _ _ Hq).
    unfold bind at 1. rewrite IH.
    cbn [imap calls reads length]. rewrite imap_mockRateAt_next.
    unfold ret.
    replace (Mock.mockRateAt b h t 0 q)
      with (mkRate b q 1 (ValidDate (clock h (reads t))) mock)
      by (unfold Mock.mockRateAt; rewrite Nat.add_0_r; reflexivity).
    f_equal. f_equal. lia.
Qed.

Lemma firstRejection_map_Ok {B} (bs : list B) : firstRejection (map Ok bs) = Ok bs.
Proof. induction bs as [|x bs IH]; cbn; [|rewrite IH]; reflexivity. Qed.

(** The mock never touches the network, and the only way it throws is
    the validation error. *)
Lemma mock_settleAll_inv b quotes h :
  forall t,
    calls (snd (settleAll (Mock.mockGetLatestRate b) quotes h t)) = calls t
    ∧ Forall (fun r => forall e, r = Err e -> e = AppError 400 "RATE_VALIDATION_ERROR")
        (fst (settleAll (Mock.mockGetLatestRate b) quotes h t))
    ∧ (b ∈ quotes ->
       Exists (fun r => exists e, r = Err e)
         (fst (settleAll (Mock.mockGetLatestRate b) quotes h t))).
Proof.
  induction quotes as [|q quotes IH]; intros t.
  - cbn. split; [reflexivity|]. split; [constructor|]. intros Hin. inversion Hin.
  - cbn [settleAll]. destruct (decide (q = b)) as [->|Hq].
    + rewrite mockGetLatestRate_same.
      destruct (IH t) as (Hc & HF & _).
      destruct (settleAll _ quotes h t) as [rs t2]. cbn in *.
      split; [exact Hc|]. split.
      * constructor; [intros e [= <-]; reflexivity | exact HF].
      * intros _. left. eexists. reflexivity.
    + rewrite (mockGetLatestRate_other _ _ _ _ Hq).
      destruct (IH (mkTicks (calls t) (S (reads t)))) as (Hc & HF & HE).
      destruct (settleAll _ quotes h _) as [rs t2]. cbn in *.
      split; [exact Hc|]. split.
      * constructor; [intros e [=] | exact HF].
      * intros Hin. right. apply HE. inversion Hin; subst; [congruence | assumption].
Qed.

Lemma firstRejection_Err {B} (rs : list (Result B)) (e0 : JsError) :
  Forall (fun r => forall e, r = Err e -> e = e0) rs ->
  Exists (fun r => exists e, r = Err e) rs ->
  firstRejection rs = Err e0.
Proof.
  induction rs as [|[x|e] rs IH]; intros HF HE.
  - inversion HE.
  - inversion HF; subst. inversion HE as [? ? [e He]|]; subst; [discriminate|].
    cbn. rewrite IH; [reflexivity | assumption | assumption].
  - inversion HF as [|? ? He _]; subst. cbn. rewrite (He e eq_refl). reflexivity.
Qed.

Lemma mock_batch_same b quotes h t :
  b ∈ quotes ->
  fst (Mock.mockGetLatestRates b quotes h t) = Err (AppError 400 "RATE_VALIDATION_ERROR")
  ∧ calls (snd (Mock.mockGetLatestRates b quotes h t)) = calls t.
Proof.
  intros Hin. unfold Mock.mockGetLatestRates, promiseAllMap.
  destruct (mock_settleAll_inv b quotes h t) as (Hc & HF & HE).
  destruct (settleAll _ quotes h t) as [rs t']. cbn in *.
  split; [|exact Hc]. apply firstRejection_Err; [exact HF | exact (HE Hin)].
Qed.

End MockFacts.

(** C10. The mock's batched operation is its single operation applied to
    the quotes one after the other.  When a quote equals the base the
    batch fails with the validation error of the single operation.
    Otherwise it returns one rate per quote, in the order of the quotes,
    the [i]-th being what the single operation returns for the [i]-th
    quote when called at that point (rate 1, provider mock, the clock
    reading of that call). *)
Theorem mock_batch_is_elementwise (b : Currency) (quotes : list Currency)
    (h : Host) (t : Ticks) :
  if existsb (fun q => bool_decide (q = b)) quotes
  then fst (Mock.mockGetLatestRates b quotes h t)
         = Err (AppError 400 "RATE_VALIDATION_ERROR")
       ∧ fst (Mock.mockGetLatestRate b b h t)
         = Err (AppError 400 "RATE_VALIDATION_ERROR")
  else Mock.mockGetLatestRates b quotes h t
         = (Ok (imap (Mock.mockRateAt b h t) quotes),
            mkTicks (calls t) (reads t + length quotes))
       ∧ Mock.mockGetLatestRates b quotes h t
         = forEach (Mock.mockGetLatestRate b) quotes h t
       ∧ length (imap (Mock.mockRateAt b h t) quotes) = length quotes
       ∧ (forall i q,
            quotes !! i = Some q ->
            imap (Mock.mockRateAt b h t) quotes !! i = Some (Mock.mockRateAt b h t i q)
            ∧ Mock.mockGetLatestRate b q h (mkTicks (calls t) (reads t + i))
              = (Ok (Mock.mockRateAt b h t i q), mkTicks (calls t) (S (reads t + i)))
            ∧ base (Mock.mockRateAt b h t i q) = b
            ∧ quote (Mock.mockRateAt b h t i q) = q
            ∧ rate (Mock.mockRateAt b h t i q) = 1%Q
            ∧ provider (Mock.mockRateAt b h t i q) = mock).
Proof.
  destruct (existsb _ quotes) eqn:Hex.
  - apply existsb_exists in Hex as (q & Hin & Hq).
    apply bool_decide_eq_true in Hq. subst q. apply list_elem_of_In in Hin.
    destruct (mock_batch_same b quotes h t Hin) as [H400 _].
    rewrite H400, mockGetLatestRate_same. split; reflexivity.
  - assert (Hall : Forall (fun q => q ≠ b) quotes).
    { apply Forall_forall. intros q Hin Hq.
      assert (existsb (fun q => bool_decide (q = b)) quotes = true) as Ht.
      { apply existsb_exists. exists q. split; [apply list_elem_of_In, Hin|].
        apply bool_decide_eq_true, Hq. }
      congruence. }
    assert (Hbatch : Mock.mockGetLatestRates b quotes h t
                     = (Ok (imap (Mock.mockRateAt b h t) quotes),
                        mkTicks (calls t) (reads t + length quotes))).
    { unfold Mock.mockGetLatestRates, promiseAllMap.
      rewrite (mock_settleAll_ok _ _ _ Hall), firstRejection_map_Ok. reflexivity. }
    split; [exact Hbatch|]. split; [|split].
    + rewrite Hbatch, (mock_forEach_ok _ _ _ Hall). reflexivity.
    + apply length_imap.
    + intros i q Hi. split; [|split].
      * rewrite list_lookup_imap, Hi. reflexivity.
      * rewrite mockGetLatestRate_other; [reflexivity|].
        eapply Forall_lookup_1 in Hall; [exact Hall | exact Hi].
      * repeat split.
Qed.

(** *** Equal base and quote *)

(** C7. Whichever provider is configured, asking for a pair whose quote
    is the base fails with the validation error (status 400) and no
    request is made: the single operation leaves the counters as they
    were, and so does the batched one, where the provider has it, as to
    the count of requests. *)
Theorem same_currency_is_rejected_without_request
    (cfg : RatesConfig) (p : RateProvider) (b : Currency) (quotes : list Currency)
    (h : Host) (t : Ticks) :
  buildProvider cfg = Ok p ->
  b ∈ quotes ->
  getLatestRate p b b h t = (Err (AppError 400 "RATE_VALIDATION_ERROR"), t)
  ∧ (forall batch,
       getLatestRates p = Some batch ->
       fst (batch b quotes h t) = Err (AppError 400 "RATE_VALIDATION_ERROR")
       ∧ calls (snd (batch b quotes h t)) = calls t).
Proof.
  intros Hp Hin. unfold buildProvider in Hp.
  destruct (cfg_provider cfg); simplify_eq;
    unfold Mock.createMockRateProvider, ExchangeRateApi.createExchangeRateApiClient,
      Freecurrency.createFreecurrencyApiClient; cbn [getLatestRate getLatestRates].
  - (* mock *)
    split; [apply mockGetLatestRate_same|].
    intros batch [= <-]. apply mock_batch_same, Hin.
  - (* exchangerate-api *)
    split; [|intros batch [=]].
    unfold ExchangeRateApi.requestLatestRate.
    case_bool_decide; [reflexivity | congruence].
  - (* freecurrencyapi *)
    split.
    + unfold bind, Freecurrency.requestLatestRates. cbn [existsb].
      case_bool_decide; [reflexivity | congruence].
    + intros batch [= <-]. unfold Freecurrency.requestLatestRates.
      rewrite (existsb_same_true _ _ Hin). split; reflexivity.
Qed.

Lemma same_currency_is_rejected_without_request_witness :
  getLatestRate (Freecurrency.createFreecurrencyApiClient (Scenario.testConfig freecurrencyapi))
    USD USD Scenario.serverErrorThenData Scenario.start
    = (Err (AppError 400 "RATE_VALIDATION_ERROR"), Scenario.start)
  ∧ getLatestRate Mock.createMockRateProvider EUR EUR Scenario.alwaysTimeout Scenario.start
    = (Err (AppError 400 "RATE_VALIDATION_ERROR"), Scenario.start).
Proof.
  split.
  - refine (proj1 (same_currency_is_rejected_without_request
                     (Scenario.testConfig freecurrencyapi) _ USD [JPY; USD]
                     Scenario.serverErrorThenData Scenario.start eq_refl _)).
    apply list_elem_of_In. vm_compute. auto.
  - refine (proj1 (same_currency_is_rejected_without_request
                     (Scenario.testConfig mock) _ EUR [EUR]
                     Scenario.alwaysTimeout Scenario.start eq_refl _)).
    apply list_elem_of_In. vm_compute. auto.
Defined.

(** ** The fetch cycle *)

Section FetcherFacts.
Import RateStore Fetcher.

Lemma flagged_idemp b q (o : option StoredRate) :
  flagged b q <$> (flagged b q <$> o) = flagged b q <$> o.
Proof. destruct o; reflexivity. Qed.

(** One turn of the [catch] block's loop, on the store. *)
Lemma markStale_cons cfg b q rest h w :
  exists t',
    markStale cfg b (q :: rest) h w =
      markStale cfg b rest h
        (mkWorld t' (match store w !! key b q with
                     | Some old => <[key b q := flagged b q old]> (store w)
                     | None => store w
                     end))
    ∧ calls t' = calls (ticks w).
Proof.
  cbn [markStale]. unfold getRate.
  destruct (store w !! key b q) as [old|].
  - eexists. split; reflexivity.
  - eexists. split; reflexivity.
Qed.

Lemma markStale_calls cfg b quotes h :
  forall w, calls (ticks (markStale cfg b quotes h w)) = calls (ticks w).
Proof.
  induction quotes as [|q rest IH]; intros w; [reflexivity|].
  destruct (markStale_cons cfg b q rest h w) as (t' & -> & Hc).
  rewrite IH. exact Hc.
Qed.

(** The [catch] block re-saves, flagged stale, what is cached for the
    quotes of the base ... *)
Lemma markStale_lookup cfg b quotes h q :
  forall w,
    store (markStale cfg b quotes h w) !! key b q =
      if bool_decide (q ∈ quotes)
      then flagged b q <$> store w !! key b q
      else store w !! key b q.
Proof.
  induction quotes as [|q0 rest IH]; intros w.
  - cbn [markStale]. case_bool_decide as Hin; [inversion Hin | reflexivity].
  - destruct (markStale_cons cfg b q0 rest h w) as (t' & -> & _).
    rewrite IH. cbn [store].
    destruct (decide (q = q0)) as [->|Hq].
    + rewrite (bool_decide_eq_true_2 (q0 ∈ q0 :: rest)) by left.
      assert (Hstep :
        (match store w !! key b q0 with
         | Some old => <[key b q0 := flagged b q0 old]> (store w)
         | None => store w
         end) !! key b q0 = flagged b q0 <$> store w !! key b q0).
      { destruct (store w !! key b q0) as [old|] eqn:Hold.
        - rewrite lookup_insert_eq. reflexivity.
        - rewrite Hold. reflexivity. }
      rewrite Hstep.
      destruct (bool_decide (q0 ∈ rest)); [apply flagged_idemp | reflexivity].
    + assert (Hstep :
        (match store w !! key b q0 with
         | Some old => <[key b q0 := flagged b q0 old]> (store w)
         | None => store w
         end) !! key b q = store w !! key b q).
      { destruct (store w !! key b q0) as [old|]; [|reflexivity].
        apply lookup_insert_ne. intros Hk. apply key_inj in Hk as [_ Hk]. congruence. }
      rewrite Hstep.
      rewrite (bool_decide_ext (q ∈ q0 :: rest) (q ∈ rest)); [reflexivity|].
      rewrite elem_of_cons. tauto.
Qed.

(** ... and writes nothing else. *)
Lemma markStale_lookup_other cfg b quotes h k :
  (forall q, q ∈ quotes -> k ≠ key b q) ->
  forall w, store (markStale cfg b quotes h w) !! k = store w !! k.
Proof.
  induction quotes as [|q0 rest IH]; intros Hk w; [reflexivity|].
  destruct (markStale_cons cfg b q0 rest h w) as (t' & -> & _).
  rewrite IH by (intros q Hq; apply Hk; right; exact Hq). cbn [store].
  destruct (store w !! key b q0); [|reflexivity].
  apply lookup_insert_ne. intros Heq. apply (Hk q0); [left | symmetry; exact Heq].
Qed.

Lemma forEach_app {A B} (f : A -> M B) (xs ys : list A) h t bs t1 :
  forEach f xs h t = (Ok bs, t1) ->
  forEach f (xs ++ ys) h t =
    match forEach f ys h t1 with
    | (Ok cs, t2) => (Ok (bs ++ cs), t2)
    | (Err e, t2) => (Err e, t2)
    end.
Proof.
  revert t bs t1. induction xs as [|x xs IH]; intros t bs t1.
  - intros [= <- <-]. cbn [app]. destruct (forEach f ys h t) as [[cs|e] t2]; reflexivity.
  - cbn [forEach app]. unfold bind, ret.
    destruct (f x h t) as [[y|e] t0]; [|discriminate].
    destruct (forEach f xs h t0) as [[bs0|e] t3] eqn:Hxs; [|discriminate].
    intros [= <- <-]. rewrite (IH _ _ _ Hxs).
    destruct (forEach f ys h t3) as [[cs|e] t2]; reflexivity.
Qed.

(** The fallback loop throws as soon as one quote's fetch throws. *)
Lemma forEach_fails_at {A B} (f : A -> M B) (done : list A) (x : A) (rest : list A)
    h t bs t1 e :
  forEach f done h t = (Ok bs, t1) ->
  fst (f x h t1) = Err e ->
  fst (forEach f (done ++ x :: rest) h t) = Err e.
Proof.
  intros Hdone Hx. rewrite (forEach_app _ _ _ _ _ _ _ Hdone).
  cbn [forEach]. unfold bind, ret.
  destruct (f x h t1) as [[y|e'] t2]; cbn in Hx; [discriminate|].
  injection Hx as ->. reflexivity.
Qed.

(** What [fetchForBase] leaves in the store when the fetch throws. *)
Lemma fetchForBase_failed p cfg b quotes h w e :
  fst (fetchRates p b quotes h (ticks w)) = Err e ->
  (forall q, q ∈ quotes ->
             store (fetchForBase p cfg b quotes h w) !! key b q
             = flagged b q <$> store w !! key b q)
  ∧ (forall k, (forall q, q ∈ quotes -> k ≠ key b q) ->
               store (fetchForBase p cfg b quotes h w) !! k = store w !! k).
Proof.
  intros Hfail. unfold fetchForBase.
  destruct (fetchRates p b quotes h (ticks w)) as [[rs|e'] t']; [discriminate|].
  split.
  - intros q Hq. rewrite markStale_lookup. cbn [store].
    rewrite (bool_decide_eq_true_2 _ Hq). reflexivity.
  - intros k Hk. rewrite markStale_lookup_other by exact Hk. reflexivity.
Qed.

(** An entry that the [catch] block has written, field by field. *)
Lemma flagged_lookup_cases (s s' : Store) (k : string) (b q : Currency) :
  s' !! k = flagged b q <$> s !! k ->
  (forall old,
      s !! k = Some old ->
      s' !! k = Some (mkStored (mkRate b q (rate (entry old)) (timestamp (entry old))
                                  (provider (entry old)))
                        true))
  ∧ (s !! k = None -> s' !! k = None).
Proof.
  intros Hlook. split.
  - intros old Hold. rewrite Hlook, Hold. reflexivity.
  - intros Hnone. rewrite Hlook, Hnone. reflexivity.
Qed.

(** C8. Outside the active window, that is when the hour read in the
    configured time zone is not in [[startHour, endHour)], a cycle
    leaves the store as it was and makes no request; whatever the
    provider, none of its operations is run, the one effect of the
    cycle being the clock reading of the window test. *)
Theorem cycle_outside_window_does_nothing
    (p : RateProvider) (cfg : RatesConfig) (h : Host) (w : World) :
  ¬ (startHour cfg <= hourIn h (timezone cfg) (clock h (reads (ticks w))) < endHour cfg) ->
  runFetch p cfg h w = mkWorld (mkTicks (calls (ticks w)) (S (reads (ticks w)))) (store w)
  ∧ store (runFetch p cfg h w) = store w
  ∧ calls (ticks (runFetch p cfg h w)) = calls (ticks w).
Proof.
  intros Hout.
  assert (Hrun : runFetch p cfg h w
                 = mkWorld (mkTicks (calls (ticks w)) (S (reads (ticks w)))) (store w)).
  { unfold runFetch, withinActiveWindow, getHourInTimezone, bind, now, ret.
    set (hour := hourIn h (timezone cfg) (clock h (reads (ticks w)))) in *.
    destruct (Z.geb_spec hour (startHour cfg)), (Z.ltb_spec hour (endHour cfg));
      cbn [andb]; first [reflexivity | exfalso; apply Hout; lia]. }
  rewrite Hrun. repeat split.
Qed.

(** C9. On the fallback path (a provider without the batched
    operation), when the fetch for a quote of a base throws after the
    fetches for the quotes before it returned their rates, none of those
    rates reaches the store: for every quote of the base, the one that
    was fetched, the one that failed and those never tried, the store
    holds afterwards an entry with the rate, the timestamp and the
    provider of the entry it held before and [stale = true], or still
    none when it held none; and no other key is written. *)
Theorem sequential_fetch_is_all_or_nothing
    (p : RateProvider) (cfg : RatesConfig) (b : Currency)
    (done : list Currency) (failing : Currency) (rest : list Currency)
    (h : Host) (w : World) (fetched : list ExchangeRate) (t1 : Ticks) (e : JsError) :
  getLatestRates p = None ->
  forEach (getLatestRate p b) done h (ticks w) = (Ok fetched, t1) ->
  fst (getLatestRate p b failing h t1) = Err e ->
  (forall q, q ∈ done ++ failing :: rest ->
     (forall old,
         store w !! key b q = Some old ->
         store (fetchForBase p cfg b (done ++ failing :: rest) h w) !! key b q
         = Some (mkStored (mkRate b q (rate (entry old)) (timestamp (entry old))
                             (provider (entry old)))
                   true))
     ∧ (store w !! key b q = None ->
        store (fetchForBase p cfg b (done ++ failing :: rest) h w) !! key b q = None))
  ∧ (forall k, (forall q, q ∈ done ++ failing :: rest -> k ≠ key b q) ->
               store (fetchForBase p cfg b (done ++ failing :: rest) h w) !! k
               = store w !! k).
Proof.
  intros Hnone Hdone Hfail.
  assert (Hthrows : fst (fetchRates p b (done ++ failing :: rest) h (ticks w)) = Err e).
  { unfold fetchRates. rewrite Hnone. eapply forEach_fails_at; eassumption. }
  destruct (fetchForBase_failed p cfg b _ h w e Hthrows) as [Hquotes Hothers].
  split; [|exact Hothers].
  intros q Hq. apply flagged_lookup_cases, Hquotes, Hq.
Qed.

(** *** The three providers answer for the base they are asked *)

Lemma forEach_Ok_Forall {A B} (f : A -> M B) (P : B -> Prop) :
  (forall x h t y t', f x h t = (Ok y, t') -> P y) ->
  forall xs h t ys t', forEach f xs h t = (Ok ys, t') -> Forall P ys.
Proof.
  intros Hf. induction xs as [|x xs IH]; intros h t ys t'.
  - intros [= <- <-]. constructor.
  - cbn [forEach]. unfold bind, ret.
    destruct (f x h t) as [[y|e] t0] eqn:Hx; [|discriminate].
    destruct (forEach f xs h t0) as [[ys0|e] t1] eqn:Hxs; [|discriminate].
    intros [= <- <-]. constructor; [eapply Hf, Hx | eapply IH, Hxs].
Qed.

Lemma mock_respectsBase : respectsBase Mock.createMockRateProvider.
Proof.
  intros b quotes h t rs t'. unfold fetchRates. cbn [getLatestRates Mock.createMockRateProvider].
  destruct (decide (b ∈ quotes)) as [Hin|Hout].
  - destruct (mock_batch_same b quotes h t Hin) as [H400 _].
    intros Heq. rewrite Heq in H400. discriminate H400.
  - assert (Hall : Forall (fun q => q ≠ b) quotes).
    { apply Forall_forall. intros q Hq ->. apply Hout, Hq. }
    unfold Mock.mockGetLatestRates, promiseAllMap.
    rewrite (mock_settleAll_ok _ _ _ Hall), firstRejection_map_Ok.
    intros [= <- <-]. apply Forall_lookup_2. intros i r.
    rewrite list_lookup_imap. destruct (quotes !! i); intros [= <-]. reflexivity.
Qed.

Lemma exchangeRateApi_respectsBase cfg :
  respectsBase (ExchangeRateApi.createExchangeRateApiClient cfg).
Proof.
  intros b quotes h t rs t'. unfold fetchRates.
  cbn [getLatestRates getLatestRate ExchangeRateApi.createExchangeRateApiClient].
  apply forEach_Ok_Forall. intros q h0 t0 y t1 Hy.
  eapply (proj1 (returned_rates_are_for_the_request cfg b q [] h0 t0)), Hy.
Qed.

Lemma freecurrency_respectsBase cfg :
  respectsBase (Freecurrency.createFreecurrencyApiClient cfg).
Proof.
  intros b quotes h t rs t'. unfold fetchRates.
  cbn [getLatestRates Freecurrency.createFreecurrencyApiClient].
  intros Hrs.
  apply (proj2 (returned_rates_are_for_the_request cfg b b quotes h t)) in Hrs.
  clear -Hrs. induction Hrs as [|q r qs rs [Hb _] _ IH]; constructor; assumption.
Qed.

Lemma buildProvider_respectsBase cfg p : buildProvider cfg = Ok p -> respectsBase p.
Proof.
  unfold buildProvider. destruct (cfg_provider cfg); intros [= <-].
  - apply mock_respectsBase.
  - apply exchangeRateApi_respectsBase.
  - apply freecurrency_respectsBase.
Qed.

(** *** Fetching for one base leaves the other bases alone *)

Lemma fetchForBase_other_base p cfg b' quotes' h w b q :
  respectsBase p -> b' ≠ b ->
  store (fetchForBase p cfg b' quotes' h w) !! key b q = store w !! key b q.
Proof.
  intros Hp Hb. unfold fetchForBase.
  destruct (fetchRates p b' quotes' h (ticks w)) as [[rs|e] t'] eqn:Hfetch.
  - cbn [store]. apply saveRates_lookup_other.
    eapply Forall_impl; [eapply Hp, Hfetch|].
    intros r Hr Hk. apply key_inj in Hk as [Hk _]. congruence.
  - rewrite markStale_lookup_other; [reflexivity|].
    intros q' _ Hk. apply key_inj in Hk as [Hk _]. congruence.
Qed.

Lemma fetchAll_other_bases p cfg grouped h b q :
  respectsBase p ->
  Forall (fun g => fst g ≠ b) grouped ->
  forall w, store (fetchAll p cfg grouped h w) !! key b q = store w !! key b q.
Proof.
  intros Hp. induction 1 as [|[b' quotes'] grouped Hb _ IH]; intros w; [reflexivity|].
  unfold fetchAll in *. cbn [fold_left]. rewrite IH.
  apply fetchForBase_other_base; assumption.
Qed.

Lemma fetchAll_cons p cfg b quotes grouped h w :
  fetchAll p cfg ((b, quotes) :: grouped) h w =
  fetchAll p cfg grouped h (fetchForBase p cfg b quotes h w).
Proof. reflexivity. Qed.

Lemma fetchAll_app p cfg g1 g2 h w :
  fetchAll p cfg (g1 ++ g2) h w = fetchAll p cfg g2 h (fetchAll p cfg g1 h w).
Proof. unfold fetchAll. apply fold_left_app. Qed.

(** *** Each base has one group *)

Lemma pushQuote_bases b q grouped :
  map fst (pushQuote b q grouped) =
    if bool_decide (b ∈ map fst grouped) then map fst grouped
    else map fst grouped ++ [b].
Proof.
  induction grouped as [|[b' qs] grouped IH]; [reflexivity|].
  cbn [pushQuote map fst]. destruct (decide (b' = b)) as [->|Hb'].
  - rewrite (bool_decide_eq_true_2 (b = b) eq_refl). cbn [map fst].
    rewrite bool_decide_eq_true_2 by left. reflexivity.
  - rewrite (bool_decide_eq_false_2 (b' = b) Hb'). cbn [map fst]. rewrite IH.
    rewrite (bool_decide_ext (b ∈ b' :: map fst grouped) (b ∈ map fst grouped)).
    + destruct (bool_decide (b ∈ map fst grouped)); reflexivity.
    + rewrite elem_of_cons. split; [intros [?|?]; [congruence | assumption] | auto].
Qed.

Lemma pushQuote_NoDup b q grouped :
  NoDup (map fst grouped) -> NoDup (map fst (pushQuote b q grouped)).
Proof.
  intros HND. rewrite pushQuote_bases. case_bool_decide as Hin; [exact HND|].
  apply NoDup_app. split; [exact HND|]. split.
  - intros x Hx Hx'. apply list_elem_of_singleton in Hx'. subst x. contradiction.
  - apply NoDup_singleton.
Qed.

Lemma groupByBase_NoDup ps : NoDup (map fst (groupByBase ps)).
Proof.
  unfold groupByBase.
  assert (Hgen : forall g, NoDup (map fst g) ->
                   NoDup (map fst (fold_left (fun grouped '(b, q) => pushQuote b q grouped)
                                      ps g))).
  { induction ps as [|[b q] ps IH]; intros g Hg; [exact Hg|].
    cbn [fold_left]. apply IH, pushQuote_NoDup, Hg. }
  apply Hgen. constructor.
Qed.

Lemma bases_apart (before after : list (Currency * list Currency)) b quotes :
  NoDup (map fst (before ++ (b, quotes) :: after)) ->
  Forall (fun g => fst g ≠ b) before ∧ Forall (fun g => fst g ≠ b) after.
Proof.
  rewrite map_app. cbn [map fst]. intros HND.
  apply NoDup_app in HND as (_ & Hsep & HND).
  apply NoDup_cons in HND as [Hnot _].
  split; apply Forall_forall; intros [b' qs] Hin Heq; cbn in Heq; subst b'.
  - apply (Hsep b); [|left].
    apply list_elem_of_fmap. exists (b, qs). split; [reflexivity | exact Hin].
  - apply Hnot. apply list_elem_of_fmap. exists (b, qs). split; [reflexivity | exact Hin].
Qed.

(** The store after a cycle, under the key of a quote of a base whose
    fetch threw. *)
Lemma cycle_lookup_failed_base cfg p h w before b quotes after e q :
  respectsBase p ->
  fst (withinActiveWindow cfg h (ticks w)) = Ok true ->
  groupByBase (pairs cfg) = before ++ (b, quotes) :: after ->
  fst (fetchRates p b quotes h
         (ticks (fetchAll p cfg before h
                   (mkWorld (snd (withinActiveWindow cfg h (ticks w))) (store w)))))
    = Err e ->
  q ∈ quotes ->
  store (runFetch p cfg h w) !! key b q = flagged b q <$> store w !! key b q.
Proof.
  intros Hp Hwin Hgroups Hfail Hq.
  pose proof (groupByBase_NoDup (pairs cfg)) as HND. rewrite Hgroups in HND.
  apply bases_apart in HND as [Hbefore Hafter].
  unfold runFetch.
  destruct (withinActiveWindow cfg h (ticks w)) as [[[|]|e0] t0]; try discriminate.
  cbn [snd] in Hfail. rewrite Hgroups, fetchAll_app, fetchAll_cons.
  rewrite (fetchAll_other_bases p cfg after h b q Hp Hafter).
  rewrite (proj1 (fetchForBase_failed p cfg b quotes h _ e Hfail) q Hq).
  rewrite (fetchAll_other_bases p cfg before h b q Hp Hbefore).
  reflexivity.
Qed.

(** C3. In a cycle that runs, for a base whose fetch throws and for
    each of its quotes: when the store held an entry for the pair before
    the cycle, [getRate] afterwards returns the same rate, timestamp and
    provider with [stale = true], whatever the TTL and the time of the
    read; when it held none, it still holds none and [getRate] returns
    [null]. *)
Theorem failed_fetch_keeps_last_value_stale
    (cfg : RatesConfig) (p : RateProvider) (h : Host) (w : World)
    (before : list (Currency * list Currency)) (b : Currency) (quotes : list Currency)
    (after : list (Currency * list Currency)) (e : JsError) (q : Currency) :
  buildProvider cfg = Ok p ->
  fst (withinActiveWindow cfg h (ticks w)) = Ok true ->
  groupByBase (pairs cfg) = before ++ (b, quotes) :: after ->
  fst (fetchRates p b quotes h
         (ticks (fetchAll p cfg before h
                   (mkWorld (snd (withinActiveWindow cfg h (ticks w))) (store w)))))
    = Err e ->
  q ∈ quotes ->
  (forall old,
      store w !! key b q = Some old ->
      forall ttl h' t',
        fst (getRate b q ttl (store (runFetch p cfg h w)) h' t')
        = Ok (Some (mkStored (mkRate b q (rate (entry old)) (timestamp (entry old))
                                (provider (entry old)))
                      true)))
  ∧ (store w !! key b q = None ->
     store (runFetch p cfg h w) !! key b q = None
     ∧ forall ttl h' t',
         fst (getRate b q ttl (store (runFetch p cfg h w)) h' t') = Ok None).
Proof.
  intros Hbuild Hwin Hgroups Hfail Hq.
  pose proof (cycle_lookup_failed_base cfg p h w before b quotes after e q
                (buildProvider_respectsBase _ _ Hbuild) Hwin Hgroups Hfail Hq) as Hlook.
  split.
  - intros old Hold ttl h' t'. unfold getRate. rewrite Hlook, Hold. reflexivity.
  - intros Hnone. rewrite Hlook, Hnone. split; [reflexivity|].
    intros ttl h' t'. unfold getRate. rewrite Hlook, Hnone. reflexivity.
Qed.

Lemma failed_fetch_keeps_last_value_stale_witness :
  fst (getRate USD JPY 60000
         (store (runFetch
                   (ExchangeRateApi.createExchangeRateApiClient
                      (Scenario.testConfig exchangerate_api))
                   (Scenario.testConfig exchangerate_api)
                   Scenario.networkDown Scenario.warm))
         Scenario.networkDown Scenario.start)
  = Ok (Some (mkStored Scenario.earlier true)).
Proof.
  refine (proj1 (failed_fetch_keeps_last_value_stale
                   (Scenario.testConfig exchangerate_api) _
                   Scenario.networkDown Scenario.warm [] USD [JPY; EUR] []
                   (AppError 503 "RATE_PROVIDER_REQUEST_FAILED") JPY
                   eq_refl eq_refl eq_refl eq_refl _)
            (mkStored Scenario.earlier false) _ 60000 Scenario.networkDown Scenario.start).
  - left.
  - apply lookup_insert_eq.
Defined.

Lemma cycle_outside_window_does_nothing_witness :
  store (runFetch Mock.createMockRateProvider Scenario.afternoonConfig
           Scenario.networkDown Scenario.warm) = store Scenario.warm.
Proof.
  refine (proj1 (proj2 (cycle_outside_window_does_nothing
                          Mock.createMockRateProvider Scenario.afternoonConfig
                          Scenario.networkDown Scenario.warm _))).
  vm_compute. intros [H _]. apply H. reflexivity.
Defined.

Lemma sequential_fetch_is_all_or_nothing_witness :
  store (fetchForBase
           (ExchangeRateApi.createExchangeRateApiClient
              (Scenario.testConfig exchangerate_api))
           (Scenario.testConfig exchangerate_api) USD [JPY; EUR]
           Scenario.successThenDown Scenario.warm) !! key USD JPY
  = Some (mkStored Scenario.earlier true).
Proof.
  refine (proj1 (proj1 (sequential_fetch_is_all_or_nothing
                          (ExchangeRateApi.createExchangeRateApiClient
                             (Scenario.testConfig exchangerate_api))
                          (Scenario.testConfig exchangerate_api) USD [JPY] EUR []
                          Scenario.successThenDown Scenario.warm
                          [mkRate USD JPY (301 # 2) (ValidDate 1700000000000)
                             exchangerate_api]
                          (mkTicks 1 1) (AppError 503 "RATE_PROVIDER_REQUEST_FAILED")
                          eq_refl eq_refl eq_refl) JPY _)
            (mkStored Scenario.earlier false) _).
  - left.
  - apply lookup_insert_eq.
Defined.

End FetcherFacts.

(** * Further properties *)

(** ** The retry loop: requests made and errors surfaced *)

Section LoopFacts.

(** A loop of [n] turns makes at most [n] requests. *)
Lemma retryLoop_calls_le {A} cfg (parse : Response -> M A) :
  (forall r h t, calls (snd (parse r h t)) = calls t) ->
  forall n a h t, (calls (snd (retryLoop cfg parse n a h t)) <= calls t + n)%nat.
Proof.
  intros Hparse. induction n as [|n IH]; intros a h t; [cbn; lia|].
  destruct (net h (calls t)) as [r| |] eqn:Hnet.
  - rewrite (retryLoop_responded _ _ _ _ _ _ r Hnet).
    pose proof (Hparse r h (called t)) as Hp.
    destruct (ok r || (status r <? 500) || (a =? retryCount cfg)).
    + destruct (parse r h (called t)) as [[v|e] t0]; cbn in *; [lia|].
      destruct (a =? retryCount cfg); cbn; [lia|].
      specialize (IH (a + 1) h t0). lia.
    + specialize (IH (a + 1) h (called t)). cbn in IH. lia.
  - rewrite (retryLoop_aborted _ _ _ _ _ _ Hnet).
    destruct (a =? retryCount cfg); cbn; [lia|].
    specialize (IH (a + 1) h (called t)). cbn in IH. lia.
  - cbn [retryLoop].
    unfold bind, tryCatch, fetchWithTimeout, fetch, bind, throw, ret.
    rewrite Hnet. destruct (a =? retryCount cfg); cbn; [lia|].
    specialize (IH (a + 1) h (called t)). cbn in IH. lia.
Qed.

(** One turn of the loop when the request is rejected by the network. *)
Lemma retryLoop_failed {A} cfg (parse : Response -> M A) n a h t :
  net h (calls t) = Failed ->
  retryLoop cfg parse (S n) a h t =
    if a =? retryCount cfg
    then (Err (AppError 503 "RATE_PROVIDER_REQUEST_FAILED"), called t)
    else retryLoop cfg parse n (a + 1) h (called t).
Proof.
  intros Hnet. cbn [retryLoop].
  unfold bind, tryCatch, fetchWithTimeout, fetch, bind, throw, ret.
  rewrite Hnet. destruct (a =? retryCount cfg); reflexivity.
Qed.

(** Where the loop's errors come from, when it is entered with the turns
    its condition allows: from the request or from [parse], never from
    the [throw] written after the loop. *)
Lemma retryLoop_Err_inv {A} cfg (parse : Response -> M A) :
  forall n a h t e t',
    a + Z.of_nat n = retryCount cfg ->
    retryLoop cfg parse (S n) a h t = (Err e, t') ->
    e = AppError 504 "RATE_PROVIDER_TIMEOUT"
    ∨ e = AppError 503 "RATE_PROVIDER_REQUEST_FAILED"
    ∨ exists r h0 t0, fst (parse r h0 t0) = Err e.
Proof.
  induction n as [|n IH]; intros a h t e t' Ha.
  - assert (Hlast : (a =? retryCount cfg) = true) by lia.
    destruct (net h (calls t)) as [r| |] eqn:Hnet.
    + rewrite (retryLoop_responded _ _ _ _ _ _ r Hnet), Hlast, !orb_true_r.
      destruct (parse r h (called t)) as [[v|e0] t0] eqn:Hp; [discriminate|].
      intros [= <- <-]. right. right. exists r, h, (called t). rewrite Hp. reflexivity.
    + rewrite (retryLoop_aborted _ _ _ _ _ _ Hnet), Hlast. intros [= <- <-]. auto.
    + rewrite (retryLoop_failed _ _ _ _ _ _ Hnet), Hlast. intros [= <- <-]. auto.
  - assert (Hmore : (a =? retryCount cfg) = false) by lia.
    assert (Hnext : a + 1 + Z.of_nat n = retryCount cfg) by lia.
    destruct (net h (calls t)) as [r| |] eqn:Hnet.
    + rewrite (retryLoop_responded _ _ _ _ _ _ r Hnet), Hmore.
      destruct (ok r || (status r <? 500) || false); [|apply IH, Hnext].
      destruct (parse r h (called t)) as [[v|e0] t0] eqn:Hp; [discriminate|].
      apply IH, Hnext.
    + rewrite (retryLoop_aborted _ _ _ _ _ _ Hnet), Hmore. apply IH, Hnext.
    + rewrite (retryLoop_failed _ _ _ _ _ _ Hnet), Hmore. apply IH, Hnext.
Qed.

(** What the loop returns is what [parse] made of the last response
    received, a response that did not ask for a retry. *)
Lemma retryLoop_Ok_last {A} cfg (parse : Response -> M A) :
  (forall r h t, calls (snd (parse r h t)) = calls t) ->
  forall n a h t v t',
    retryLoop cfg parse n a h t = (Ok v, t') ->
    exists r t0,
      (calls t < calls t')%nat
      ∧ net h (calls t' - 1)%nat = Responded r
      ∧ calls t0 = calls t'
      ∧ parse r h t0 = (Ok v, t').
Proof.
  intros Hparse. induction n as [|n IH]; intros a h t v t'; [discriminate|].
  assert (Hstep : forall t1, calls t1 = S (calls t) ->
            retryLoop cfg parse n (a + 1) h t1 = (Ok v, t') ->
            exists r t0, (calls t < calls t')%nat
                         ∧ net h (calls t' - 1)%nat = Responded r
                         ∧ calls t0 = calls t' ∧ parse r h t0 = (Ok v, t')).
  { intros t1 Ht1 Hrun. destruct (IH _ _ _ _ _ Hrun) as (r & t0 & Hlt & Hn & Hc & Hp).
    exists r, t0. repeat split; try assumption. lia. }
  destruct (net h (calls t)) as [r| |] eqn:Hnet.
  - rewrite (retryLoop_responded _ _ _ _ _ _ r Hnet).
    pose proof (Hparse r h (called t)) as Hcalls.
    destruct (ok r || (status r <? 500) || (a =? retryCount cfg)).
    + destruct (parse r h (called t)) as [[v0|e] t0] eqn:Hp.
      * intros [= <- <-]. cbn in Hcalls. exists r, (called t).
        rewrite Hcalls. cbn. rewrite Nat.sub_0_r. repeat split; try assumption; lia.
      * destruct (a =? retryCount cfg); [discriminate|].
        apply Hstep. cbn in Hcalls. exact Hcalls.
    + apply Hstep. reflexivity.
  - rewrite (retryLoop_aborted _ _ _ _ _ _ Hnet).
    destruct (a =? retryCount cfg); [discriminate | apply Hstep; reflexivity].
  - rewrite (retryLoop_failed _ _ _ _ _ _ Hnet).
    destruct (a =? retryCount cfg); [discriminate | apply Hstep; reflexivity].
Qed.

End LoopFacts.

(** ** What the clients accept and what they throw *)

(** Finds the case of [clientFailure] a thrown error falls under. *)
Ltac known_failure tac :=
  cbn [clientFailure];
  first [ exact I
        | left; split; reflexivity
        | right; left; split; reflexivity
        | do 2 right; left; split; reflexivity
        | do 3 right; left; split; reflexivity
        | do 4 right; left; split; reflexivity
        | do 5 right; left; split; reflexivity
        | do 6 right; split; [reflexivity | tac] ].

Section ParseFacts.

Lemma strictEqStr_true v s : strictEqStr v s = true -> v = Some (JStr s).
Proof.
  destruct v as [[]|]; cbn; try discriminate.
  intros H. apply bool_decide_eq_true in H. subst. reflexivity.
Qed.

Lemma prop_Some_inv k v x : prop k v = Ok (Some x) -> exists fields, v = JObj fields ∧ assoc k fields = Some x.
Proof. destruct v; cbn; intros [= H]. eexists. split; [reflexivity | exact H]. Qed.

(** What it takes for the ExchangeRate-API [parseResponse] to return. *)
Lemma ExchangeRateApi_parse_Ok_inv r b q h t x t' :
  ExchangeRateApi.parseResponse r b q h t = (Ok x, t') ->
  ok r = true
  ∧ exists fields,
      body r = Some (JObj fields)
      ∧ assoc "result" fields = Some (JStr "success")
      ∧ assoc "conversion_rate" fields = Some (JNum (rate x))
      ∧ provider x = exchangerate_api.
Proof.
  unfold ExchangeRateApi.parseResponse, readBody, bind, liftR, ret, throw,
    today, dateOfUnix, now, bind, ret.
  destruct (body r) as [bd|]; [|destruct (negb (ok r)); discriminate].
  destruct (ok r); cbn.
  - destruct (prop "result" bd) as [res|] eqn:Hres; [|discriminate].
    destruct (strictEqStr res "success") eqn:Hs.
    + apply strictEqStr_true in Hs. subst res.
      apply prop_Some_inv in Hres as (fields & -> & Hres). cbn.
      destruct (assoc "conversion_rate" fields) as [[]|] eqn:Hcr; try discriminate.
      intros H.
      assert (rate x = q0 ∧ provider x = exchangerate_api) as [<- Hp]
        by (repeat (case_match; simplify_eq/=); auto).
      split; [reflexivity | exists fields; auto].
    + discriminate.
  - destruct (prop "result" bd); discriminate.
Qed.

(** [parseTimestamp] always returns, and always a valid date. *)
Lemma parseTimestamp_valid meta h t :
  exists ms t', Freecurrency.parseTimestamp meta h t = (Ok (ValidDate ms), t')
                ∧ calls t' = calls t.
Proof.
  unfold Freecurrency.parseTimestamp, bind, liftR, ret, today, dateOf, now, bind, ret.
  destruct meta as [[]|]; cbn;
    repeat (case_match; simplify_eq/=); eauto.
Qed.

Lemma collectRates_Ok_inv bd ts b qs h t xs t' :
  Freecurrency.collectRates bd ts b qs h t = (Ok xs, t') ->
  Forall2 (fun q x =>
             (exists fields d, bd = JObj fields ∧ assoc "data" fields = Some d
                               ∧ prop (code q) d = Ok (Some (JNum (rate x))))
             ∧ timestamp x = ts ∧ provider x = freecurrencyapi) qs xs.
Proof.
  revert xs t'. induction qs as [|q qs IH]; intros xs t'.
  - intros [= <- <-]. constructor.
  - cbn [Freecurrency.collectRates]. unfold bind, liftR, throw, ret.
    destruct (prop "data" bd) as [[d|]|] eqn:Hd; try discriminate.
    destruct (prop (code q) d) as [[[]|]|] eqn:Hq; try discriminate.
    destruct (Freecurrency.collectRates bd ts b qs h t) as [[xs0|e] t0] eqn:Hrest;
      [|discriminate].
    intros [= <- <-]. constructor; [|eapply IH; reflexivity].
    apply prop_Some_inv in Hd as (fields & -> & Hd). cbn.
    split; [exists fields, d; auto | auto].
Qed.

(** What it takes for the Freecurrencyapi [parseResponse] to return. *)
Lemma Freecurrency_parse_Ok_inv r b qs h t xs t' :
  Freecurrency.parseResponse r b qs h t = (Ok xs, t') ->
  ok r = true
  ∧ exists fields d ms,
      body r = Some (JObj fields)
      ∧ assoc "data" fields = Some d
      ∧ Forall2 (fun q x =>
                   prop (code q) d = Ok (Some (JNum (rate x)))
                   ∧ timestamp x = ValidDate ms ∧ provider x = freecurrencyapi) qs xs.
Proof.
  unfold Freecurrency.parseResponse, readBody, bind, liftR, ret, throw.
  destruct (body r) as [bd|]; [|destruct (negb (ok r)); discriminate].
  destruct (ok r); cbn.
  - destruct (hasProp "data" bd) as [[]|] eqn:Hdata; try discriminate.
    + destruct bd; try discriminate. cbn in Hdata. injection Hdata as Hdata.
      apply bool_decide_eq_true in Hdata as [d Hd]. cbn.
      destruct (parseTimestamp_valid (assoc "meta" fields) h t) as (ms & t1 & -> & _).
      intros Hrates. apply collectRates_Ok_inv in Hrates.
      split; [reflexivity|]. exists fields, d, ms. repeat split; try assumption.
      eapply Forall2_impl; [exact Hrates|]. cbn.
      intros q x [(fields' & d' & [= <-] & Hd' & Hq) [Hts Hp]].
      rewrite Hd in Hd'. injection Hd' as <-. auto.
    + destruct (hasProp "message" bd); discriminate.
  - destruct (hasProp "message" bd); discriminate.
Qed.

Lemma statusCodeFor_cases r :
  statusCodeFor r = 503 ∨ statusCodeFor r = 404 ∨ statusCodeFor r = 502.
Proof.
  unfold statusCodeFor. destruct (status r >=? 500); [auto|].
  destruct (status r =? 404); auto.
Qed.

Lemma prop_Err_inv k v e : prop k v = Err e -> e = TypeError.
Proof. destruct v; cbn; congruence. Qed.

Lemma hasProp_Err_inv k v e : hasProp k v = Err e -> e = TypeError.
Proof. destruct v; cbn; congruence. Qed.

Lemma readBody_Err r h t e :
  fst (readBody r h t) = Err e -> clientFailure e.
Proof.
  unfold readBody, ret, throw. destruct (body r); [discriminate|].
  unfold ok. destruct (Z.leb_spec 200 (status r)), (Z.leb_spec (status r) 299);
    cbn; intros [= <-];
    known_failure ltac:(destruct (Z.geb_spec (status r) 500); [auto | do 3 right; lia]).
Qed.

Lemma ExchangeRateApi_parse_Err r b q h t e :
  fst (ExchangeRateApi.parseResponse r b q h t) = Err e -> clientFailure e.
Proof.
  unfold ExchangeRateApi.parseResponse, bind.
  destruct (readBody r h t) as [[bd|e0] t0] eqn:Hbody.
  - unfold liftR, ret, throw, bind, today, dateOfUnix, now, bind, ret.
    pose proof (statusCodeFor_cases r) as Hsc.
    intros H. repeat (case_match; simplify_eq/=);
      try match goal with
          | Hp : prop _ _ = Err _ |- _ => apply prop_Err_inv in Hp; subst
          end;
      known_failure ltac:(intuition).
  - cbn. intros [= <-]. eapply (readBody_Err r h t). rewrite Hbody. reflexivity.
Qed.

Lemma collectRates_Err bd ts b qs h t e :
  fst (Freecurrency.collectRates bd ts b qs h t) = Err e -> clientFailure e.
Proof.
  induction qs as [|q qs IH]; [discriminate|].
  cbn [Freecurrency.collectRates]. unfold bind, liftR, throw, ret.
  intros H. repeat (case_match; simplify_eq/=);
    try match goal with
        | Hp : prop _ _ = Err _ |- _ => apply prop_Err_inv in Hp; subst
        end;
    try (known_failure idtac; fail).
  apply IH. match goal with Hr : Freecurrency.collectRates _ _ _ _ _ _ = _ |- _ =>
    rewrite Hr end. reflexivity.
Qed.

Lemma Freecurrency_parse_Err r b qs h t e :
  fst (Freecurrency.parseResponse r b qs h t) = Err e -> clientFailure e.
Proof.
  unfold Freecurrency.parseResponse, bind.
  destruct (readBody r h t) as [[bd|e0] t0] eqn:Hbody.
  - pose proof (statusCodeFor_cases r) as Hsc.
    destruct (if ok r then _ else _) as [[[]|e1] t1] eqn:Hsucc.
    + destruct (liftR (prop "meta" bd) h t1) as [[meta|e2] t2] eqn:Hmeta.
      * destruct (parseTimestamp_valid meta h t2) as (ms & t3 & -> & _).
        apply collectRates_Err.
      * cbn. intros [= <-]. unfold liftR in Hmeta. destruct bd; cbn in Hmeta; simplify_eq.
        exact I.
    + unfold liftR, throw. destruct (hasProp "message" bd) eqn:Hm; cbn; intros [= <-].
      * known_failure ltac:(intuition).
      * destruct bd; cbn in Hm; simplify_eq; exact I.
    + cbn. intros [= <-]. destruct (ok r); unfold liftR, ret in Hsucc; [|discriminate].
      destruct bd; cbn in Hsucc; simplify_eq; exact I.
  - cbn. intros [= <-]. eapply (readBody_Err r h t). rewrite Hbody. reflexivity.
Qed.

End ParseFacts.

(** ** Calls of the two HTTP clients *)

Section CallFacts.

Lemma requestLatestRate_runs_loop cfg k b q h t :
  cfg_apiKey cfg = Some k -> k ≠ "" -> b ≠ q ->
  ExchangeRateApi.requestLatestRate cfg b q h t =
    retryLoop cfg (fun response => ExchangeRateApi.parseResponse response b q)
      (Z.to_nat (retryCount cfg + 1)) 0 h t.
Proof.
  intros Hk Hne Hbq. unfold ExchangeRateApi.requestLatestRate.
  case_bool_decide; [contradiction|].
  unfold bind at 1. rewrite (ensureApiKey_present _ _ _ _ Hk Hne). reflexivity.
Qed.

Lemma requestLatestRates_runs_loop cfg k b quotes h t :
  cfg_apiKey cfg = Some k -> k ≠ "" -> Forall (fun q => q ≠ b) quotes ->
  Freecurrency.requestLatestRates cfg b quotes h t =
    retryLoop cfg (fun response => Freecurrency.parseResponse response b quotes)
      (Z.to_nat (retryCount cfg + 1)) 0 h t.
Proof.
  intros Hk Hne Hqs. unfold Freecurrency.requestLatestRates.
  rewrite (existsb_same_false _ _ Hqs).
  unfold bind at 1. rewrite (ensureApiKey_present _ _ _ _ Hk Hne). reflexivity.
Qed.

(** Before the loop, a call throws or goes on with the counters as they
    were. *)
Lemma requestLatestRate_cases cfg b q h t :
  (exists e, ExchangeRateApi.requestLatestRate cfg b q h t = (Err e, t)
             ∧ (e = AppError 400 "RATE_VALIDATION_ERROR"
                ∨ e = AppError 500 "RATE_PROVIDER_CONFIG_ERROR"))
  ∨ ExchangeRateApi.requestLatestRate cfg b q h t =
      retryLoop cfg (fun response => ExchangeRateApi.parseResponse response b q)
        (Z.to_nat (retryCount cfg + 1)) 0 h t.
Proof.
  unfold ExchangeRateApi.requestLatestRate. case_bool_decide; [left; eauto|].
  unfold bind at 1, ensureApiKey, throw, ret.
  destruct (cfg_apiKey cfg) as [k|]; [|left; eauto].
  case_bool_decide; [left; eauto | right; reflexivity].
Qed.

Lemma requestLatestRates_cases cfg b quotes h t :
  (exists e, Freecurrency.requestLatestRates cfg b quotes h t = (Err e, t)
             ∧ (e = AppError 400 "RATE_VALIDATION_ERROR"
                ∨ e = AppError 500 "RATE_PROVIDER_CONFIG_ERROR"))
  ∨ Freecurrency.requestLatestRates cfg b quotes h t =
      retryLoop cfg (fun response => Freecurrency.parseResponse response b quotes)
        (Z.to_nat (retryCount cfg + 1)) 0 h t.
Proof.
  unfold Freecurrency.requestLatestRates. destruct (existsb _ quotes); [left; eauto|].
  unfold bind at 1, ensureApiKey, throw, ret.
  destruct (cfg_apiKey cfg) as [k|]; [|left; eauto].
  case_bool_decide; [left; eauto | right; reflexivity].
Qed.

(** X1. A call that passes validation and finds the API key makes at
    least one request and at most [retryCount + 1], in both clients; for
    the batched client that holds whatever the number of quotes.  The mock
    makes none. *)
Theorem client_call_request_budget
    (cfg : RatesConfig) (k : string) (b q : Currency) (quotes : list Currency)
    (h : Host) (t : Ticks) :
  cfg_apiKey cfg = Some k -> k ≠ "" ->
  0 <= retryCount cfg ->
  b ≠ q -> Forall (fun q => q ≠ b) quotes ->
  (calls t + 1 <= calls (snd (ExchangeRateApi.requestLatestRate cfg b q h t))
   <= calls t + S (Z.to_nat (retryCount cfg)))%nat
  ∧ (calls t + 1 <= calls (snd (Freecurrency.requestLatestRates cfg b quotes h t))
     <= calls t + S (Z.to_nat (retryCount cfg)))%nat
  ∧ calls (snd (Mock.mockGetLatestRate b q h t)) = calls t
  ∧ calls (snd (Mock.mockGetLatestRates b quotes h t)) = calls t.
Proof.
  intros Hk Hne Hrc Hbq Hqs.
  rewrite (requestLatestRate_runs_loop _ _ _ _ _ _ Hk Hne Hbq).
  rewrite (requestLatestRates_runs_loop _ _ _ _ _ _ Hk Hne Hqs).
  replace (Z.to_nat (retryCount cfg + 1)) with (S (Z.to_nat (retryCount cfg))) by lia.
  assert (Hex : forall r h t, calls (snd (ExchangeRateApi.parseResponse r b q h t)) = calls t)
    by (intros; apply ExchangeRateApi_parse_calls).
  assert (Hfc : forall r h t, calls (snd (Freecurrency.parseResponse r b quotes h t)) = calls t)
    by (intros; apply Freecurrency_parse_calls).
  split; [|split; [|split]].
  - split.
    + replace (calls t + 1)%nat with (S (calls t)) by lia.
      apply retryLoop_calls_one. intros r0 h0 t0. rewrite Hex. reflexivity.
    + apply retryLoop_calls_le, Hex.
  - split.
    + replace (calls t + 1)%nat with (S (calls t)) by lia.
      apply retryLoop_calls_one. intros r0 h0 t0. rewrite Hfc. reflexivity.
    + apply retryLoop_calls_le, Hfc.
  - rewrite mockGetLatestRate_other by congruence. reflexivity.
  - unfold Mock.mockGetLatestRates, promiseAllMap.
    pose proof (mock_settleAll_inv b quotes h t) as (Hc & _).
    destruct (settleAll _ quotes h t). exact Hc.
Qed.

Lemma client_call_request_budget_witness :
  (0 + 1 <= calls (snd (ExchangeRateApi.requestLatestRate
                          (Scenario.testConfig exchangerate_api) USD EUR
                          Scenario.serverErrorThenSuccess Scenario.start))
   <= 0 + 2)%nat.
Proof.
  refine (proj1 (client_call_request_budget
                   (Scenario.testConfig exchangerate_api) "test-key" USD EUR [JPY; EUR]
                   Scenario.serverErrorThenSuccess Scenario.start eq_refl _ _ _ _)).
  - discriminate.
  - vm_compute. discriminate.
  - discriminate.
  - repeat constructor; discriminate.
Defined.

(** X2. With a retry count that is not negative, whatever a call of
    either client throws is one of the failures the clients are written
    to surface; in particular the [throw] after the loop, which its
    comment calls unreachable, is never the one. *)
Theorem client_failures_are_classified
    (cfg : RatesConfig) (b q : Currency) (quotes : list Currency) (h : Host) (t : Ticks) :
  0 <= retryCount cfg ->
  (forall e, fst (ExchangeRateApi.requestLatestRate cfg b q h t) = Err e -> clientFailure e)
  ∧ (forall e, fst (Freecurrency.requestLatestRates cfg b quotes h t) = Err e ->
               clientFailure e)
  ∧ fst (ExchangeRateApi.requestLatestRate cfg b q h t)
      ≠ Err (AppError 503 "RATE_PROVIDER_RETRIES_EXHAUSTED")
  ∧ fst (Freecurrency.requestLatestRates cfg b quotes h t)
      ≠ Err (AppError 503 "RATE_PROVIDER_RETRIES_EXHAUSTED").
Proof.
  intros Hrc.
  assert (Hturns : Z.to_nat (retryCount cfg + 1) = S (Z.to_nat (retryCount cfg))) by lia.
  assert (Hinv : 0 + Z.of_nat (Z.to_nat (retryCount cfg)) = retryCount cfg) by lia.
  assert (Hex : forall e, fst (ExchangeRateApi.requestLatestRate cfg b q h t) = Err e ->
                          clientFailure e).
  { intros e. destruct (requestLatestRate_cases cfg b q h t) as [(e0 & -> & He0) | ->].
    - cbn. intros [= <-]. destruct He0 as [-> | ->]; known_failure idtac.
    - rewrite Hturns.
      destruct (retryLoop cfg _ (S _) 0 h t) as [[v|e1] t1] eqn:Hrun; [discriminate|].
      cbn. intros [= <-].
      destruct (retryLoop_Err_inv _ _ _ _ _ _ _ _ Hinv Hrun)
        as [-> | [-> | (r & h0 & t0 & Hp)]]; try known_failure idtac.
      eapply ExchangeRateApi_parse_Err, Hp. }
  assert (Hfc : forall e, fst (Freecurrency.requestLatestRates cfg b quotes h t) = Err e ->
                          clientFailure e).
  { intros e. destruct (requestLatestRates_cases cfg b quotes h t) as [(e0 & -> & He0) | ->].
    - cbn. intros [= <-]. destruct He0 as [-> | ->]; known_failure idtac.
    - rewrite Hturns.
      destruct (retryLoop cfg _ (S _) 0 h t) as [[v|e1] t1] eqn:Hrun; [discriminate|].
      cbn. intros [= <-].
      destruct (retryLoop_Err_inv _ _ _ _ _ _ _ _ Hinv Hrun)
        as [-> | [-> | (r & h0 & t0 & Hp)]]; try known_failure idtac.
      eapply Freecurrency_parse_Err, Hp. }
  assert (Hnot : ¬ clientFailure (AppError 503 "RATE_PROVIDER_RETRIES_EXHAUSTED")).
  { cbn. intros H. repeat destruct H as [H | H]; destruct H as [H _]; discriminate H. }
  repeat split; try assumption.
  - intros H. apply Hnot, Hex, H.
  - intros H. apply Hnot, Hfc, H.
Qed.

Lemma client_failures_are_classified_witness :
  clientFailure (AppError 504 "RATE_PROVIDER_TIMEOUT").
Proof.
  refine (proj1 (client_failures_are_classified
                   (Scenario.testConfig exchangerate_api) USD EUR [JPY; EUR]
                   Scenario.alwaysTimeout Scenario.start _)
            (AppError 504 "RATE_PROVIDER_TIMEOUT") _).
  - vm_compute. discriminate.
  - vm_compute. reflexivity.
Defined.

(** X3. With a negative retry count the loop is never entered: a call
    that passes validation and finds the key makes no request and throws
    the error written after the loop. *)
Theorem negative_retry_count_reaches_final_throw
    (cfg : RatesConfig) (k : string) (b q : Currency) (quotes : list Currency)
    (h : Host) (t : Ticks) :
  cfg_apiKey cfg = Some k -> k ≠ "" ->
  retryCount cfg < 0 ->
  b ≠ q -> Forall (fun q => q ≠ b) quotes ->
  ExchangeRateApi.requestLatestRate cfg b q h t
    = (Err (AppError 503 "RATE_PROVIDER_RETRIES_EXHAUSTED"), t)
  ∧ Freecurrency.requestLatestRates cfg b quotes h t
    = (Err (AppError 503 "RATE_PROVIDER_RETRIES_EXHAUSTED"), t).
Proof.
  intros Hk Hne Hrc Hbq Hqs.
  rewrite (requestLatestRate_runs_loop _ _ _ _ _ _ Hk Hne Hbq).
  rewrite (requestLatestRates_runs_loop _ _ _ _ _ _ Hk Hne Hqs).
  replace (Z.to_nat (retryCount cfg + 1)) with 0%nat by lia.
  split; reflexivity.
Qed.

Lemma negative_retry_count_reaches_final_throw_witness :
  ExchangeRateApi.requestLatestRate Scenario.negativeBudget USD EUR
    Scenario.serverErrorThenSuccess Scenario.start
  = (Err (AppError 503 "RATE_PROVIDER_RETRIES_EXHAUSTED"), Scenario.start).
Proof.
  refine (proj1 (negative_retry_count_reaches_final_throw
                   Scenario.negativeBudget "test-key" USD EUR [JPY]
                   Scenario.serverErrorThenSuccess Scenario.start eq_refl _ _ _ _)).
  - discriminate.
  - vm_compute. reflexivity.
  - discriminate.
  - repeat constructor; discriminate.
Defined.

(** A loop whose requests are all answered with a status of 500 or more
    reads none of the bodies but the last: it ends as [parse] does on the
    last answer. *)
Lemma retryLoop_all_5xx {A} cfg (parse : Response -> M A) n :
  forall (resp : nat -> Response) a h t,
    a + Z.of_nat n = retryCount cfg ->
    (forall i, (i <= n)%nat ->
               net h (calls t + i)%nat = Responded (resp i) ∧ 500 <= status (resp i)) ->
    retryLoop cfg parse (S n) a h t =
      parse (resp n) h (mkTicks (calls t + S n) (reads t)).
Proof.
  induction n as [|n IH]; intros resp a h t Ha Hnet.
  - destruct (Hnet 0%nat (le_n _)) as [Hn0 Hs0]. rewrite Nat.add_0_r in Hn0.
    rewrite (retryLoop_responded _ _ _ _ _ _ _ Hn0).
    destruct (Z.eqb_spec a (retryCount cfg)) as [_|]; [|lia]. rewrite !orb_true_r.
    unfold called. replace (calls t + 1)%nat with (S (calls t)) by lia.
    destruct (parse (resp 0%nat) h _) as [[v|e] t0]; reflexivity.
  - destruct (Hnet 0%nat (Nat.le_0_l _)) as [Hn0 Hs0]. rewrite Nat.add_0_r in Hn0.
    rewrite (retryLoop_responded _ _ _ _ _ _ _ Hn0).
    rewrite (ok_false_of_5xx _ Hs0).
    destruct (Z.ltb_spec (status (resp 0%nat)) 500); [lia|].
    destruct (Z.eqb_spec a (retryCount cfg)); [lia|]. cbn [orb].
    rewrite (IH (fun i => resp (S i))).
    + unfold called. cbn [calls reads]. do 2 f_equal. lia.
    + lia.
    + intros i Hi. unfold called. cbn [calls].
      replace (S (calls t) + i)%nat with (calls t + S i)%nat by lia.
      apply Hnet. lia.
Qed.

Lemma parse_5xx_body r b q quotes h t :
  500 <= status r ->
  body r = None ∨ (exists fields, body r = Some (JObj fields)) ->
  ExchangeRateApi.parseResponse r b q h t = (Err (AppError 503 "RATE_PROVIDER_ERROR"), t)
  ∧ Freecurrency.parseResponse r b quotes h t = (Err (AppError 503 "RATE_PROVIDER_ERROR"), t).
Proof.
  intros Hs Hbody. pose proof (ok_false_of_5xx _ Hs) as Hok.
  unfold ExchangeRateApi.parseResponse, Freecurrency.parseResponse, readBody,
    statusCodeFor, bind, liftR, throw, ret.
  rewrite Hok. destruct (Z.geb_spec (status r) 500); [|lia].
  destruct Hbody as [-> | [fields ->]]; split; reflexivity.
Qed.

(** X4. When every attempt of a call is answered with a status of 500 or
    more, the call makes [retryCount + 1] requests and throws
    [RATE_PROVIDER_ERROR] with status 503, the last answer having a JSON
    object or no JSON at all for a body; what the earlier answers carry
    is not read. *)
Theorem server_errors_until_budget_spent
    (cfg : RatesConfig) (k : string) (b q : Currency) (quotes : list Currency)
    (h : Host) (t : Ticks) (resp : nat -> Response) :
  cfg_apiKey cfg = Some k -> k ≠ "" ->
  0 <= retryCount cfg ->
  b ≠ q -> Forall (fun q => q ≠ b) quotes ->
  (forall i, (i <= Z.to_nat (retryCount cfg))%nat ->
             net h (calls t + i)%nat = Responded (resp i) ∧ 500 <= status (resp i)) ->
  body (resp (Z.to_nat (retryCount cfg))) = None
  ∨ (exists fields, body (resp (Z.to_nat (retryCount cfg))) = Some (JObj fields)) ->
  ExchangeRateApi.requestLatestRate cfg b q h t
    = (Err (AppError 503 "RATE_PROVIDER_ERROR"),
       mkTicks (calls t + S (Z.to_nat (retryCount cfg))) (reads t))
  ∧ Freecurrency.requestLatestRates cfg b quotes h t
    = (Err (AppError 503 "RATE_PROVIDER_ERROR"),
       mkTicks (calls t + S (Z.to_nat (retryCount cfg))) (reads t)).
Proof.
  intros Hk Hne Hrc Hbq Hqs Hnet Hbody.
  rewrite (requestLatestRate_runs_loop _ _ _ _ _ _ Hk Hne Hbq).
  rewrite (requestLatestRates_runs_loop _ _ _ _ _ _ Hk Hne Hqs).
  replace (Z.to_nat (retryCount cfg + 1)) with (S (Z.to_nat (retryCount cfg))) by lia.
  destruct (Hnet _ (le_n _)) as [_ Hlast].
  rewrite !(retryLoop_all_5xx cfg _ _ resp 0 h t) by (first [lia | exact Hnet]).
  apply parse_5xx_body; assumption.
Qed.

Lemma server_errors_until_budget_spent_witness :
  ExchangeRateApi.requestLatestRate (Scenario.testConfig exchangerate_api) USD EUR
    Scenario.serverErrors Scenario.start
  = (Err (AppError 503 "RATE_PROVIDER_ERROR"), mkTicks 2 0).
Proof.
  refine (proj1 (server_errors_until_budget_spent
                   (Scenario.testConfig exchangerate_api) "test-key" USD EUR [JPY]
                   Scenario.serverErrors Scenario.start
                   (fun i => match i with
                             | O => Scenario.serverError
                             | _ => mkResponse 503 None
                             end)
                   eq_refl _ _ _ _ _ _)).
  - discriminate.
  - vm_compute. discriminate.
  - discriminate.
  - repeat constructor; discriminate.
  - intros [|[|i]] Hi; [split; [reflexivity | vm_compute; discriminate]
                       | split; [reflexivity | vm_compute; discriminate]
                       | vm_compute in Hi; lia].
  - left. reflexivity.
Defined.

(** A loop none of whose requests is answered ends with the error of the
    last request. *)
Lemma retryLoop_none_answered {A} cfg (parse : Response -> M A) n :
  forall a h t,
    a + Z.of_nat n = retryCount cfg ->
    (forall i r, (i <= n)%nat -> net h (calls t + i)%nat ≠ Responded r) ->
    retryLoop cfg parse (S n) a h t =
      (Err (match net h (calls t + n)%nat with
            | Aborted => AppError 504 "RATE_PROVIDER_TIMEOUT"
            | _ => AppError 503 "RATE_PROVIDER_REQUEST_FAILED"
            end),
       mkTicks (calls t + S n) (reads t)).
Proof.
  induction n as [|n IH]; intros a h t Ha Hnet.
  - rewrite Nat.add_0_r.
    destruct (Z.eqb_spec a (retryCount cfg)) as [Heq|]; [|lia].
    destruct (net h (calls t)) as [r| |] eqn:Hn0.
    + exfalso. apply (Hnet 0%nat r (le_n _)). rewrite Nat.add_0_r. exact Hn0.
    + rewrite (retryLoop_aborted _ _ _ _ _ _ Hn0).
      destruct (Z.eqb_spec a (retryCount cfg)); [|lia].
      unfold called. do 2 f_equal. lia.
    + rewrite (retryLoop_failed _ _ _ _ _ _ Hn0).
      destruct (Z.eqb_spec a (retryCount cfg)); [|lia].
      unfold called. do 2 f_equal. lia.
  - assert (Hrest : retryLoop cfg parse (S n) (a + 1) h (called t) =
                    (Err (match net h (calls t + S n)%nat with
                          | Aborted => AppError 504 "RATE_PROVIDER_TIMEOUT"
                          | _ => AppError 503 "RATE_PROVIDER_REQUEST_FAILED"
                          end),
                     mkTicks (calls t + S (S n)) (reads t))).
    { rewrite IH.
      - unfold called. cbn [calls reads].
        replace (S (calls t) + n)%nat with (calls t + S n)%nat by lia.
        do 2 f_equal. lia.
      - lia.
      - intros i r Hi. unfold called. cbn [calls].
        replace (S (calls t) + i)%nat with (calls t + S i)%nat by lia.
        apply Hnet. lia. }
    destruct (net h (calls t)) as [r| |] eqn:Hn0.
    + exfalso. apply (Hnet 0%nat r (Nat.le_0_l _)). rewrite Nat.add_0_r. exact Hn0.
    + rewrite (retryLoop_aborted _ _ _ _ _ _ Hn0).
      destruct (Z.eqb_spec a (retryCount cfg)); [lia | exact Hrest].
    + rewrite (retryLoop_failed _ _ _ _ _ _ Hn0).
      destruct (Z.eqb_spec a (retryCount cfg)); [lia | exact Hrest].
Qed.

(** X5. Requests that get no answer, rejected by the network or timed
    out in any mix, are retried alike: when no attempt of a call is
    answered, the call makes [retryCount + 1] requests and throws the
    error of the last one, [RATE_PROVIDER_TIMEOUT] (504) if it timed out
    and [RATE_PROVIDER_REQUEST_FAILED] (503) otherwise. *)
Theorem unanswered_requests_until_budget_spent
    (cfg : RatesConfig) (k : string) (b q : Currency) (quotes : list Currency)
    (h : Host) (t : Ticks) :
  cfg_apiKey cfg = Some k -> k ≠ "" ->
  0 <= retryCount cfg ->
  b ≠ q -> Forall (fun q => q ≠ b) quotes ->
  (forall i r, (i <= Z.to_nat (retryCount cfg))%nat ->
               net h (calls t + i)%nat ≠ Responded r) ->
  ExchangeRateApi.requestLatestRate cfg b q h t
    = (Err (match net h (calls t + Z.to_nat (retryCount cfg))%nat with
            | Aborted => AppError 504 "RATE_PROVIDER_TIMEOUT"
            | _ => AppError 503 "RATE_PROVIDER_REQUEST_FAILED"
            end),
       mkTicks (calls t + S (Z.to_nat (retryCount cfg))) (reads t))
  ∧ Freecurrency.requestLatestRates cfg b quotes h t
    = (Err (match net h (calls t + Z.to_nat (retryCount cfg))%nat with
            | Aborted => AppError 504 "RATE_PROVIDER_TIMEOUT"
            | _ => AppError 503 "RATE_PROVIDER_REQUEST_FAILED"
            end),
       mkTicks (calls t + S (Z.to_nat (retryCount cfg))) (reads t)).
Proof.
  intros Hk Hne Hrc Hbq Hqs Hnet.
  rewrite (requestLatestRate_runs_loop _ _ _ _ _ _ Hk Hne Hbq).
  rewrite (requestLatestRates_runs_loop _ _ _ _ _ _ Hk Hne Hqs).
  replace (Z.to_nat (retryCount cfg + 1)) with (S (Z.to_nat (retryCount cfg))) by lia.
  split; apply retryLoop_none_answered; first [lia | exact Hnet].
Qed.

Lemma unanswered_requests_until_budget_spent_witness :
  ExchangeRateApi.requestLatestRate (Scenario.testConfig exchangerate_api) USD EUR
    Scenario.downThenTimeout Scenario.start
  = (Err (AppError 504 "RATE_PROVIDER_TIMEOUT"), mkTicks 2 0).
Proof.
  refine (proj1 (unanswered_requests_until_budget_spent
                   (Scenario.testConfig exchangerate_api) "test-key" USD EUR [JPY]
                   Scenario.downThenTimeout Scenario.start eq_refl _ _ _ _ _)).
  - discriminate.
  - vm_compute. discriminate.
  - discriminate.
  - repeat constructor; discriminate.
  - intros [|[|i]] r Hi; [discriminate | discriminate | vm_compute in Hi; lia].
Defined.

(** X6. What a client returns is read off the last response it
    received, a 2xx answer with a JSON object for a body: the rate of the
    ExchangeRate-API client is that body's [conversion_rate], its [result]
    being ['success']; the rates of the Freecurrencyapi client are, quote
    by quote and in order, the entries of that body's [data] under the
    quotes' codes, and they share one valid timestamp. *)
Theorem returned_rate_is_the_last_payload
    (cfg : RatesConfig) (b q : Currency) (quotes : list Currency) (h : Host) (t : Ticks) :
  (forall x t',
      ExchangeRateApi.requestLatestRate cfg b q h t = (Ok x, t') ->
      exists r fields,
        (calls t < calls t')%nat
        ∧ net h (calls t' - 1)%nat = Responded r
        ∧ ok r = true
        ∧ body r = Some (JObj fields)
        ∧ assoc "result" fields = Some (JStr "success")
        ∧ assoc "conversion_rate" fields = Some (JNum (rate x))
        ∧ provider x = exchangerate_api)
  ∧ (forall xs t',
      Freecurrency.requestLatestRates cfg b quotes h t = (Ok xs, t') ->
      exists r fields d ms,
        (calls t < calls t')%nat
        ∧ net h (calls t' - 1)%nat = Responded r
        ∧ ok r = true
        ∧ body r = Some (JObj fields)
        ∧ assoc "data" fields = Some d
        ∧ Forall2 (fun q x =>
                     prop (code q) d = Ok (Some (JNum (rate x)))
                     ∧ timestamp x = ValidDate ms
                     ∧ provider x = freecurrencyapi) quotes xs).
Proof.
  split.
  - intros x t'.
    destruct (requestLatestRate_cases cfg b q h t) as [(e0 & -> & _) | ->]; [discriminate|].
    intros Hrun.
    apply (retryLoop_Ok_last cfg _
             (fun r h t => ExchangeRateApi_parse_calls r b q h t)) in Hrun
      as (r & t0 & Hlt & Hnet & _ & Hp).
    apply ExchangeRateApi_parse_Ok_inv in Hp as (Hok & fields & Hb & Hres & Hcr & Hprov).
    exists r, fields. auto 10.
  - intros xs t'.
    destruct (requestLatestRates_cases cfg b quotes h t) as [(e0 & -> & _) | ->];
      [discriminate|].
    intros Hrun.
    apply (retryLoop_Ok_last cfg _
             (fun r h t => Freecurrency_parse_calls r b quotes h t)) in Hrun
      as (r & t0 & Hlt & Hnet & _ & Hp).
    apply Freecurrency_parse_Ok_inv in Hp as (Hok & fields & d & ms & Hb & Hd & HF).
    exists r, fields, d, ms. auto 10.
Qed.

End CallFacts.

(** ** Grouping the configured pairs *)

Section GroupFacts.
Import RateStore Fetcher.

Lemma groupByBase_snoc ps b q :
  groupByBase (ps ++ [(b, q)]) = pushQuote b q (groupByBase ps).
Proof. unfold groupByBase. rewrite fold_left_app. reflexivity. Qed.

Lemma quotesOf_snoc b' ps b q :
  quotesOf b' (ps ++ [(b, q)]) =
    quotesOf b' ps ++ (if bool_decide (b = b') then [q] else []).
Proof.
  unfold quotesOf. rewrite filter_app, map_app. f_equal.
  rewrite filter_cons, filter_nil. cbn [fst].
  destruct (decide (b = b')) as [->|Hne].
  - rewrite bool_decide_eq_true_2 by reflexivity. reflexivity.
  - rewrite bool_decide_eq_false_2 by exact Hne. reflexivity.
Qed.

(** The groups after one more [push]. *)
Lemma pushQuote_elem b q grouped b' qs' :
  NoDup (map fst grouped) ->
  (b', qs') ∈ pushQuote b q grouped ->
  (b' ≠ b ∧ (b', qs') ∈ grouped)
  ∨ (b' = b ∧ exists qs, (b, qs) ∈ grouped ∧ qs' = qs ++ [q])
  ∨ (b' = b ∧ ¬ (b ∈ map fst grouped) ∧ qs' = [q]).
Proof.
  induction grouped as [|[b0 qs0] grouped IH]; cbn [pushQuote map fst]; intros HND.
  - intros Hin. apply list_elem_of_singleton in Hin. injection Hin as -> ->.
    right. right. split; [reflexivity|]. split; [|reflexivity]. intros H. inversion H.
  - apply NoDup_cons in HND as [Hfresh HND].
    destruct (decide (b0 = b)) as [->|Hne].
    + rewrite bool_decide_eq_true_2 by reflexivity.
      intros Hin. apply elem_of_cons in Hin as [Heq|Hin].
      * injection Heq as -> ->. right. left. split; [reflexivity|].
        exists qs0. split; [left | reflexivity].
      * destruct (decide (b' = b)) as [->|Hb'].
        -- exfalso. apply Hfresh. apply list_elem_of_fmap.
           exists (b, qs'). split; [reflexivity | exact Hin].
        -- left. split; [exact Hb' | right; exact Hin].
    + rewrite bool_decide_eq_false_2 by exact Hne.
      intros Hin. apply elem_of_cons in Hin as [Heq|Hin].
      * injection Heq as -> ->. left. split; [exact Hne | left].
      * destruct (IH HND Hin) as [[Hb' Hg] | [[-> (qs & Hg & ->)] | [-> [Hnot ->]]]].
        -- left. split; [exact Hb' | right; exact Hg].
        -- right. left. split; [reflexivity|].
           exists qs. split; [right; exact Hg | reflexivity].
        -- right. right. split; [reflexivity|]. split; [|reflexivity].
           intros H. apply elem_of_cons in H as [H|H]; [congruence | contradiction].
Qed.

(** A base that has a configured pair has a group. *)
Lemma groupByBase_covers ps b :
  b ∈ map fst ps -> b ∈ map fst (groupByBase ps).
Proof.
  induction ps as [|[b0 q0] ps IH] using rev_ind; [intros H; inversion H|].
  rewrite map_app, groupByBase_snoc, pushQuote_bases. cbn [map fst].
  intros Hin. apply elem_of_app in Hin as [Hin|Hin].
  - specialize (IH Hin). case_bool_decide; [exact IH | apply elem_of_app; left; exact IH].
  - apply list_elem_of_singleton in Hin. subst b0.
    case_bool_decide as Hb; [exact Hb | apply elem_of_app; right; left].
Qed.

Lemma quotesOf_nil_iff b ps : quotesOf b ps = [] <-> b ∉ map fst ps.
Proof.
  unfold quotesOf. induction ps as [|[b0 q0] ps IH]; cbn [map fst].
  - split; [intros _ H; inversion H | reflexivity].
  - rewrite filter_cons. cbn [fst]. destruct (decide (b0 = b)) as [->|Hne].
    + split; [discriminate|]. intros H. exfalso. apply H. left.
    + rewrite IH. split.
      * intros Hnot H. apply elem_of_cons in H as [H|H]; [congruence | contradiction].
      * intros Hnot H. apply Hnot. right. exact H.
Qed.

(** Each group holds the quotes configured for its base, in order. *)
Lemma groupByBase_groups ps b quotes :
  (b, quotes) ∈ groupByBase ps -> quotes = quotesOf b ps ∧ quotes ≠ [].
Proof.
  revert b quotes. induction ps as [|[b0 q0] ps IH] using rev_ind; intros b quotes.
  - intros H. inversion H.
  - rewrite groupByBase_snoc, quotesOf_snoc. intros Hin.
    apply pushQuote_elem in Hin; [|apply groupByBase_NoDup].
    destruct Hin as [[Hb Hg] | [[-> (qs & Hg & ->)] | [-> [Hnot ->]]]].
    + rewrite bool_decide_eq_false_2 by congruence. rewrite app_nil_r. apply IH, Hg.
    + rewrite bool_decide_eq_true_2 by reflexivity.
      destruct (IH _ _ Hg) as [-> _]. split; [reflexivity|].
      intros H. apply app_eq_nil in H as [_ H]. discriminate H.
    + rewrite bool_decide_eq_true_2 by reflexivity.
      assert (Hnil : quotesOf b0 ps = []).
      { apply quotesOf_nil_iff. intros H. apply Hnot, groupByBase_covers, H. }
      rewrite Hnil. split; [reflexivity | discriminate].
Qed.

Lemma groupByBase_has_pair ps b q :
  (b, q) ∈ ps -> exists quotes, (b, quotes) ∈ groupByBase ps ∧ q ∈ quotes.
Proof.
  intros Hin.
  assert (Hb : b ∈ map fst (groupByBase ps)).
  { apply groupByBase_covers. apply list_elem_of_fmap. exists (b, q). auto. }
  apply list_elem_of_fmap in Hb as ([b' quotes] & Heq & Hg). cbn in Heq. subst b'.
  exists quotes. split; [exact Hg|].
  destruct (groupByBase_groups _ _ _ Hg) as [-> _].
  unfold quotesOf. apply list_elem_of_fmap. exists (b, q). split; [reflexivity|].
  apply list_elem_of_filter. auto.
Qed.

Lemma groupByBase_only_pairs ps b quotes q :
  (b, quotes) ∈ groupByBase ps -> q ∈ quotes -> (b, q) ∈ ps.
Proof.
  intros Hg Hq.
  destruct (groupByBase_groups _ _ _ Hg) as [-> _].
  unfold quotesOf in Hq. apply list_elem_of_fmap in Hq as ([b' q'] & Heq & Hin).
  cbn in Heq. subst q'. apply list_elem_of_filter in Hin as [Hb Hin].
  cbn in Hb. subst b'. exact Hin.
Qed.

(** X7. [groupByBase] makes one group for each base that has a pair, and
    no other: bases do not repeat, each group lists exactly the quotes
    configured for its base, in the order and as often as the
    configuration has them, no group is empty, and every configured pair
    is in the group of its base. *)
Theorem groupByBase_partitions_the_pairs (ps : list (Currency * Currency)) :
  NoDup (map fst (groupByBase ps))
  ∧ (forall b quotes,
       (b, quotes) ∈ groupByBase ps -> quotes = quotesOf b ps ∧ quotes ≠ [])
  ∧ (forall b q,
       (b, q) ∈ ps -> exists quotes, (b, quotes) ∈ groupByBase ps ∧ q ∈ quotes)
  ∧ (forall b quotes q,
       (b, quotes) ∈ groupByBase ps -> q ∈ quotes -> (b, q) ∈ ps).
Proof.
  split; [apply groupByBase_NoDup|]. split; [apply groupByBase_groups|]. split.
  - apply groupByBase_has_pair.
  - apply groupByBase_only_pairs.
Qed.

End GroupFacts.

(** ** More on the fetch cycle *)

Section CycleFacts.
Import RateStore Fetcher.

Lemma forEach_Ok_Forall2 {A B} (f : A -> M B) (R : A -> B -> Prop) :
  (forall x h t y t', f x h t = (Ok y, t') -> R x y) ->
  forall xs h t ys t', forEach f xs h t = (Ok ys, t') -> Forall2 R xs ys.
Proof.
  intros Hf. induction xs as [|x xs IH]; intros h t ys t'.
  - intros [= <- <-]. constructor.
  - cbn [forEach]. unfold bind, ret.
    destruct (f x h t) as [[y|e] t0] eqn:Hx; [|discriminate].
    destruct (forEach f xs h t0) as [[ys0|e] t1] eqn:Hxs; [|discriminate].
    intros [= <- <-]. constructor; [eapply Hf, Hx | eapply IH, Hxs].
Qed.

Lemma mock_fetchRates_Ok b quotes h t rs t' :
  fetchRates Mock.createMockRateProvider b quotes h t = (Ok rs, t') ->
  Forall (fun q => q ≠ b) quotes ∧ rs = imap (Mock.mockRateAt b h t) quotes.
Proof.
  unfold fetchRates. cbn [getLatestRates Mock.createMockRateProvider].
  destruct (decide (b ∈ quotes)) as [Hin|Hout].
  - destruct (mock_batch_same b quotes h t Hin) as [H400 _].
    intros Heq. rewrite Heq in H400. discriminate H400.
  - assert (Hall : Forall (fun q => q ≠ b) quotes).
    { apply Forall_forall. intros q Hq ->. apply Hout, Hq. }
    unfold Mock.mockGetLatestRates, promiseAllMap.
    rewrite (mock_settleAll_ok _ _ _ Hall), firstRejection_map_Ok.
    intros [= <- <-]. auto.
Qed.

Lemma imap_Forall2 {A B} (f : nat -> A -> B) (R : A -> B -> Prop) (l : list A) :
  (forall i x, R x (f i x)) -> Forall2 R l (imap f l).
Proof.
  revert f. induction l as [|x l IH]; intros f Hf; cbn [imap]; constructor.
  - apply Hf.
  - apply IH. intros i y. apply Hf.
Qed.

Lemma buildProvider_answersEachQuote cfg p :
  buildProvider cfg = Ok p -> answersEachQuote p.
Proof.
  unfold buildProvider. destruct (cfg_provider cfg); intros [= <-];
    intros b quotes h t rs t'.
  - intros Hrs. apply mock_fetchRates_Ok in Hrs as [_ ->].
    apply imap_Forall2. intros i q. split; reflexivity.
  - unfold fetchRates.
    cbn [getLatestRates getLatestRate ExchangeRateApi.createExchangeRateApiClient].
    apply forEach_Ok_Forall2. intros q h0 t0 y t1 Hy.
    eapply (proj1 (returned_rates_are_for_the_request cfg b q [] h0 t0)), Hy.
  - unfold fetchRates. cbn [getLatestRates Freecurrency.createFreecurrencyApiClient].
    apply (proj2 (returned_rates_are_for_the_request cfg b b quotes h t)).
Qed.

Lemma Forall2_quote_elem b quotes rs :
  Forall2 (fun q (r : ExchangeRate) => base r = b ∧ quote r = q) quotes rs ->
  (forall q, q ∈ quotes -> exists r, r ∈ rs ∧ base r = b ∧ quote r = q)
  ∧ (forall r, r ∈ rs -> base r = b ∧ quote r ∈ quotes).
Proof.
  induction 1 as [|q r quotes rs [Hb Hq] _ [IH1 IH2]].
  - split; intros x Hx; inversion Hx.
  - split.
    + intros q' Hin. apply elem_of_cons in Hin as [->|Hin].
      * exists r. split; [left | auto].
      * destruct (IH1 _ Hin) as (r' & Hr' & Hp). exists r'. split; [right; exact Hr' | exact Hp].
    + intros r' Hin. apply elem_of_cons in Hin as [->|Hin].
      * split; [exact Hb | rewrite Hq; left].
      * destruct (IH2 _ Hin) as [Hb' Hq']. split; [exact Hb' | right; exact Hq'].
Qed.

(** What [fetchForBase] leaves in the store when the fetch returns. *)
Lemma fetchForBase_succeeded p cfg b quotes h w rs t' :
  answersEachQuote p ->
  fetchRates p b quotes h (ticks w) = (Ok rs, t') ->
  (forall q, q ∈ quotes ->
             exists r, r ∈ rs ∧ base r = b ∧ quote r = q
                       ∧ store (fetchForBase p cfg b quotes h w) !! key b q
                         = Some (mkStored r false))
  ∧ (forall k, (forall q, q ∈ quotes -> k ≠ key b q) ->
               store (fetchForBase p cfg b quotes h w) !! k = store w !! k).
Proof.
  intros Hp Hfetch.
  pose proof (Hp _ _ _ _ _ _ Hfetch) as HF2.
  apply Forall2_quote_elem in HF2 as [Hquotes Hrates].
  unfold fetchForBase. rewrite Hfetch. cbn [store]. split.
  - intros q Hq. rewrite saveRates_lookup.
    destruct (lastFor b q _) as [e|] eqn:He.
    + apply lastFor_Some in He as (Hin & Hb & Hq').
      apply list_elem_of_fmap in Hin as (r & -> & Hr).
      exists r. cbn in Hb, Hq'. auto.
    + exfalso. apply lastFor_None in He.
      destruct (Hquotes q Hq) as (r & Hr & Hb & Hq').
      rewrite Forall_forall in He. apply (He (mkStored r false)).
      * apply list_elem_of_fmap. exists r. auto.
      * cbn. auto.
  - intros k Hk. apply saveRates_lookup_other.
    apply Forall_forall. intros r Hr Heq.
    destruct (Hrates r Hr) as [Hb Hq]. rewrite Hb in Heq.
    exact (Hk _ Hq (eq_sym Heq)).
Qed.

(** X8. When the fetch for a base succeeds, with any of the three
    providers, every quote of the base has afterwards an entry that is
    one of the rates just returned, for exactly that pair and not flagged
    stale, whatever was there before; no other key of the store is
    written. *)
Theorem successful_fetch_stores_fresh_rates
    (cfg : RatesConfig) (p : RateProvider) (b : Currency) (quotes : list Currency)
    (h : Host) (w : World) (rs : list ExchangeRate) (t' : Ticks) :
  buildProvider cfg = Ok p ->
  fetchRates p b quotes h (ticks w) = (Ok rs, t') ->
  (forall q, q ∈ quotes ->
             exists r, r ∈ rs ∧ base r = b ∧ quote r = q
                       ∧ store (fetchForBase p cfg b quotes h w) !! key b q
                         = Some (mkStored r false))
  ∧ (forall k, (forall q, q ∈ quotes -> k ≠ key b q) ->
               store (fetchForBase p cfg b quotes h w) !! k = store w !! k).
Proof.
  intros Hbuild Hfetch.
  apply (fetchForBase_succeeded p cfg b quotes h w rs t');
    [apply (buildProvider_answersEachQuote _ _ Hbuild) | exact Hfetch].
Qed.

Lemma successful_fetch_stores_fresh_rates_witness :
  exists r,
    r ∈ [mkRate USD JPY (301 # 2) (ValidDate 1700000000000) freecurrencyapi;
         mkRate USD EUR (92 # 100) (ValidDate 1700000000000) freecurrencyapi]
    ∧ base r = USD ∧ quote r = EUR
    ∧ store (fetchForBase
               (Freecurrency.createFreecurrencyApiClient (Scenario.testConfig freecurrencyapi))
               (Scenario.testConfig freecurrencyapi) USD [JPY; EUR]
               Scenario.serverErrorThenData Scenario.warm) !! key USD EUR
      = Some (mkStored r false).
Proof.
  refine (proj1 (successful_fetch_stores_fresh_rates
                   (Scenario.testConfig freecurrencyapi) _ USD [JPY; EUR]
                   Scenario.serverErrorThenData Scenario.warm _ (mkTicks 2 1)
                   eq_refl eq_refl) EUR _).
  right. left.
Defined.

(** *** Requests made by a cycle *)

Lemma markStale_ticks_calls cfg b quotes h w :
  calls (ticks (markStale cfg b quotes h w)) = calls (ticks w).
Proof. apply markStale_calls. Qed.

Lemma fetchForBase_calls p cfg b quotes h w :
  calls (ticks (fetchForBase p cfg b quotes h w))
  = calls (snd (fetchRates p b quotes h (ticks w))).
Proof.
  unfold fetchForBase.
  destruct (fetchRates p b quotes h (ticks w)) as [[rs|e] t']; [reflexivity|].
  rewrite markStale_calls. reflexivity.
Qed.

(** A provider that spends at most [budget quotes] requests on the quotes
    of a base spends at most the sum of the budgets on a cycle. *)
Lemma fetchAll_calls_le p cfg (budget : list Currency -> nat) h :
  (forall b quotes t,
      (calls t <= calls (snd (fetchRates p b quotes h t)) <= calls t + budget quotes)%nat) ->
  forall grouped w,
    (calls (ticks w) <= calls (ticks (fetchAll p cfg grouped h w))
     <= calls (ticks w) + sum_list_with (fun g => budget (snd g)) grouped)%nat.
Proof.
  intros Hp. induction grouped as [|[b quotes] grouped IH]; intros w.
  - cbn. lia.
  - rewrite fetchAll_cons. cbn [sum_list_with snd].
    specialize (IH (fetchForBase p cfg b quotes h w)).
    rewrite fetchForBase_calls in IH.
    specialize (Hp b quotes (ticks w)). lia.
Qed.

Lemma runFetch_calls_le p cfg (budget : list Currency -> nat) h w :
  (forall b quotes t,
      (calls t <= calls (snd (fetchRates p b quotes h t)) <= calls t + budget quotes)%nat) ->
  (calls (ticks w) <= calls (ticks (runFetch p cfg h w))
   <= calls (ticks w)
      + sum_list_with (fun g => budget (snd g)) (groupByBase (pairs cfg)))%nat.
Proof.
  intros Hp. unfold runFetch, withinActiveWindow, getHourInTimezone, bind, now, ret.
  destruct (_ && _).
  - pose proof (fetchAll_calls_le p cfg budget h Hp (groupByBase (pairs cfg))
                  (mkWorld (mkTicks (calls (ticks w)) (S (reads (ticks w)))) (store w))) as H.
    cbn [ticks calls] in H. exact H.
  - cbn. lia.
Qed.

Lemma requestLatestRate_calls_le cfg b q h t :
  (calls t <= calls (snd (ExchangeRateApi.requestLatestRate cfg b q h t))
   <= calls t + Z.to_nat (retryCount cfg + 1))%nat.
Proof.
  destruct (requestLatestRate_cases cfg b q h t) as [(e & -> & _) | ->]; [cbn; lia|].
  split.
  - apply retryLoop_calls_mono. intros r h0 t0.
    rewrite ExchangeRateApi_parse_calls. reflexivity.
  - apply retryLoop_calls_le. intros. apply ExchangeRateApi_parse_calls.
Qed.

Lemma requestLatestRates_calls_le cfg b quotes h t :
  (calls t <= calls (snd (Freecurrency.requestLatestRates cfg b quotes h t))
   <= calls t + Z.to_nat (retryCount cfg + 1))%nat.
Proof.
  destruct (requestLatestRates_cases cfg b quotes h t) as [(e & -> & _) | ->]; [cbn; lia|].
  split.
  - apply retryLoop_calls_mono. intros r h0 t0.
    rewrite Freecurrency_parse_calls. reflexivity.
  - apply retryLoop_calls_le. intros. apply Freecurrency_parse_calls.
Qed.

Lemma forEach_calls_le {A B} (f : A -> M B) (n : nat) h :
  (forall x t, (calls t <= calls (snd (f x h t)) <= calls t + n)%nat) ->
  forall xs t,
    (calls t <= calls (snd (forEach f xs h t)) <= calls t + length xs * n)%nat.
Proof.
  intros Hf. induction xs as [|x xs IH]; intros t; [cbn; lia|].
  cbn [forEach length]. unfold bind, ret.
  specialize (Hf x t). destruct (f x h t) as [[y|e] t0]; cbn in Hf |- *; [|lia].
  specialize (IH t0). destruct (forEach f xs h t0) as [[ys|e] t1]; cbn in IH |- *; lia.
Qed.

Lemma mock_fetchRates_calls b quotes h t :
  calls (snd (fetchRates Mock.createMockRateProvider b quotes h t)) = calls t.
Proof.
  unfold fetchRates. cbn [getLatestRates Mock.createMockRateProvider].
  unfold Mock.mockGetLatestRates, promiseAllMap.
  pose proof (mock_settleAll_inv b quotes h t) as (Hc & _).
  destruct (settleAll _ quotes h t). exact Hc.
Qed.

Lemma pushQuote_total b q grouped :
  sum_list_with (fun g : Currency * list Currency => length (snd g)) (pushQuote b q grouped)
  = S (sum_list_with (fun g : Currency * list Currency => length (snd g)) grouped).
Proof.
  induction grouped as [|[b0 qs0] grouped IH]; [reflexivity|].
  cbn [pushQuote]. case_bool_decide; cbn [sum_list_with snd].
  - rewrite length_app. cbn. lia.
  - rewrite IH. lia.
Qed.

(** The groups hold as many quotes as there are pairs. *)
Lemma groupByBase_total ps :
  sum_list_with (fun g : Currency * list Currency => length (snd g)) (groupByBase ps)
  = length ps.
Proof.
  induction ps as [|[b q] ps IH] using rev_ind; [reflexivity|].
  rewrite groupByBase_snoc, pushQuote_total, IH, length_app. cbn. lia.
Qed.

Lemma sum_list_with_scaled {A} (f : A -> nat) (n : nat) (l : list A) :
  sum_list_with (fun x => f x * n)%nat l = (sum_list_with f l * n)%nat.
Proof. induction l as [|x l IH]; cbn; [reflexivity | rewrite IH; lia]. Qed.

Lemma sum_list_with_const {A} (n : nat) (l : list A) :
  sum_list_with (fun _ => n) l = (length l * n)%nat.
Proof. induction l as [|x l IH]; cbn; [reflexivity | rewrite IH; lia]. Qed.

Lemma groups_le_total (l : list (Currency * list Currency)) :
  (forall b qs, (b, qs) ∈ l -> qs ≠ []) ->
  (length l <= sum_list_with (fun g : Currency * list Currency => length (snd g)) l)%nat.
Proof.
  induction l as [|[b0 qs0] l IH]; intros Hne; [cbn; lia|].
  cbn [sum_list_with length snd].
  assert (Hq0 : qs0 ≠ []) by (apply (Hne b0); left).
  assert (Hrest : (length l <= sum_list_with
                     (fun g : Currency * list Currency => length (snd g)) l)%nat).
  { apply IH. intros b1 qs1 Hin. apply (Hne b1). right. exact Hin. }
  destruct qs0; [contradiction | cbn; lia].
Qed.

(** X9. A cycle makes at most [retryCount + 1] requests (none when that
    is negative) for each configured pair, whichever provider is configured and whatever the
    key, the hour or the answers; with the batched Freecurrencyapi client
    the bound is [retryCount + 1] requests for each base; with the mock
    no request is made. *)
Theorem cycle_request_bound
    (cfg : RatesConfig) (p : RateProvider) (h : Host) (w : World) :
  buildProvider cfg = Ok p ->
  (calls (ticks w) <= calls (ticks (runFetch p cfg h w))
   <= calls (ticks w) + length (pairs cfg) * Z.to_nat (retryCount cfg + 1))%nat
  ∧ (cfg_provider cfg = freecurrencyapi ->
     (calls (ticks (runFetch p cfg h w))
      <= calls (ticks w)
         + length (groupByBase (pairs cfg)) * Z.to_nat (retryCount cfg + 1))%nat)
  ∧ (cfg_provider cfg = mock ->
     calls (ticks (runFetch p cfg h w)) = calls (ticks w)).
Proof.
  intros Hbuild. set (n := Z.to_nat (retryCount cfg + 1)).
  assert (Hfc : forall b quotes t,
            (calls t <= calls (snd (fetchRates (Freecurrency.createFreecurrencyApiClient cfg)
                                      b quotes h t)) <= calls t + n)%nat).
  { intros b quotes t. unfold fetchRates.
    cbn [getLatestRates Freecurrency.createFreecurrencyApiClient].
    apply requestLatestRates_calls_le. }
  assert (Hex : forall b quotes t,
            (calls t <= calls (snd (fetchRates (ExchangeRateApi.createExchangeRateApiClient cfg)
                                      b quotes h t)) <= calls t + length quotes * n)%nat).
  { intros b quotes t. unfold fetchRates.
    cbn [getLatestRates getLatestRate ExchangeRateApi.createExchangeRateApiClient].
    apply forEach_calls_le. intros q t0. apply requestLatestRate_calls_le. }
  assert (Hmock : forall b quotes t,
            (calls t <= calls (snd (fetchRates Mock.createMockRateProvider b quotes h t))
             <= calls t + 0)%nat).
  { intros b quotes t. rewrite mock_fetchRates_calls. lia. }
  unfold buildProvider in Hbuild.
  destruct (cfg_provider cfg) eqn:Hprov; simplify_eq.
  - pose proof (runFetch_calls_le _ cfg (fun _ => 0%nat) h w Hmock) as H.
    cbn beta in H. rewrite sum_list_with_const in H.
    split; [lia|]. split; [discriminate|]. intros _. lia.
  - pose proof (runFetch_calls_le _ cfg (fun quotes => (length quotes * n)%nat) h w Hex) as H.
    cbn beta in H. rewrite (sum_list_with_scaled (fun g : Currency * list Currency => length (snd g))) in H.
    rewrite groupByBase_total in H.
    split; [exact H|]. split; discriminate.
  - pose proof (runFetch_calls_le _ cfg (fun _ => n) h w Hfc) as H.
    cbn beta in H. rewrite sum_list_with_const in H.
    assert (Hgroups : (length (groupByBase (pairs cfg)) <= length (pairs cfg))%nat).
    { rewrite <- (groupByBase_total (pairs cfg)). apply groups_le_total.
      intros b0 qs0 Hin. apply (groupByBase_groups _ _ _ Hin). }
    split; [|split; [intros _; lia | discriminate]].
    split; [lia|]. nia.
Qed.

Lemma cycle_request_bound_witness :
  (calls (ticks Scenario.warm)
   <= calls (ticks (runFetch
                      (ExchangeRateApi.createExchangeRateApiClient
                         (Scenario.testConfig exchangerate_api))
                      (Scenario.testConfig exchangerate_api)
                      Scenario.networkDown Scenario.warm))
   <= calls (ticks Scenario.warm) + 2 * 2)%nat.
Proof.
  exact (proj1 (cycle_request_bound (Scenario.testConfig exchangerate_api) _
                  Scenario.networkDown Scenario.warm eq_refl)).
Defined.

(** *** The store over a cycle *)

Lemma cycle_lookup_base cfg p h w before b quotes after q :
  respectsBase p ->
  fst (withinActiveWindow cfg h (ticks w)) = Ok true ->
  groupByBase (pairs cfg) = before ++ (b, quotes) :: after ->
  store (runFetch p cfg h w) !! key b q
  = store (fetchForBase p cfg b quotes h
             (fetchAll p cfg before h
                (mkWorld (snd (withinActiveWindow cfg h (ticks w))) (store w)))) !! key b q
  ∧ store (fetchAll p cfg before h
             (mkWorld (snd (withinActiveWindow cfg h (ticks w))) (store w))) !! key b q
    = store w !! key b q.
Proof.
  intros Hp Hwin Hgroups.
  pose proof (groupByBase_NoDup (pairs cfg)) as HND. rewrite Hgroups in HND.
  apply bases_apart in HND as [Hbefore Hafter].
  unfold runFetch.
  destruct (withinActiveWindow cfg h (ticks w)) as [[[|]|e0] t0]; try discriminate.
  cbn [snd]. rewrite Hgroups, fetchAll_app, fetchAll_cons.
  rewrite (fetchAll_other_bases p cfg after h b q Hp Hafter).
  split; [reflexivity|].
  rewrite (fetchAll_other_bases p cfg before h b q Hp Hbefore). reflexivity.
Qed.

(** X10. A cycle that runs with the mock provider, no configured pair
    having its base for a quote, leaves for every configured pair an
    entry with rate 1 and provider [mock], not flagged stale and with a
    valid timestamp, so that [getRate] reports it stale by its age alone;
    and it makes no request. *)
Theorem mock_cycle_fills_the_store
    (cfg : RatesConfig) (h : Host) (w : World) (b q : Currency) :
  fst (withinActiveWindow cfg h (ticks w)) = Ok true ->
  (forall b q, (b, q) ∈ pairs cfg -> b ≠ q) ->
  (b, q) ∈ pairs cfg ->
  exists ms,
    store (runFetch Mock.createMockRateProvider cfg h w) !! key b q
    = Some (mkStored (mkRate b q 1 (ValidDate ms) mock) false)
    ∧ (forall ttl h' t',
         fst (getRate b q ttl (store (runFetch Mock.createMockRateProvider cfg h w)) h' t')
         = Ok (Some (mkStored (mkRate b q 1 (ValidDate ms) mock)
                       (clock h' (reads t') - ms >? ttl))))
    ∧ calls (ticks (runFetch Mock.createMockRateProvider cfg h w)) = calls (ticks w).
Proof.
  intros Hwin Hdistinct Hpair.
  destruct (groupByBase_has_pair _ _ _ Hpair) as (quotes & Hg & Hq).
  assert (Hall : Forall (fun q' => q' ≠ b) quotes).
  { apply Forall_forall. intros q' Hq' ->.
    apply (Hdistinct b b); [|reflexivity]. eapply groupByBase_only_pairs; eassumption. }
  apply list_elem_of_split in Hg as (before & after & Hgroups).
  destruct (cycle_lookup_base cfg _ h w before b quotes after q mock_respectsBase
              Hwin Hgroups) as [Hlook _].
  set (wb := fetchAll Mock.createMockRateProvider cfg before h _) in *.
  assert (Hfetch : fetchRates Mock.createMockRateProvider b quotes h (ticks wb)
                   = (Ok (imap (Mock.mockRateAt b h (ticks wb)) quotes),
                      mkTicks (calls (ticks wb)) (reads (ticks wb) + length quotes))).
  { unfold fetchRates. cbn [getLatestRates Mock.createMockRateProvider].
    unfold Mock.mockGetLatestRates, promiseAllMap.
    rewrite (mock_settleAll_ok _ _ _ Hall), firstRejection_map_Ok. reflexivity. }
  destruct (proj1 (fetchForBase_succeeded _ cfg b quotes h wb _ _
                     (buildProvider_answersEachQuote (Scenario.testConfig mock) _ eq_refl)
                     Hfetch) q Hq) as (r & Hr & Hb & Hq' & Hstored).
  apply list_elem_of_lookup in Hr as [i Hi].
  rewrite list_lookup_imap in Hi.
  destruct (quotes !! i) as [qi|]; [|discriminate]. injection Hi as <-.
  cbn in Hq'. subst qi.
  exists (clock h (reads (ticks wb) + i)%nat).
  rewrite Hlook, Hstored. split; [reflexivity|]. split.
  - intros ttl h' t'. unfold getRate. rewrite Hlook, Hstored. reflexivity.
  - pose proof (runFetch_calls_le Mock.createMockRateProvider cfg (fun _ => 0%nat) h w) as Hc.
    cbn beta in Hc. rewrite sum_list_with_const in Hc.
    assert (forall b quotes t,
              (calls t <= calls (snd (fetchRates Mock.createMockRateProvider b quotes h t))
               <= calls t + 0)%nat) as Hmock
      by (intros; rewrite mock_fetchRates_calls; lia).
    specialize (Hc Hmock). lia.
Qed.

Lemma mock_cycle_fills_the_store_witness :
  is_Some (store (runFetch Mock.createMockRateProvider (Scenario.testConfig mock)
                    Scenario.networkDown Scenario.warm) !! key USD EUR).
Proof.
  destruct (mock_cycle_fills_the_store (Scenario.testConfig mock)
              Scenario.networkDown Scenario.warm USD EUR eq_refl) as (ms & Hstored & _).
  - intros b q Hin Heq. subst q.
    apply elem_of_cons in Hin as [Hin|Hin]; [simplify_eq|].
    apply elem_of_cons in Hin as [Hin|Hin]; [simplify_eq | inversion Hin].
  - right. left.
  - rewrite Hstored. eexists. reflexivity.
Defined.

(** *** What a cycle never does *)

Lemma saveRates_keeps rs st (s : Store) k :
  is_Some (s !! k) -> is_Some (saveRates rs st s !! k).
Proof.
  revert s. induction rs as [|r rs IH]; intros s Hk; [exact Hk|].
  cbn [saveRates]. apply IH.
  destruct (decide (key (base r) (quote r) = k)) as [<-|Hne].
  - rewrite lookup_insert_eq. eauto.
  - rewrite lookup_insert_ne by exact Hne. exact Hk.
Qed.

Lemma markStale_keeps cfg b quotes h k :
  forall w, is_Some (store w !! k) -> is_Some (store (markStale cfg b quotes h w) !! k).
Proof.
  induction quotes as [|q rest IH]; intros w Hk; [exact Hk|].
  destruct (markStale_cons cfg b q rest h w) as (t' & -> & _).
  apply IH. cbn [store].
  destruct (store w !! key b q) as [old|]; [|exact Hk].
  destruct (decide (key b q = k)) as [<-|Hne].
  - rewrite lookup_insert_eq. eauto.
  - rewrite lookup_insert_ne by exact Hne. exact Hk.
Qed.

Lemma fetchForBase_keeps p cfg b quotes h w k :
  is_Some (store w !! k) -> is_Some (store (fetchForBase p cfg b quotes h w) !! k).
Proof.
  intros Hk. unfold fetchForBase.
  destruct (fetchRates p b quotes h (ticks w)) as [[rs|e] t'].
  - cbn [store]. apply saveRates_keeps, Hk.
  - apply markStale_keeps. exact Hk.
Qed.

Lemma fetchAll_keeps p cfg grouped h k :
  forall w, is_Some (store w !! k) -> is_Some (store (fetchAll p cfg grouped h w) !! k).
Proof.
  induction grouped as [|[b quotes] grouped IH]; intros w Hk; [exact Hk|].
  rewrite fetchAll_cons. apply IH, fetchForBase_keeps, Hk.
Qed.

Lemma fetchForBase_writes_own_keys p cfg b quotes h w k :
  answersEachQuote p ->
  (forall q, q ∈ quotes -> k ≠ key b q) ->
  store (fetchForBase p cfg b quotes h w) !! k = store w !! k.
Proof.
  intros Hp Hk.
  destruct (fetchRates p b quotes h (ticks w)) as [[rs|e] t'] eqn:Hfetch.
  - apply (proj2 (fetchForBase_succeeded p cfg b quotes h w rs t' Hp Hfetch)), Hk.
  - assert (Hfail : fst (fetchRates p b quotes h (ticks w)) = Err e)
      by (rewrite Hfetch; reflexivity).
    apply (proj2 (fetchForBase_failed p cfg b quotes h w e Hfail)), Hk.
Qed.

Lemma fetchAll_writes_own_keys p cfg grouped h k :
  answersEachQuote p ->
  (forall b quotes q, (b, quotes) ∈ grouped -> q ∈ quotes -> k ≠ key b q) ->
  forall w, store (fetchAll p cfg grouped h w) !! k = store w !! k.
Proof.
  intros Hp. induction grouped as [|[b quotes] grouped IH]; intros Hk w; [reflexivity|].
  rewrite fetchAll_cons, IH.
  - apply fetchForBase_writes_own_keys; [exact Hp|].
    intros q Hq. apply (Hk b quotes q); [left | exact Hq].
  - intros b' quotes' q' Hin. apply Hk. right. exact Hin.
Qed.

Lemma runFetch_store_cases p cfg h w :
  runFetch p cfg h w
  = fetchAll p cfg (groupByBase (pairs cfg)) h
      (mkWorld (snd (withinActiveWindow cfg h (ticks w))) (store w))
  ∨ store (runFetch p cfg h w) = store w
    ∧ calls (ticks (runFetch p cfg h w)) = calls (ticks w).
Proof.
  unfold runFetch, withinActiveWindow, getHourInTimezone, bind, now, ret.
  destruct (_ && _); [left | right; split]; reflexivity.
Qed.

(** X11. A cycle never removes an entry, whatever the provider does;
    and with any of the three providers it writes under the keys of the
    configured pairs only: what the store holds under any other key it
    holds unchanged afterwards. *)
Theorem cycle_only_touches_configured_pairs
    (cfg : RatesConfig) (p : RateProvider) (p' : RateProvider) (h : Host) (w : World)
    (k : string) :
  buildProvider cfg = Ok p ->
  (is_Some (store w !! k) -> is_Some (store (runFetch p' cfg h w) !! k))
  ∧ ((forall b q, (b, q) ∈ pairs cfg -> k ≠ key b q) ->
     store (runFetch p cfg h w) !! k = store w !! k).
Proof.
  intros Hbuild. split.
  - intros Hk. destruct (runFetch_store_cases p' cfg h w) as [-> | [-> _]]; [|exact Hk].
    apply fetchAll_keeps. exact Hk.
  - intros Hk. destruct (runFetch_store_cases p cfg h w) as [-> | [-> _]]; [|reflexivity].
    rewrite fetchAll_writes_own_keys; [reflexivity | |].
    + apply (buildProvider_answersEachQuote _ _ Hbuild).
    + intros b quotes q Hg Hq. apply Hk. eapply groupByBase_only_pairs; eassumption.
Qed.

Lemma cycle_only_touches_configured_pairs_witness :
  is_Some (store (runFetch Mock.createMockRateProvider (Scenario.testConfig mock)
                    Scenario.networkDown Scenario.warm) !! key USD JPY).
Proof.
  refine (proj1 (cycle_only_touches_configured_pairs (Scenario.testConfig mock)
                   Mock.createMockRateProvider Mock.createMockRateProvider
                   Scenario.networkDown Scenario.warm (key USD JPY) eq_refl) _).
  eexists. apply lookup_insert_eq.
Defined.

(** *** Entries and their keys *)

Lemma wellKeyed_empty : wellKeyed ∅.
Proof. intros k e Hk. rewrite lookup_empty in Hk. discriminate Hk. Qed.

Lemma wellKeyed_insert (s : Store) (r : ExchangeRate) (st : bool) :
  wellKeyed s -> wellKeyed (<[key (base r) (quote r) := mkStored r st]> s).
Proof.
  intros Hs k e. destruct (decide (key (base r) (quote r) = k)) as [<-|Hne].
  - rewrite lookup_insert_eq. intros [= <-]. reflexivity.
  - rewrite lookup_insert_ne by exact Hne. apply Hs.
Qed.

Lemma saveRates_wellKeyed rs st (s : Store) : wellKeyed s -> wellKeyed (saveRates rs st s).
Proof.
  revert s. induction rs as [|r rs IH]; intros s Hs; [exact Hs|].
  cbn [saveRates]. apply IH, wellKeyed_insert, Hs.
Qed.

Lemma markStale_wellKeyed cfg b quotes h :
  forall w, wellKeyed (store w) -> wellKeyed (store (markStale cfg b quotes h w)).
Proof.
  induction quotes as [|q rest IH]; intros w Hw; [exact Hw|].
  destruct (markStale_cons cfg b q rest h w) as (t' & -> & _).
  apply IH. cbn [store].
  destruct (store w !! key b q) as [old|]; [|exact Hw].
  apply (wellKeyed_insert (store w) (staleCopy b q old) true Hw).
Qed.

Lemma fetchAll_wellKeyed p cfg grouped h :
  forall w, wellKeyed (store w) -> wellKeyed (store (fetchAll p cfg grouped h w)).
Proof.
  induction grouped as [|[b quotes] grouped IH]; intros w Hw; [exact Hw|].
  rewrite fetchAll_cons. apply IH. unfold fetchForBase.
  destruct (fetchRates p b quotes h (ticks w)) as [[rs|e] t'].
  - cbn [store]. apply saveRates_wellKeyed, Hw.
  - apply markStale_wellKeyed. exact Hw.
Qed.

(** X12. Every entry sits under the key of its own pair: that holds of
    the empty store, every [saveRates] keeps it and so does every cycle,
    whatever the provider returns.  So what [getRate(base, quote)]
    returns from such a store is a rate for that base and that quote. *)
Theorem store_stays_well_keyed
    (p : RateProvider) (cfg : RatesConfig) (h : Host) (w : World)
    (rs : list ExchangeRate) (st : bool) :
  wellKeyed (store w) ->
  wellKeyed (saveRates rs st (store w))
  ∧ wellKeyed (store (runFetch p cfg h w))
  ∧ (forall b q ttl h' t' e,
       fst (getRate b q ttl (store (runFetch p cfg h w)) h' t') = Ok (Some e) ->
       base (entry e) = b ∧ quote (entry e) = q).
Proof.
  intros Hw.
  assert (Hrun : wellKeyed (store (runFetch p cfg h w))).
  { destruct (runFetch_store_cases p cfg h w) as [-> | [-> _]]; [|exact Hw].
    apply fetchAll_wellKeyed. exact Hw. }
  split; [apply saveRates_wellKeyed, Hw|]. split; [exact Hrun|].
  intros b q ttl h' t' e. unfold getRate.
  destruct (store (runFetch p cfg h w) !! key b q) as [e0|] eqn:He0; [|discriminate].
  cbn. intros [= <-]. cbn [entry].
  apply Hrun in He0. apply key_inj in He0 as [-> ->]. auto.
Qed.

Lemma store_stays_well_keyed_witness :
  wellKeyed (store (runFetch Mock.createMockRateProvider (Scenario.testConfig mock)
                      Scenario.networkDown Scenario.warm)).
Proof.
  refine (proj1 (proj2 (store_stays_well_keyed Mock.createMockRateProvider
                          (Scenario.testConfig mock) Scenario.networkDown Scenario.warm
                          [] false _))).
  apply (saveRates_wellKeyed [Scenario.earlier] false ∅ wellKeyed_empty).
Defined.

(** *** Cycles that cannot fetch *)

(** X13. With no configured pair, or with a window whose end is not
    after its start, a cycle changes nothing in the store and makes no
    request, whatever the hour and the provider. *)
Theorem cycle_with_nothing_to_do
    (p : RateProvider) (cfg : RatesConfig) (h : Host) (w : World) :
  pairs cfg = [] ∨ endHour cfg <= startHour cfg ->
  store (runFetch p cfg h w) = store w
  ∧ calls (ticks (runFetch p cfg h w)) = calls (ticks w).
Proof.
  intros [Hnone | Hwindow].
  - destruct (runFetch_store_cases p cfg h w) as [-> | H]; [|exact H].
    rewrite Hnone. split; reflexivity.
  - unfold runFetch, withinActiveWindow, getHourInTimezone, bind, now, ret.
    set (hour := hourIn h (timezone cfg) (clock h (reads (ticks w)))).
    destruct (Z.geb_spec hour (startHour cfg)), (Z.ltb_spec hour (endHour cfg));
      cbn [andb]; first [split; reflexivity | lia].
Qed.

Lemma cycle_with_nothing_to_do_witness :
  store (runFetch Mock.createMockRateProvider Scenario.overnightConfig
           Scenario.networkDown Scenario.warm) = store Scenario.warm.
Proof.
  refine (proj1 (cycle_with_nothing_to_do Mock.createMockRateProvider
                   Scenario.overnightConfig Scenario.networkDown Scenario.warm _)).
  right. vm_compute. discriminate.
Defined.

Lemma keyless_call_fails cfg b q quotes h t :
  cfg_apiKey cfg = None ∨ cfg_apiKey cfg = Some "" ->
  (exists e, ExchangeRateApi.requestLatestRate cfg b q h t = (Err e, t))
  ∧ (exists e, Freecurrency.requestLatestRates cfg b quotes h t = (Err e, t)).
Proof.
  intros Hkey.
  assert (Hensure : exists e, ensureApiKey cfg h t = (Err e, t)).
  { unfold ensureApiKey, throw. destruct Hkey as [-> | ->]; eexists; reflexivity. }
  destruct Hensure as [e0 He0]. split.
  - unfold ExchangeRateApi.requestLatestRate.
    case_bool_decide; [eexists; reflexivity|].
    unfold bind at 1. rewrite He0. eexists. reflexivity.
  - unfold Freecurrency.requestLatestRates.
    destruct (existsb _ quotes); [eexists; reflexivity|].
    unfold bind at 1. rewrite He0. eexists. reflexivity.
Qed.

Lemma keyless_fetch_fails cfg p b quotes h t :
  cfg_apiKey cfg = None ∨ cfg_apiKey cfg = Some "" ->
  p = ExchangeRateApi.createExchangeRateApiClient cfg
  ∨ p = Freecurrency.createFreecurrencyApiClient cfg ->
  snd (fetchRates p b quotes h t) = t
  ∧ (quotes ≠ [] -> exists e, fst (fetchRates p b quotes h t) = Err e).
Proof.
  intros Hkey Hp.
  destruct Hp as [-> | ->]; unfold fetchRates;
    cbn [getLatestRates getLatestRate ExchangeRateApi.createExchangeRateApiClient
           Freecurrency.createFreecurrencyApiClient].
  - destruct quotes as [|q rest]; [split; [reflexivity | congruence]|].
    destruct (proj1 (keyless_call_fails cfg b q [] h t Hkey)) as [e He].
    assert (Hrun : forEach (ExchangeRateApi.requestLatestRate cfg b) (q :: rest) h t
                   = (Err e, t)).
    { cbn [forEach]. unfold bind at 1. rewrite He. reflexivity. }
    rewrite Hrun. split; [reflexivity | intros _; eexists; reflexivity].
  - destruct (proj2 (keyless_call_fails cfg b b quotes h t Hkey)) as [e He].
    rewrite He. split; [reflexivity | intros _; eexists; reflexivity].
Qed.

(** X14. With one of the two HTTP clients configured and no API key (or
    an empty one), a cycle that runs makes no request; every configured
    pair that had an entry has afterwards an entry with the same rate,
    timestamp and provider and [stale = true], and a pair that had none
    still has none. *)
Theorem keyless_cycle_flags_everything_stale
    (cfg : RatesConfig) (p : RateProvider) (h : Host) (w : World) (b q : Currency) :
  buildProvider cfg = Ok p ->
  cfg_provider cfg ≠ mock ->
  cfg_apiKey cfg = None ∨ cfg_apiKey cfg = Some "" ->
  fst (withinActiveWindow cfg h (ticks w)) = Ok true ->
  (b, q) ∈ pairs cfg ->
  (forall old,
      store w !! key b q = Some old ->
      store (runFetch p cfg h w) !! key b q
      = Some (mkStored (mkRate b q (rate (entry old)) (timestamp (entry old))
                          (provider (entry old)))
                true))
  ∧ (store w !! key b q = None -> store (runFetch p cfg h w) !! key b q = None)
  ∧ calls (ticks (runFetch p cfg h w)) = calls (ticks w).
Proof.
  intros Hbuild Hreal Hkey Hwin Hpair.
  assert (Hp : p = ExchangeRateApi.createExchangeRateApiClient cfg
               ∨ p = Freecurrency.createFreecurrencyApiClient cfg).
  { unfold buildProvider in Hbuild. destruct (cfg_provider cfg); simplify_eq; auto. }
  assert (Hlook : store (runFetch p cfg h w) !! key b q
                  = flagged b q <$> store w !! key b q).
  { destruct (groupByBase_has_pair _ _ _ Hpair) as (quotes & Hg & Hq).
    pose proof (proj2 (groupByBase_groups _ _ _ Hg)) as Hne.
    apply list_elem_of_split in Hg as (before & after & Hgroups).
    destruct (proj2 (keyless_fetch_fails cfg p b quotes h
                       (ticks (fetchAll p cfg before h
                                 (mkWorld (snd (withinActiveWindow cfg h (ticks w)))
                                    (store w))))
                       Hkey Hp) Hne) as [e He].
    apply (cycle_lookup_failed_base cfg p h w before b quotes after e q
             (buildProvider_respectsBase _ _ Hbuild) Hwin Hgroups He Hq). }
  destruct (flagged_lookup_cases _ _ _ _ _ Hlook) as [Hsome Hnone].
  split; [exact Hsome|]. split; [exact Hnone|].
  - pose proof (runFetch_calls_le p cfg (fun _ => 0%nat) h w) as Hc.
    cbn beta in Hc. rewrite sum_list_with_const in Hc.
    assert (forall b quotes t,
              (calls t <= calls (snd (fetchRates p b quotes h t)) <= calls t + 0)%nat) as H0.
    { intros b0 quotes0 t0.
      rewrite (proj1 (keyless_fetch_fails cfg p b0 quotes0 h t0 Hkey Hp)). lia. }
    specialize (Hc H0). lia.
Qed.

Lemma keyless_cycle_flags_everything_stale_witness :
  store (runFetch (Freecurrency.createFreecurrencyApiClient Scenario.keylessConfig)
           Scenario.keylessConfig Scenario.serverErrorThenData Scenario.warm) !! key USD JPY
  = Some (mkStored Scenario.earlier true).
Proof.
  refine (proj1 (keyless_cycle_flags_everything_stale Scenario.keylessConfig _
                   Scenario.serverErrorThenData Scenario.warm USD JPY
                   eq_refl _ _ eq_refl _)
            (mkStored Scenario.earlier false) _).
  - discriminate.
  - left. reflexivity.
  - left.
  - apply lookup_insert_eq.
Defined.

End CycleFacts.

(** ** More on the rate store *)

Section StoreMore.
Import RateStore.

(** The keys that hold an entry after [saveRates]. *)
Lemma saveRates_is_Some rs st (s : Store) k :
  is_Some (saveRates rs st s !! k)
  <-> is_Some (s !! k) ∨ exists r, r ∈ rs ∧ key (base r) (quote r) = k.
Proof.
  revert s. induction rs as [|r rs IH]; intros s; cbn [saveRates].
  - split; [auto | intros [H | (r & Hr & _)]; [exact H | inversion Hr]].
  - rewrite IH. destruct (decide (key (base r) (quote r) = k)) as [Heq|Hne].
    + subst k. rewrite lookup_insert_eq. split.
      * intros _. right. exists r. split; [left | reflexivity].
      * intros _. left. eauto.
    + rewrite lookup_insert_ne by exact Hne. split.
      * intros [H | (r' & Hr' & Hk)]; [auto|]. right. exists r'. split; [right; exact Hr' | exact Hk].
      * intros [H | (r' & Hr' & Hk)]; [auto|].
        apply elem_of_cons in Hr' as [-> | Hr']; [contradiction|]. right. eauto.
Qed.

(** X15. [saveRates] only adds: the keys of the store afterwards are the
    keys it had and the keys of the pairs saved, no more and no fewer, so
    that no entry is ever evicted. *)
Theorem saveRates_only_adds (rs : list ExchangeRate) (st : bool) (s : Store) :
  dom (saveRates rs st s)
  = dom s ∪ list_to_set (map (fun r => key (base r) (quote r)) rs).
Proof.
  apply set_eq. intros k.
  rewrite elem_of_union, !elem_of_dom, elem_of_list_to_set, saveRates_is_Some.
  split; (intros [H | H]; [left; exact H | right]).
  - destruct H as (r & Hr & <-). apply list_elem_of_fmap. exists r. auto.
  - apply list_elem_of_fmap in H as (r & -> & Hr). exists r. auto.
Qed.

Lemma keysAfter_elem rs : forall keys k,
  k ∈ keysAfter keys rs <-> k ∈ keys ∨ exists r, r ∈ rs ∧ key (base r) (quote r) = k.
Proof.
  induction rs as [|r rs IH]; intros keys k; cbn [keysAfter].
  - split; [auto | intros [H | (r & Hr & _)]; [exact H | inversion Hr]].
  - rewrite IH. case_bool_decide as Hin.
    + split.
      * intros [H | (r' & Hr' & Hk)]; [auto|]. right. exists r'. split; [right; exact Hr' | exact Hk].
      * intros [H | (r' & Hr' & Hk)]; [auto|].
        apply elem_of_cons in Hr' as [-> | Hr']; [left; rewrite <- Hk; exact Hin | right; eauto].
    + rewrite elem_of_app, list_elem_of_singleton. split.
      * intros [[H | ->] | (r' & Hr' & Hk)]; [auto | |].
        -- right. exists r. split; [left | reflexivity].
        -- right. exists r'. split; [right; exact Hr' | exact Hk].
      * intros [H | (r' & Hr' & Hk)]; [auto|].
        apply elem_of_cons in Hr' as [-> | Hr']; [left; right; auto | right; eauto].
Qed.

Lemma keysAfter_NoDup rs : forall keys, NoDup keys -> NoDup (keysAfter keys rs).
Proof.
  induction rs as [|r rs IH]; intros keys HND; cbn [keysAfter]; [exact HND|].
  apply IH. case_bool_decide as Hin; [exact HND|].
  apply NoDup_app. split; [exact HND|]. split; [|apply NoDup_singleton].
  intros x Hx Hx'. apply list_elem_of_singleton in Hx'. subst x. contradiction.
Qed.

Lemma saveRatesOrdered_coherent rs st os :
  coherent os -> coherent (saveRatesOrdered rs st os).
Proof.
  intros [HND Hdom]. split; cbn [order content saveRatesOrdered].
  - apply keysAfter_NoDup, HND.
  - intros k. rewrite keysAfter_elem, saveRates_is_Some, Hdom. reflexivity.
Qed.

Lemma replayOrdered_invariants hist :
  coherent (replayOrdered hist)
  ∧ wellKeyed (content (replayOrdered hist))
  ∧ content (replayOrdered hist) = replay hist.
Proof.
  unfold replayOrdered, replay.
  assert (Hgen : forall os,
            coherent os -> wellKeyed (content os) ->
            coherent (fold_left (fun os '(rs, st) => saveRatesOrdered rs st os) hist os)
            ∧ wellKeyed (content (fold_left (fun os '(rs, st) => saveRatesOrdered rs st os)
                                    hist os))
            ∧ content (fold_left (fun os '(rs, st) => saveRatesOrdered rs st os) hist os)
              = fold_left (fun s '(rs, st) => saveRates rs st s) hist (content os)).
  { induction hist as [|[rs st] hist IH]; intros os Hc Hw; [auto|].
    cbn [fold_left]. apply IH.
    - apply saveRatesOrdered_coherent, Hc.
    - apply saveRates_wellKeyed, Hw. }
  apply Hgen.
  - split; [constructor|]. intros k. cbn. rewrite lookup_empty. split.
    + intros H. inversion H.
    + intros [x Hx]. discriminate Hx.
  - apply wellKeyed_empty.
Qed.

Lemma forEach_agedCopy ttl es h :
  forall t,
    forEach (agedCopy ttl) es h t
    = (Ok (imap (fun i e => aged ttl (clock h (reads t + i)%nat) e) es),
       mkTicks (calls t) (reads t + length es)).
Proof.
  induction es as [|e es IH]; intros t.
  - cbn. rewrite Nat.add_0_r. destruct t; reflexivity.
  - cbn [forEach]. unfold bind at 1, agedCopy at 1, bind at 1, now, ret.
    unfold bind at 1. rewrite IH. cbn [imap calls reads length]. unfold ret, aged at 2.
    rewrite Nat.add_0_r. f_equal.
    + do 2 f_equal. apply imap_ext. intros i x _. unfold compose. do 2 f_equal. lia.
    + f_equal. lia.
Qed.

Lemma values_Forall2 os :
  coherent os -> Forall2 (fun k e => content os !! k = Some e) (order os) (values os).
Proof.
  intros [_ Hdom]. unfold values.
  assert (Hall : forall k, k ∈ order os -> is_Some (content os !! k))
    by (intros k Hk; apply Hdom, Hk).
  clear Hdom. induction (order os) as [|k l IH]; [constructor|].
  destruct (Hall k) as [e He]; [left|].
  change (omap (fun k => content os !! k) (k :: l))
    with (match content os !! k with
          | Some y => y :: omap (fun k => content os !! k) l
          | None => omap (fun k => content os !! k) l
          end).
  rewrite He.
  constructor; [exact He|]. apply IH. intros k' Hk'. apply Hall. right. exact Hk'.
Qed.

Lemma coherent_size os : coherent os -> length (order os) = size (content os).
Proof.
  intros [HND Hdom]. rewrite <- size_dom. unfold size at 1, set_size. cbn.
  apply Permutation_length, NoDup_Permutation; [exact HND | apply NoDup_elements |].
  intros k. rewrite elem_of_elements, elem_of_dom. apply Hdom.
Qed.

(** *** The order of the store and the history *)

Lemma keysAfter_app r1 : forall keys r2,
  keysAfter keys (r1 ++ r2) = keysAfter (keysAfter keys r1) r2.
Proof.
  induction r1 as [|r r1 IH]; intros keys r2; [reflexivity|].
  cbn [app keysAfter]. apply IH.
Qed.

(** The order after a history is the order after its rates, one by one. *)
Lemma replayOrdered_order hist :
  order (replayOrdered hist) = keysAfter [] (concat (map fst hist)).
Proof.
  assert (Hgen : forall os,
            order (fold_left (fun os '(rs, st) => saveRatesOrdered rs st os) hist os)
            = keysAfter (order os) (concat (map fst hist))).
  { induction hist as [|[rs st] hist IH]; intros os; [reflexivity|].
    cbn [fold_left map fst concat]. rewrite IH, keysAfter_app. reflexivity. }
  apply (Hgen emptyStore).
Qed.

(** Of two keys of the order, the one that comes first was saved at a
    position of the history before which the other was never saved. *)
Lemma keysAfter_first_saved rs :
  forall i j ki kj,
    keysAfter [] rs !! i = Some ki ->
    keysAfter [] rs !! j = Some kj ->
    (i < j)%nat ->
    exists n r,
      rs !! n = Some r
      ∧ key (base r) (quote r) = ki
      ∧ forall m r', (m <= n)%nat -> rs !! m = Some r' -> key (base r') (quote r') ≠ kj.
Proof.
  induction rs as [|r0 rs IH] using rev_ind; intros i j ki kj Hi Hj Hij.
  - cbn [keysAfter] in Hi. rewrite lookup_nil in Hi. discriminate Hi.
  - rewrite keysAfter_app in Hi, Hj. cbn [keysAfter] in Hi, Hj.
    assert (Hold : forall ki' kj',
               keysAfter [] rs !! i = Some ki' ->
               keysAfter [] rs !! j = Some kj' ->
               exists n r,
                 (rs ++ [r0]) !! n = Some r
                 ∧ key (base r) (quote r) = ki'
                 ∧ forall m r', (m <= n)%nat -> (rs ++ [r0]) !! m = Some r' ->
                                key (base r') (quote r') ≠ kj').
    { intros ki' kj' Hi' Hj'.
      destruct (IH i j ki' kj' Hi' Hj' Hij) as (n & r & Hn & Hk & Hbefore).
      pose proof (lookup_lt_Some _ _ _ Hn) as Hlt.
      exists n, r. split; [rewrite lookup_app_l by exact Hlt; exact Hn|].
      split; [exact Hk|]. intros m r' Hm Hr'.
      rewrite lookup_app_l in Hr' by lia. apply (Hbefore m r' Hm Hr'). }
    case_bool_decide as Hin; [apply Hold; assumption|].
    destruct (decide (j < length (keysAfter [] rs))%nat) as [Hjl|Hjl].
    + rewrite lookup_app_l in Hi by lia. rewrite lookup_app_l in Hj by lia.
      apply Hold; assumption.
    + rewrite lookup_app_r in Hj by lia.
      destruct (j - length (keysAfter [] rs))%nat as [|d] eqn:Hd; [|discriminate Hj].
      injection Hj as <-.
      rewrite lookup_app_l in Hi by lia.
      assert (Hki : ki ∈ keysAfter [] rs) by (eapply list_elem_of_lookup_2, Hi).
      apply keysAfter_elem in Hki as [Hki | (r & Hr & Hk)]; [inversion Hki|].
      apply list_elem_of_lookup_1 in Hr as [n Hn].
      pose proof (lookup_lt_Some _ _ _ Hn) as Hlt.
      exists n, r. split; [rewrite lookup_app_l by exact Hlt; exact Hn|].
      split; [exact Hk|]. intros m r' Hm Hr' Heq.
      rewrite lookup_app_l in Hr' by lia.
      apply Hin, keysAfter_elem. right. exists r'.
      split; [eapply list_elem_of_lookup_2, Hr' | exact Heq].
Qed.

(** X16. [getAllRates] answers as [getRate] does, pair by pair: after any
    history of [saveRates] calls it returns one entry for each pair that
    has one, in the order in which the pairs were first saved (of two
    entries, the one returned first is for a pair that some rate of the
    history was saved for before any rate was saved for the pair of the
    other), and the [i]-th entry is what [getRate] returns for its pair
    at the [i]-th of the clock readings [getAllRates] makes, one for each
    entry. *)
Theorem getAllRates_agrees_with_getRate
    (hist : list (list ExchangeRate * bool)) (ttl : Z) (h : Host) (t : Ticks) :
  exists out,
    getAllRates ttl (replayOrdered hist) h t
    = (Ok out, mkTicks (calls t) (reads t + size (replay hist)))
    ∧ length out = size (replay hist)
    ∧ map (fun e => key (base (entry e)) (quote (entry e))) out
      = order (replayOrdered hist)
    ∧ NoDup (map (fun e => key (base (entry e)) (quote (entry e))) out)
    ∧ (forall b q, is_Some (replay hist !! key b q)
                   <-> exists e, e ∈ out ∧ base (entry e) = b ∧ quote (entry e) = q)
    ∧ (forall i e,
         out !! i = Some e ->
         fst (getRate (base (entry e)) (quote (entry e)) ttl (replay hist) h
                (mkTicks (calls t) (reads t + i)))
         = Ok (Some e))
    ∧ (forall i j ei ej,
         out !! i = Some ei -> out !! j = Some ej -> (i < j)%nat ->
         exists n r,
           concat (map fst hist) !! n = Some r
           ∧ base r = base (entry ei) ∧ quote r = quote (entry ei)
           ∧ forall m r',
               (m <= n)%nat -> concat (map fst hist) !! m = Some r' ->
               ¬ (base r' = base (entry ej) ∧ quote r' = quote (entry ej))).
Proof.
  destruct (replayOrdered_invariants hist) as (Hcoh & Hwk & Hcontent).
  pose proof (values_Forall2 _ Hcoh) as HF2.
  pose proof (coherent_size _ Hcoh) as Hsize. rewrite Hcontent in Hsize.
  set (os := replayOrdered hist) in *.
  set (out := imap (fun i e => aged ttl (clock h (reads t + i)%nat) e) (values os)).
  assert (Hlen : length (values os) = length (order os))
    by (symmetry; eapply Forall2_length, HF2).
  assert (Hkeys : map (fun e => key (base (entry e)) (quote (entry e))) out = order os).
  { unfold out. apply list_eq. intros i.
    rewrite list_lookup_fmap, list_lookup_imap.
    destruct (order os !! i) as [k|] eqn:Hk.
    - destruct (Forall2_lookup_l _ _ _ _ _ HF2 Hk) as (e & He & Hke).
      rewrite He. cbn. f_equal. symmetry. apply (Hwk _ _ Hke).
    - apply lookup_ge_None in Hk. rewrite <- Hlen in Hk.
      apply lookup_ge_None in Hk. rewrite Hk. reflexivity. }
  exists out. split; [|split; [|split; [|split; [|split; [|split]]]]].
  - unfold getAllRates. rewrite forEach_agedCopy. fold out.
    rewrite Hlen, Hsize. reflexivity.
  - unfold out. rewrite length_imap, Hlen. exact Hsize.
  - exact Hkeys.
  - rewrite Hkeys. apply Hcoh.
  - intros b q. rewrite <- Hcontent. rewrite <- (proj2 Hcoh (key b q)), <- Hkeys. split.
    + intros Hin. apply list_elem_of_fmap in Hin as (e & Hk & He).
      apply key_inj in Hk as [-> ->]. exists e. auto.
    + intros (e & He & <- & <-). apply list_elem_of_fmap. exists e. auto.
  - intros i e Hi. unfold out in Hi. rewrite list_lookup_imap in Hi.
    destruct (values os !! i) as [e0|] eqn:He0; [|discriminate]. injection Hi as <-.
    destruct (Forall2_lookup_r _ _ _ _ _ HF2 He0) as (k & Hk & Hke).
    pose proof (Hwk _ _ Hke) as Hkey. cbn [aged entry]. unfold getRate.
    rewrite <- Hcontent, <- Hkey, Hke. reflexivity.
  - intros i j ei ej Hi Hj Hij.
    assert (Hki : keysAfter [] (concat (map fst hist)) !! i
                  = Some (key (base (entry ei)) (quote (entry ei)))).
    { rewrite <- replayOrdered_order. fold os. rewrite <- Hkeys, list_lookup_fmap, Hi.
      reflexivity. }
    assert (Hkj : keysAfter [] (concat (map fst hist)) !! j
                  = Some (key (base (entry ej)) (quote (entry ej)))).
    { rewrite <- replayOrdered_order. fold os. rewrite <- Hkeys, list_lookup_fmap, Hj.
      reflexivity. }
    destruct (keysAfter_first_saved _ _ _ _ _ Hki Hkj Hij) as (n & r & Hn & Hk & Hbefore).
    apply key_inj in Hk as [Hb Hq].
    exists n, r. split; [exact Hn|]. split; [exact Hb|]. split; [exact Hq|].
    intros m r' Hm Hr' [Hb' Hq']. apply (Hbefore m r' Hm Hr').
    rewrite Hb', Hq'. reflexivity.
Qed.

End StoreMore.

(** ** The rate endpoint *)

Section EndpointFacts.
Import RateStore Fetcher Endpoint.

Lemma currencyOf_code c : currencyOf (code c) = Some c.
Proof. destruct c; reflexivity. Qed.

Lemma currencyOf_Some s c : currencyOf s = Some c -> s = code c.
Proof.
  unfold currencyOf. intros H. apply find_some in H as [_ H].
  apply bool_decide_eq_true in H. symmetry. exact H.
Qed.

Lemma safeParse_Some v c : safeParse v = Some c -> v = QString (code c).
Proof.
  destruct v; cbn; try discriminate. intros H. apply currencyOf_Some in H. subst. reflexivity.
Qed.

(** X17. The handler of [GET /latest] only reads the store: it makes no
    request.  It responds with data exactly for two enumerated currency
    codes, different from each other, whose pair has an entry, and the
    data is what [getRate] returns for the pair; for anything else it
    throws the validation error, answered with status 400, or, the codes
    being valid and distinct and the pair without an entry, the
    not-available error, answered with status 404. *)
Theorem latest_rate_handler_outcomes
    (cfg : RatesConfig) (baseRaw quoteRaw : QueryValue) (s : Store) (h : Host) (t : Ticks) :
  calls (snd (getLatestRateHandler cfg baseRaw quoteRaw s h t)) = calls t
  ∧ (forall e,
       fst (getLatestRateHandler cfg baseRaw quoteRaw s h t) = Err e ->
       (e = AppError 400 "RATE_VALIDATION_ERROR" ∧ errorStatus e = 400)
       ∨ (e = AppError 404 "RATE_NOT_AVAILABLE" ∧ errorStatus e = 404
          ∧ exists b q, baseRaw = QString (code b) ∧ quoteRaw = QString (code q)
                        ∧ b ≠ q ∧ s !! key b q = None))
  ∧ (forall d,
       fst (getLatestRateHandler cfg baseRaw quoteRaw s h t) = Ok d ->
       exists b q, baseRaw = QString (code b) ∧ quoteRaw = QString (code q)
                   ∧ b ≠ q
                   ∧ fst (getRate b q (cacheTtlMs cfg) s h t) = Ok (Some d))
  ∧ (forall b q,
       b ≠ q ->
       getLatestRateHandler cfg (QString (code b)) (QString (code q)) s h t
       = match s !! key b q with
         | Some e =>
             (Ok (aged (cacheTtlMs cfg) (clock h (reads t)) e),
              mkTicks (calls t) (S (reads t)))
         | None => (Err (AppError 404 "RATE_NOT_AVAILABLE"), t)
         end).
Proof.
  split; [|split; [|split]].
  - unfold getLatestRateHandler, getRate, bind, now, ret, throw.
    destruct (safeParse baseRaw) as [b|]; [|reflexivity].
    destruct (safeParse quoteRaw) as [q|]; [|reflexivity].
    destruct (bool_decide (b = q)); [reflexivity|].
    destruct (s !! key b q); reflexivity.
  - intros e. unfold getLatestRateHandler.
    destruct (safeParse baseRaw) as [b|] eqn:Hb;
      [|cbn; intros [= <-]; left; split; reflexivity].
    destruct (safeParse quoteRaw) as [q|] eqn:Hq;
      [|cbn; intros [= <-]; left; split; reflexivity].
    apply safeParse_Some in Hb, Hq.
    case_bool_decide as Hbq; [cbn; intros [= <-]; left; split; reflexivity|].
    unfold getRate, bind, now, ret, throw.
    destruct (s !! key b q) as [e0|] eqn:Hs; cbn; [discriminate|].
    intros [= <-]. right. split; [reflexivity|]. split; [reflexivity|].
    exists b, q. auto.
  - intros d. unfold getLatestRateHandler.
    destruct (safeParse baseRaw) as [b|] eqn:Hb; [|discriminate].
    destruct (safeParse quoteRaw) as [q|] eqn:Hq; [|discriminate].
    apply safeParse_Some in Hb, Hq. case_bool_decide as Hbq; [discriminate|].
    unfold getRate, bind, now, ret, throw.
    destruct (s !! key b q) as [e0|] eqn:Hs; cbn; [|discriminate].
    intros [= <-]. exists b, q. rewrite Hs. repeat split; try assumption; reflexivity.
  - intros b q Hbq. unfold getLatestRateHandler. cbn [safeParse].
    rewrite !currencyOf_code. case_bool_decide; [contradiction|].
    unfold getRate, bind, now, ret, throw.
    destruct (s !! key b q); reflexivity.
Qed.

(** X18. Seen from the endpoint: after a cycle in which the fetch for a
    base threw, a request for one of its pairs is answered with the rate,
    timestamp and provider the store had before the cycle and
    [stale = true], and with the not-available error (404) when it had
    none. *)
Theorem endpoint_after_failed_fetch
    (cfg : RatesConfig) (p : RateProvider) (h : Host) (w : World)
    (before : list (Currency * list Currency)) (b : Currency) (quotes : list Currency)
    (after : list (Currency * list Currency)) (e : JsError) (q : Currency)
    (h' : Host) (t' : Ticks) :
  buildProvider cfg = Ok p ->
  fst (withinActiveWindow cfg h (ticks w)) = Ok true ->
  groupByBase (pairs cfg) = before ++ (b, quotes) :: after ->
  fst (fetchRates p b quotes h
         (ticks (fetchAll p cfg before h
                   (mkWorld (snd (withinActiveWindow cfg h (ticks w))) (store w)))))
    = Err e ->
  q ∈ quotes -> b ≠ q ->
  fst (getLatestRateHandler cfg (QString (code b)) (QString (code q))
         (store (runFetch p cfg h w)) h' t')
  = match store w !! key b q with
    | Some old =>
        Ok (mkStored (mkRate b q (rate (entry old)) (timestamp (entry old))
                        (provider (entry old)))
              true)
    | None => Err (AppError 404 "RATE_NOT_AVAILABLE")
    end.
Proof.
  intros Hbuild Hwin Hgroups Hfail Hq Hbq.
  pose proof (cycle_lookup_failed_base cfg p h w before b quotes after e q
                (buildProvider_respectsBase _ _ Hbuild) Hwin Hgroups Hfail Hq) as Hlook.
  unfold getLatestRateHandler. cbn [safeParse].
  rewrite !currencyOf_code. case_bool_decide; [contradiction|].
  unfold getRate, bind, now, ret, throw. rewrite Hlook.
  destruct (store w !! key b q); reflexivity.
Qed.

Lemma endpoint_after_failed_fetch_witness :
  fst (getLatestRateHandler (Scenario.testConfig exchangerate_api)
         (QString "USD") (QString "JPY")
         (store (runFetch
                   (ExchangeRateApi.createExchangeRateApiClient
                      (Scenario.testConfig exchangerate_api))
                   (Scenario.testConfig exchangerate_api)
                   Scenario.networkDown Scenario.warm))
         Scenario.networkDown Scenario.start)
  = Ok (mkStored Scenario.earlier true).
Proof.
  refine (eq_trans
            (endpoint_after_failed_fetch
               (Scenario.testConfig exchangerate_api) _
               Scenario.networkDown Scenario.warm [] USD [JPY; EUR] []
               (AppError 503 "RATE_PROVIDER_REQUEST_FAILED") JPY
               Scenario.networkDown Scenario.start
               eq_refl eq_refl eq_refl eq_refl _ _)
            _).
  - left.
  - discriminate.
  - reflexivity.
Defined.

End EndpointFacts.

(** ** The configured pairs *)

Section ConfigFacts.
Import Stdlib.Strings.Ascii.
Import RateStore Fetcher Config.

Lemma split_nonempty sep s : split sep s ≠ [].
Proof.
  destruct s as [|c s]; cbn [split]; [discriminate|].
  destruct (Ascii.eqb c sep); [discriminate|].
  destruct (split sep s); discriminate.
Qed.

(** Splitting at a separator splits on both sides of it. *)
Lemma split_app sep s1 s2 :
  split sep (s1 +:+ String sep s2) = split sep s1 ++ split sep s2.
Proof.
  induction s1 as [|c s1 IH].
  - change ("" +:+ String sep s2) with (String sep s2). cbn [split].
    rewrite Ascii.eqb_refl. reflexivity.
  - change (String c s1 +:+ String sep s2) with (String c (s1 +:+ String sep s2)).
    cbn [split].
    destruct (Ascii.eqb c sep); rewrite IH; [reflexivity|].
    pose proof (split_nonempty sep s1) as Hne.
    destruct (split sep s1) as [|first more]; [contradiction | reflexivity].
Qed.

Lemma pairsOf_concat r1 r2 :
  pairsOf (r1 +:+ "," +:+ r2) = pairsOf r1 ++ pairsOf r2.
Proof.
  unfold pairsOf. change ("," +:+ r2) with (String ","%char r2).
  rewrite split_app, map_app, filter_app, map_app, filter_app, flat_map_app.
  reflexivity.
Qed.

Lemma parseRatePairs_pairsOf raw : parseRatePairs raw = pairsOf raw.
Proof.
  unfold parseRatePairs. case_bool_decide as Hraw; [|reflexivity].
  subst raw. reflexivity.
Qed.

(** X19. [parseRatePairs] reads the configuration token by token: what
    it makes of two strings joined by a comma is what it makes of the
    first followed by what it makes of the second, so that an empty or
    ill-formed token changes nothing about the others. *)
Theorem parseRatePairs_concat (r1 r2 : string) :
  parseRatePairs (r1 +:+ "," +:+ r2) = parseRatePairs r1 ++ parseRatePairs r2.
Proof. rewrite !parseRatePairs_pairsOf. apply pairsOf_concat. Qed.

Lemma parseRatePairs_single b q :
  parseRatePairs (code b +:+ ":" +:+ code q) = [(b, q)].
Proof. destruct b, q; vm_compute; reflexivity. Qed.

(** X20. Parsing the configuration string written for a list of pairs,
    [BASE:QUOTE] tokens joined by commas, gives the list back: every
    pair, in order, duplicates and pairs of a currency with itself
    included. *)
Theorem parseRatePairs_formatPairs (ps : list (Currency * Currency)) :
  parseRatePairs (formatPairs ps) = ps.
Proof.
  unfold formatPairs. induction ps as [|[b q] ps IH]; [reflexivity|].
  destruct ps as [|[b' q'] ps].
  - cbn [map String.concat]. apply parseRatePairs_single.
  - cbn [map String.concat] in *.
    rewrite parseRatePairs_pairsOf, pairsOf_concat, <- !parseRatePairs_pairsOf.
    rewrite parseRatePairs_single, IH. reflexivity.
Qed.

Lemma forEach_fails_on {A B} (f : A -> M B) (x : A) :
  (forall h t, exists e, fst (f x h t) = Err e) ->
  forall xs h t, x ∈ xs -> exists e, fst (forEach f xs h t) = Err e.
Proof.
  intros Hx. induction xs as [|y xs IH]; intros h t Hin; [inversion Hin|].
  cbn [forEach]. unfold bind at 1.
  destruct (f y h t) as [[v|e] t0] eqn:Hy; [|eexists; reflexivity].
  apply elem_of_cons in Hin as [->|Hin].
  - destruct (Hx h t) as [e He]. rewrite Hy in He. discriminate He.
  - unfold bind at 1. destruct (IH h t0 Hin) as [e He].
    destruct (forEach f xs h t0) as [[vs|e'] t1]; cbn in He; [discriminate|].
    eexists. reflexivity.
Qed.

Lemma self_quote_fetch_fails cfg p b quotes h t :
  buildProvider cfg = Ok p -> b ∈ quotes ->
  exists e, fst (fetchRates p b quotes h t) = Err e.
Proof.
  intros Hbuild Hin. unfold buildProvider in Hbuild.
  destruct (cfg_provider cfg); simplify_eq; unfold fetchRates;
    cbn [getLatestRates getLatestRate Mock.createMockRateProvider
           ExchangeRateApi.createExchangeRateApiClient
           Freecurrency.createFreecurrencyApiClient].
  - eexists. apply (mock_batch_same b quotes h t Hin).
  - apply (forEach_fails_on _ b); [|exact Hin].
    intros h0 t0. unfold ExchangeRateApi.requestLatestRate.
    case_bool_decide; [eexists; reflexivity | congruence].
  - unfold Freecurrency.requestLatestRates.
    rewrite (existsb_same_true _ _ Hin). eexists. reflexivity.
Qed.

(** X21. A configured pair of a currency with itself, which
    [parseRatePairs] lets through, makes every fetch for that base throw,
    with each of the three providers: in a cycle that runs, no pair of
    that base is refreshed; each has afterwards an entry with the rate,
    timestamp and provider of the entry the store had and [stale = true],
    or still none when the store had none. *)
Theorem self_pair_blocks_its_base
    (cfg : RatesConfig) (p : RateProvider) (h : Host) (w : World) (b q : Currency) :
  buildProvider cfg = Ok p ->
  fst (withinActiveWindow cfg h (ticks w)) = Ok true ->
  (b, b) ∈ pairs cfg ->
  (b, q) ∈ pairs cfg ->
  (forall old,
      store w !! key b q = Some old ->
      store (runFetch p cfg h w) !! key b q
      = Some (mkStored (mkRate b q (rate (entry old)) (timestamp (entry old))
                          (provider (entry old)))
                true))
  ∧ (store w !! key b q = None -> store (runFetch p cfg h w) !! key b q = None).
Proof.
  intros Hbuild Hwin Hself Hpair. apply flagged_lookup_cases.
  destruct (groupByBase_has_pair _ _ _ Hpair) as (quotes & Hg & Hq).
  destruct (groupByBase_has_pair _ _ _ Hself) as (quotes' & Hg' & Hb).
  destruct (groupByBase_groups _ _ _ Hg) as [Hquotes _].
  destruct (groupByBase_groups _ _ _ Hg') as [Hquotes' _].
  rewrite <- Hquotes in Hquotes'. subst quotes'.
  apply list_elem_of_split in Hg as (before & after & Hgroups).
  destruct (self_quote_fetch_fails cfg p b quotes h
              (ticks (fetchAll p cfg before h
                        (mkWorld (snd (withinActiveWindow cfg h (ticks w))) (store w))))
              Hbuild Hb) as [e He].
  apply (cycle_lookup_failed_base cfg p h w before b quotes after e q
           (buildProvider_respectsBase _ _ Hbuild) Hwin Hgroups He Hq).
Qed.

Lemma self_pair_blocks_its_base_witness :
  store (runFetch (ExchangeRateApi.createExchangeRateApiClient Scenario.selfPairConfig)
           Scenario.selfPairConfig Scenario.serverErrorThenData Scenario.warm) !! key USD JPY
  = Some (mkStored Scenario.earlier true).
Proof.
  refine (proj1 (self_pair_blocks_its_base Scenario.selfPairConfig _
                   Scenario.serverErrorThenData Scenario.warm USD JPY
                   eq_refl eq_refl _ _)
            (mkStored Scenario.earlier false) _).
  - vm_compute. left.
  - vm_compute. right. left.
  - apply lookup_insert_eq.
Defined.

End ConfigFacts.
